(** * linear-local-mcp: a shallow embedding of the reader, the store detector
      and the query tools, with the properties of the specification.

    Conventions of the embedding.
    - Python [str] values are Rocq [string]s.  Case mapping, [isupper] and
      [isalpha] are Python's on ASCII text ([py.isascii]); on other text
      Python follows Unicode, so a property that rests on how case is mapped
      is stated for ASCII text only.
    - A Python [dict] that the code iterates is an association list in
      insertion order ([.values()] is the list of its values).
    - The entity dictionaries built by [_reload_cache] have a fixed set of keys,
      so they are records; a field read with [.get] is an [option] ([None] is
      Python's [None]).  Identifiers and text are [str], [number] and
      [priority] are [int].
    - Untyped values (a raw record of the store as the detector sees it, a
      decoded rich-text body, a timestamp field) are [pyval]s; [bytes] values
      are left out.
    - [time.time()] and the numeric timestamps are rationals, so the rounding
      of floating-point arithmetic is not represented.
    - A function that can raise returns an [option], [None] being the
      exception.  Library functions the sources call ([json.loads],
      [datetime.fromisoformat], [repr]) are variables of a section, and so
      is what the recursion limit of the interpreter leaves to a recursive
      function. *)

From Stdlib Require Import ZArith List String Ascii Bool Lia.
From Stdlib Require Import Permutation Sorted QArith Lqa DecimalString Btauto.
Import ListNotations.

Set Warnings "-register-all".
Open Scope string_scope.
Open Scope Z_scope.

(** ** Python built-ins used by the sources *)

Module py.

Definition is_ascii_upper (c : ascii) : bool :=
  (65 <=? nat_of_ascii c)%nat && (nat_of_ascii c <=? 90)%nat.

Definition is_ascii_lower (c : ascii) : bool :=
  (97 <=? nat_of_ascii c)%nat && (nat_of_ascii c <=? 122)%nat.

Definition is_ascii_digit (c : ascii) : bool :=
  (48 <=? nat_of_ascii c)%nat && (nat_of_ascii c <=? 57)%nat.

Definition lower_char (c : ascii) : ascii :=
  if is_ascii_upper c then ascii_of_nat (nat_of_ascii c + 32) else c.

Definition upper_char (c : ascii) : ascii :=
  if is_ascii_lower c then ascii_of_nat (nat_of_ascii c - 32) else c.

Fixpoint map_chars (f : ascii -> ascii) (s : string) : string :=
  match s with
  | EmptyString => EmptyString
  | String c s' => String (f c) (map_chars f s')
  end.

Fixpoint all_chars (p : ascii -> bool) (s : string) : bool :=
  match s with
  | EmptyString => true
  | String c s' => p c && all_chars p s'
  end.

Fixpoint any_char (p : ascii -> bool) (s : string) : bool :=
  match s with
  | EmptyString => false
  | String c s' => p c || any_char p s'
  end.

(** [s.lower()] and [s.upper()] *)
Definition lower (s : string) : string := map_chars lower_char s.
Definition upper (s : string) : string := map_chars upper_char s.

(** [s.isupper()]: some cased character, and no lowercase one *)
Definition isupper (s : string) : bool :=
  any_char is_ascii_upper s && negb (any_char is_ascii_lower s).

(** [s.isalpha()]: non-empty and alphabetic throughout *)
Definition isalpha (s : string) : bool :=
  negb (String.eqb s "")
  && all_chars (fun c => is_ascii_upper c || is_ascii_lower c) s.

(** [s.isascii()]: every character is below 128 *)
Definition isascii (s : string) : bool :=
  all_chars (fun c => (nat_of_ascii c <? 128)%nat) s.

(** [s.startswith(p)] *)
Definition startswith (s p : string) : bool := String.prefix p s.

(** [needle in hay] on strings *)
Fixpoint contains (needle hay : string) : bool :=
  String.prefix needle hay
  || match hay with
     | EmptyString => false
     | String _ hay' => contains needle hay'
     end.

(** [s.replace(c, r)] for a one-character pattern [c] *)
Fixpoint replace_char (c : ascii) (r : string) (s : string) : string :=
  match s with
  | EmptyString => EmptyString
  | String a s' =>
      if Ascii.eqb a c then r ++ replace_char c r s'
      else String a (replace_char c r s')
  end.

(** [str(n)] for an [int] *)
Definition str_of_int (n : Z) : string := NilZero.string_of_int (Z.to_int n).

(** [f"{v}"] for a field that holds an [int] or [None], a [str] or [None] *)
Definition fmt_int (v : option Z) : string :=
  match v with Some n => str_of_int n | None => "None" end.

Definition fmt_str (v : option string) : string :=
  match v with Some s => s | None => "None" end.

(** [l[:k]], negative [k] counting from the end *)
Definition slice_to {A : Type} (k : Z) (l : list A) : list A :=
  if 0 <=? k then firstn (Z.to_nat k) l
  else firstn (List.length l - Z.to_nat (- k)) l.

(** [sorted(l, key=...)]: the stable sort, [le] comparing keys.  An element is
    placed before the first element of the sorted tail that it does not
    exceed, so equal keys keep their input order. *)
Fixpoint insert_by {A : Type} (le : A -> A -> bool) (x : A) (l : list A)
  : list A :=
  match l with
  | [] => [x]
  | y :: l' => if le x y then x :: l else y :: insert_by le x l'
  end.

Definition sorted {A : Type} (le : A -> A -> bool) (l : list A) : list A :=
  fold_right (insert_by le) [] l.

(** A [dict] in insertion order: [d[k] = v] keeps the position of a key
    already present, [d.get(k)] *)
Fixpoint dict_set {V : Type} (k : string) (v : V) (d : list (string * V))
  : list (string * V) :=
  match d with
  | [] => [(k, v)]
  | (k', v') :: d' =>
      if String.eqb k' k then (k, v) :: d' else (k', v') :: dict_set k v d'
  end.

Fixpoint dict_get {V : Type} (k : string) (d : list (string * V)) : option V :=
  match d with
  | [] => None
  | (k', v) :: d' => if String.eqb k' k then Some v else dict_get k d'
  end.

Definition dict_has {V : Type} (k : string) (d : list (string * V)) : bool :=
  match dict_get k d with Some _ => true | None => false end.

Definition values {V : Type} (d : list (string * V)) : list V := map snd d.

(** The loop [for x in l: if keep(x): results.append(x); if len(results) >=
    limit: break], the test of the length made after each append *)
Fixpoint append_until {A : Type} (keep : A -> bool) (limit : Z)
    (l results : list A) : list A :=
  match l with
  | [] => results
  | x :: l' =>
      if keep x
      then
        let results' := (results ++ [x])%list in
        if Z.of_nat (List.length results') >=? limit then results'
        else append_until keep limit l' results'
      else append_until keep limit l' results
  end.

End py.

(** ** Untyped Python values *)

Inductive pyval : Type :=
| VNone
| VBool (b : bool)
| VInt (n : Z)
| VFloat (q : Q)
| VStr (s : string)
| VList (l : list pyval)
| VDict (d : list (string * pyval)).

Module pyv.

(** [bool(v)] *)
Definition truthy (v : pyval) : bool :=
  match v with
  | VNone => false
  | VBool b => b
  | VInt n => negb (n =? 0)
  | VFloat q => negb (Qeq_bool q 0)
  | VStr s => negb (String.eqb s "")
  | VList l => match l with [] => false | _ => true end
  | VDict d => match d with [] => false | _ => true end
  end.

(** [v == s] for a string literal [s] *)
Definition eq_str (v : pyval) (s : string) : bool :=
  match v with VStr s' => String.eqb s' s | _ => false end.

(** [d.get(k, default)] *)
Definition get (d : list (string * pyval)) (k : string) (default : pyval)
  : pyval :=
  match py.dict_get k d with Some v => v | None => default end.

(** [f(d.get(k, default))], written as one traversal of [d] so that a
    recursive [f] is applied to a visible component of [d] *)
Definition on_get {R : Type} (k : string) (f : pyval -> R) (default : R)
  : list (string * pyval) -> R :=
  fix go (d : list (string * pyval)) : R :=
    match d with
    | [] => default
    | (k', v) :: d' => if String.eqb k' k then f v else go d'
    end.


(** ["".join(xs)]: [None] is the [TypeError] of an item that is not a [str],
    or an exception raised while the items were produced *)
Fixpoint join (xs : list (option pyval)) : option pyval :=
  match xs with
  | [] => Some (VStr "")
  | Some (VStr s) :: xs' =>
      match join xs' with
      | Some (VStr r) => Some (VStr (s ++ r))
      | _ => None
      end
  | _ :: _ => None
  end.

End pyv.

(** ** reader.py *)

Module reader.

Definition CACHE_TTL_SECONDS : Q := 300.

Record Team : Type := mkTeam {
  team_id : string;
  team_key : option string;
  team_name : option string }.

Record User : Type := mkUser {
  user_id : string;
  user_name : option string;
  user_displayName : option string;
  user_email : option string }.

Record State : Type := mkState {
  state_id : string;
  state_name : option string;
  state_type : option string;
  state_color : option string }.

Record Issue : Type := mkIssue {
  issue_id : string;
  issue_identifier : string;
  issue_title : option string;
  issue_number : option Z;
  issue_priority : option Z;
  issue_teamId : option string;
  issue_stateId : option string;
  issue_assigneeId : option string;
  issue_projectId : option string;
  issue_labelIds : list string;
  issue_createdAt : pyval;
  issue_updatedAt : pyval }.

Record Comment : Type := mkComment {
  comment_id : string;
  comment_issueId : string;
  comment_userId : option string;
  comment_body : pyval;
  comment_createdAt : pyval;
  comment_updatedAt : pyval }.

Record CachedData : Type := mkCachedData {
  teams : list (string * Team);
  users : list (string * User);
  states : list (string * State);
  issues : list (string * Issue);
  comments : list (string * Comment);
  comments_by_issue : list (string * list string);
  loaded_at : Q }.

Definition empty_cache (t : Q) : CachedData :=
  mkCachedData [] [] [] [] [] [] t.

(** [CachedData.is_expired], [now] being [time.time()] *)
Definition is_expired (now : Q) (c : CachedData) : bool :=
  negb (Qle_bool (now - loaded_at c) CACHE_TTL_SECONDS).

(** The guard of [_ensure_cache]: Python's [not self._cache.teams] *)
Definition reload_needed (now : Q) (c : CachedData) : bool :=
  is_expired now c || match teams c with [] => true | _ => false end.

(** [_ensure_cache]; [reload] is [_reload_cache] run at that instant, [None]
    when it raises (the cache is then left as it was) *)
Definition _ensure_cache (reload : Q -> option CachedData) (now : Q)
    (c : CachedData) : option CachedData :=
  if reload_needed now c then reload now else Some c.

(** [_to_str] on a text field *)
Definition _to_str (v : option string) : string :=
  match v with None => "" | Some s => s end.

(** *** [_extract_comment_text]

    What [json.loads] does with a string: it returns the decoded value, it
    raises [JSONDecodeError], or it raises something else (a
    [RecursionError] on a text nested too deeply). *)
Inductive Loaded : Type :=
| Decoded (tree : pyval)
| JSONDecodeError
| OtherError.

(** [json_loads] is [json.loads].  A result [None] is an exception leaving
    the function.

    The recursion of [extract] is bounded by the recursion limit of the
    interpreter.  [room] is what is left of that limit when a call is made,
    in the units the interpreter counts: the call of [extract] takes one, and
    ["".join(...)] over a generator expression takes [join_cost] more for as
    long as the items are produced: the frame of the generator and, where
    the interpreter counts it against the same limit, the call of the
    built-in method (CPython 3.11 counts both, so [join_cost] is 2 there).
    A call or a join for which no room is left raises [RecursionError].

    [py_repr room v] is [str(v)] for a value that is not a string, called
    with [room] left: its text, or [None] when it raises (the conversion of
    a bool, a number, a list or a dict is itself counted against the
    recursion limit, and the one of a very long [int] is refused). *)
Section Extract.

Variable json_loads : string -> Loaded.
Variable py_repr : nat -> pyval -> option string.
Variable join_cost : nat.

(** [f"{v}"] with [room] left: a string is inserted as it is *)
Definition fmt (room : nat) (v : pyval) : option string :=
  match v with
  | VStr s => Some s
  | _ => py_repr room v
  end.

(** [node.get("attrs", {}).get("label", "")], then the conditional
    expression; [.get] on anything but a dict is an [AttributeError] *)
Definition mention_text (room : nat) (node : list (string * pyval))
  : option pyval :=
  match pyv.get node "attrs" (VDict []) with
  | VDict attrs =>
      let label := pyv.get attrs "label" (VStr "") in
      if pyv.truthy label
      then match fmt room label with
           | Some text => Some (VStr ("@" ++ text))
           | None => None
           end
      else Some (VStr "")
  | _ => None
  end.

(** ["".join(extract(c) for c in ...)] with [room] left when it starts,
    [items] being what the calls of [extract] give *)
Definition joined (room : nat) (items : list (option pyval)) : option pyval :=
  if (room <? join_cost)%nat then None else pyv.join items.

(** [extract(c)] for an item that is a string: a character of a string that
    is iterated, a key of a dict that is iterated *)
Definition extract_str (room : nat) : option pyval :=
  match room with
  | O => None
  | S _ => Some (VStr "")
  end.

(** The inner [extract], called with [room] left.  Iterating a [str] yields
    its characters and iterating a dict its keys, which all extract to the
    empty string; [None], a [bool] and a number are not iterable. *)
Fixpoint extract (node : pyval) (room : nat) {struct node} : option pyval :=
  match room with
  | O => None
  | S room' =>
      match node with
      | VDict d =>
          let node_type := pyv.get d "type" (VStr "") in
          if pyv.eq_str node_type "text" then Some (pyv.get d "text" (VStr ""))
          else if pyv.eq_str node_type "suggestion_userMentions"
          then mention_text room' d
          else if pyv.eq_str node_type "hardBreak"
          then Some (VStr (String (ascii_of_nat 10) ""))
          else
            pyv.on_get "content"
              (fun content =>
                 match content with
                 | VList l =>
                     joined room'
                       (map (fun c => extract c (room' - join_cost)%nat) l)
                 | VStr s =>
                     joined room'
                       (map (fun _ => extract_str (room' - join_cost)%nat)
                          (list_ascii_of_string s))
                 | VDict keys =>
                     joined room'
                       (map (fun _ => extract_str (room' - join_cost)%nat)
                          keys)
                 | _ => None
                 end)
              (joined room' []) d
      | VList l =>
          joined room' (map (fun c => extract c (room' - join_cost)%nat) l)
      | _ => Some (VStr "")
      end
  end.

(** [room] is what is left when [_extract_comment_text] calls [extract] *)
Variable room : nat.

Definition _extract_comment_text (body_data : pyval) : option pyval :=
  match body_data with
  | VNone => Some (VStr "")
  | VStr s =>
      match json_loads s with
      | Decoded tree => extract tree room
      | JSONDecodeError => Some (VStr s)
      | OtherError => None
      end
  | _ => extract body_data room
  end.

End Extract.

(** *** [_reload_cache]

    The input is what [_load_from_store] yields for each detected store, in
    order (nothing for a role that was not detected), read through the
    accesses the loader makes: [val["id"]] and [val.get(...)].  The database
    is taken to open, and every record of the team, user, state and issue
    stores to be an object with a string under ["id"]; where that fails the
    loader raises ([FileNotFoundError], [ValueError], [KeyError]) before it
    builds a cache, which the embedding does not represent: a result
    [Some c] stands for a pass that went through, and the only exception it
    follows is one raised while the comments are read. *)

Record RawIssue : Type := mkRawIssue {
  raw_id : string;
  raw_title : option string;
  raw_number : option Z;
  raw_priority : option Z;
  raw_teamId : option string;
  raw_stateId : option string;
  raw_assigneeId : option string;
  raw_projectId : option string;
  raw_labelIds : list string;
  raw_createdAt : pyval;
  raw_updatedAt : pyval }.

Record RawComment : Type := mkRawComment {
  rawc_id : option string;
  rawc_issueId : option string;
  rawc_userId : option string;
  rawc_bodyData : pyval;
  rawc_createdAt : pyval;
  rawc_updatedAt : pyval }.

Record StoreRecords : Type := mkStoreRecords {
  team_records : list Team;
  user_records : list (list User);
  state_records : list (list State);
  issue_records : list RawIssue;
  comment_records : list RawComment }.

Definition load_team (d : list (string * Team)) (val : Team)
  : list (string * Team) :=
  py.dict_set (team_id val)
    (mkTeam (team_id val) (team_key val) (team_name val)) d.

Definition load_user (d : list (string * User)) (val : User)
  : list (string * User) :=
  if py.dict_has (user_id val) d then d
  else py.dict_set (user_id val)
         (mkUser (user_id val) (user_name val) (user_displayName val)
            (user_email val)) d.

Definition load_state (d : list (string * State)) (val : State)
  : list (string * State) :=
  if py.dict_has (state_id val) d then d
  else py.dict_set (state_id val)
         (mkState (state_id val) (state_name val) (state_type val)
            (state_color val)) d.

(** [cache.teams.get(val.get("teamId"), {})]: no team is stored under
    [None] *)
Definition lookup_team (tms : list (string * Team)) (tid : option string)
  : option Team :=
  match tid with
  | Some t => py.dict_get t tms
  | None => None
  end.

(** [team.get("key", "???")]: a stored team always has the entry ["key"] *)
Definition team_key_or_unknown (team : option Team) : option string :=
  match team with
  | Some t => team_key t
  | None => Some "???"
  end.

Definition make_identifier (tms : list (string * Team)) (val : RawIssue)
  : string :=
  py.fmt_str (team_key_or_unknown (lookup_team tms (raw_teamId val)))
  ++ "-" ++ py.fmt_int (raw_number val).

Definition load_issue (tms : list (string * Team))
    (d : list (string * Issue)) (val : RawIssue) : list (string * Issue) :=
  py.dict_set (raw_id val)
    (mkIssue (raw_id val) (make_identifier tms val) (raw_title val)
       (raw_number val) (raw_priority val) (raw_teamId val)
       (raw_stateId val) (raw_assigneeId val) (raw_projectId val)
       (raw_labelIds val) (raw_createdAt val) (raw_updatedAt val)) d.

Section Reload.

Variable json_loads : string -> Loaded.
Variable py_repr : nat -> pyval -> option string.

(** The cost of a join, and what is left of the recursion limit when the
    loader has called [_extract_comment_text] and that calls [extract]: the
    same for every comment of a pass *)
Variables join_cost room : nat.

(** [not v] for an identifier read with [.get] *)
Definition missing (v : option string) : bool :=
  match v with
  | None => true
  | Some s => String.eqb s ""
  end.

(** One comment record: the two dictionaries after it, [None] when the
    extraction of the body raises *)
Definition load_comment
    (acc : list (string * Comment) * list (string * list string))
    (val : RawComment)
  : option (list (string * Comment) * list (string * list string)) :=
  if missing (rawc_id val) || missing (rawc_issueId val) then Some acc
  else
    match rawc_id val, rawc_issueId val with
    | Some cid, Some iid =>
        match
          _extract_comment_text json_loads py_repr join_cost room
            (rawc_bodyData val)
        with
        | None => None
        | Some body =>
            let cs :=
              py.dict_set cid
                (mkComment cid iid (rawc_userId val) body
                   (rawc_createdAt val) (rawc_updatedAt val)) (fst acc) in
            let ids :=
              match py.dict_get iid (snd acc) with
              | Some l => l
              | None => []
              end in
            Some (cs, py.dict_set iid (ids ++ [cid])%list (snd acc))
        end
    | _, _ => Some acc
    end.

Fixpoint load_comments
    (acc : list (string * Comment) * list (string * list string))
    (vals : list RawComment)
  : option (list (string * Comment) * list (string * list string)) :=
  match vals with
  | [] => Some acc
  | val :: vals' =>
      match load_comment acc val with
      | Some acc' => load_comments acc' vals'
      | None => None
      end
  end.

(** The new cache, [None] when the pass raises and [self._cache] keeps its
    old value *)
Definition _reload_cache (db : StoreRecords) (now : Q)
  : option CachedData :=
  let tms := fold_left load_team (team_records db) [] in
  let us :=
    fold_left (fun d vals => fold_left load_user vals d)
      (user_records db) [] in
  let sts :=
    fold_left (fun d vals => fold_left load_state vals d)
      (state_records db) [] in
  let iss := fold_left (load_issue tms) (issue_records db) [] in
  match load_comments ([], []) (comment_records db) with
  | Some (cs, by_issue) =>
      Some (mkCachedData tms us sts iss cs by_issue now)
  | None => None
  end.

End Reload.

(** *** Queries on the current cache *)

(** The score [find_user] gives a user that matched *)
Definition user_score (search_lower : string) (user : User) : Z :=
  let name_lower := py.lower (_to_str (user_name user)) in
  let display_lower := py.lower (_to_str (user_displayName user)) in
  if py.startswith name_lower search_lower then 100
  else if py.contains (" " ++ search_lower) (" " ++ name_lower) then 50
  else if py.startswith display_lower search_lower then 40
  else 10.

Definition user_matches (search_lower : string) (user : User) : bool :=
  py.contains search_lower (py.lower (_to_str (user_name user)))
  || py.contains search_lower (py.lower (_to_str (user_displayName user))).

(** The list [candidates] at the end of the loop of [find_user] *)
Definition user_candidates (search : string) (c : CachedData)
  : list (Z * User) :=
  let search_lower := py.lower search in
  flat_map
    (fun user =>
       if user_matches search_lower user
       then [(user_score search_lower user, user)]
       else [])
    (py.values (users c)).

Definition find_user (search : string) (c : CachedData) : option User :=
  match py.sorted (fun x y => - fst x <=? - fst y) (user_candidates search c)
  with
  | [] => None
  | x :: _ => Some (snd x)
  end.

(** [key == search_upper]: [key] is the stored entry, possibly [None] *)
Definition team_matches (search : string) (team : Team) : bool :=
  match team_key team with
  | Some key => String.eqb key (py.upper search)
  | None => false
  end
  || py.contains (py.lower search) (py.lower (_to_str (team_name team))).

Definition find_team (search : string) (c : CachedData) : option Team :=
  find (team_matches search) (py.values (teams c)).

Definition get_issues_for_user (uid : string) (c : CachedData) : list Issue :=
  filter
    (fun issue =>
       match issue_assigneeId issue with
       | Some a => String.eqb a uid
       | None => false
       end)
    (py.values (issues c)).

(** [self.states.get(state_id, {})] *)
Definition lookup_state (state_id : option string) (c : CachedData)
  : option State :=
  match state_id with
  | Some s => py.dict_get s (states c)
  | None => None
  end.

(** [get_state_name], [get_state_type]: the stored entry (possibly [None])
    of a known state, the default otherwise *)
Definition get_state_name (state_id : option string) (c : CachedData)
  : option string :=
  match lookup_state state_id c with
  | Some st => state_name st
  | None => Some "Unknown"
  end.

Definition get_state_type (state_id : option string) (c : CachedData)
  : option string :=
  match lookup_state state_id c with
  | Some st => state_type st
  | None => Some "unknown"
  end.

Definition get_issue_by_identifier (identifier : string) (c : CachedData)
  : option Issue :=
  let identifier_upper := py.upper identifier in
  find
    (fun issue =>
       String.eqb (py.upper (issue_identifier issue)) identifier_upper)
    (py.values (issues c)).

(** The test of [search_issues] on the title of an issue *)
Definition title_matches (query_lower : string) (issue : Issue) : bool :=
  py.contains query_lower (py.lower (_to_str (issue_title issue))).

Definition search_issues (query : string) (limit : Z) (c : CachedData)
  : list Issue :=
  py.append_until (title_matches (py.lower query)) limit
    (py.values (issues c)) [].

End reader.

(** ** store_detector.py *)

Module store_detector.

Record DetectedStores : Type := mkDetectedStores {
  issues : option string;
  teams : option string;
  users : option (list string);
  workflow_states : option (list string);
  comments : option string;
  projects : option string }.

(** A raw record: field name to value *)
Definition record : Type := list (string * pyval).

(** [required.issubset(record.keys())] *)
Definition has_fields (required : list string) (r : record) : bool :=
  forallb (fun k => py.dict_has k r) required.

Definition _is_issue_record (r : record) : bool :=
  has_fields ["number"; "teamId"; "stateId"; "title"] r.

Definition _is_user_record (r : record) : bool :=
  let has_required := has_fields ["name"; "displayName"; "email"] r in
  let has_avatar := py.dict_has "avatarUrl" r || py.dict_has "avatar" r in
  has_required && has_avatar.

Definition _is_team_record (r : record) : bool :=
  if negb (has_fields ["key"; "name"] r) then false
  else
    match py.dict_get "key" r with
    | Some (VStr key) =>
        py.isupper key && py.isalpha key
        && (String.length key <=? 10)%nat
    | _ => false
    end.

Definition valid_types : list string :=
  ["started"; "unstarted"; "completed"; "canceled"; "backlog"].

(** [None]: the [TypeError] of testing an unhashable value (a list, a dict)
    for membership in a set *)
Definition _is_workflow_state_record (r : record) : option bool :=
  if negb (has_fields ["name"; "type"; "color"] r) then Some false
  else
    match py.dict_get "type" r with
    | Some (VStr state_type) =>
        Some (existsb (String.eqb state_type) valid_types)
    | Some (VList _) | Some (VDict _) => None
    | _ => Some false
    end.

Definition _is_comment_record (r : record) : bool :=
  has_fields ["issueId"; "userId"; "bodyData"; "createdAt"] r.

Definition _is_project_record (r : record) : bool :=
  has_fields
    ["name"; "description"; "teamIds"; "startDate"; "targetDate"; "statusId"]
    r.

Definition is_none {A : Type} (o : option A) : bool :=
  match o with None => true | Some _ => false end.

(** [xs or []] *)
Definition or_empty (xs : option (list string)) : list string :=
  match xs with Some l => l | None => [] end.

Definition mem (s : string) (l : list string) : bool :=
  existsb (String.eqb s) l.

(** The [if]/[elif] chain applied to the first record of a store.  An
    exception raised by a test leaves the chain, and the handler of the loop
    goes on with the next store: [result] is as before. *)
Definition classify (result : DetectedStores) (store_name : string)
    (val : record) : DetectedStores :=
  if _is_issue_record val && is_none (issues result) then
    mkDetectedStores (Some store_name) (teams result) (users result)
      (workflow_states result) (comments result) (projects result)
  else if _is_team_record val && is_none (teams result) then
    mkDetectedStores (issues result) (Some store_name) (users result)
      (workflow_states result) (comments result) (projects result)
  else if _is_user_record val
          && negb (mem store_name (or_empty (users result))) then
    mkDetectedStores (issues result) (teams result)
      (Some (or_empty (users result) ++ [store_name])%list)
      (workflow_states result) (comments result) (projects result)
  else
    match _is_workflow_state_record val with
    | None => result
    | Some is_state =>
        if is_state
           && negb (mem store_name (or_empty (workflow_states result))) then
          mkDetectedStores (issues result) (teams result) (users result)
            (Some (or_empty (workflow_states result) ++ [store_name])%list)
            (comments result) (projects result)
        else if _is_comment_record val && is_none (comments result) then
          mkDetectedStores (issues result) (teams result) (users result)
            (workflow_states result) (Some store_name) (projects result)
        else if _is_project_record val && is_none (projects result) then
          mkDetectedStores (issues result) (teams result) (users result)
            (workflow_states result) (comments result) (Some store_name)
        else result
    end.

(** What reading a store gives the loop: an exception, no record at all, or
    the value of the first record *)
Inductive sample : Type :=
| ReadError
| NoRecord
| FirstRecord (val : pyval).

(** [db.object_store_names] with, for each name, what the store yields *)
Definition database : Type := list (option string * sample).

(** The stores the loop passes over without reading them *)
Definition skipped (store_name : option string) : bool :=
  match store_name with
  | None => true
  | Some n => py.startswith n "_" || py.contains "_partial" n
  end.

(** One turn of the loop over the store names *)
Definition visit (result : DetectedStores) (store : option string * sample)
  : DetectedStores :=
  if skipped (fst store) then result
  else
    match store with
    | (Some store_name, FirstRecord (VDict val)) =>
        classify result store_name val
    | _ => result
    end.

Definition detect_stores (db : database) : DetectedStores :=
  fold_left visit db
    (mkDetectedStores None None (Some []) (Some []) None None).

End store_detector.

(** ** server.py

    The tools read the cache through [get_reader()]; here they take the cache
    that [_ensure_cache] hands out, the same for the whole call. *)

Module server.

Import reader.

Definition qlt (a b : Q) : bool := negb (Qle_bool b a).

(** A page of [list_issues] or [search_issues]: the response dictionary.
    [count] is ["totalCount"] or ["matchCount"]; [error] is the entry
    ["error"], present in one response only. *)
Record EnrichedIssue : Type := mkEnriched {
  issue : Issue;
  state : option string;
  stateType : option string }.

Record Page : Type := mkPage {
  error : option string;
  issues : list EnrichedIssue;
  nextCursor : option string;
  count : nat }.

Record CompactIssue : Type := mkCompact {
  compact_id : string;
  compact_identifier : string;
  compact_title : option string;
  compact_priority : option Z;
  compact_state : option string;
  compact_stateType : option string }.

Record MyIssues : Type := mkMyIssues {
  my_user : option string * option string;
  totalIssues : nat;
  countsByStateType : list (option string * nat);
  matchingCount : nat;
  my_issues : list CompactIssue;
  my_nextCursor : option string }.

(** The response of [get_my_issues]: [{"error": msg}] or the full one *)
Inductive MyIssuesResponse : Type :=
| MyError (msg : string)
| MyResult (r : MyIssues).

(** [if s:] for an optional string argument *)
Definition given (s : option string) : bool :=
  match s with
  | Some x => negb (String.eqb x "")
  | None => false
  end.

(** [a != b] where [a] was read with [.get] and [b] is a string *)
Definition differs (a : option string) (b : string) : bool :=
  match a with
  | Some x => negb (String.eqb x b)
  | None => true
  end.

(** [a == b] on values that are a string or [None] *)
Definition option_eqb (a b : option string) : bool :=
  match a, b with
  | Some x, Some y => String.eqb x y
  | None, None => true
  | _, _ => false
  end.

Definition enrich (c : CachedData) (i : Issue) : EnrichedIssue :=
  mkEnriched i (get_state_name (issue_stateId i) c)
    (get_state_type (issue_stateId i) c).

(** The key of the sort: [(x.get("priority") or 4, x.get("id", ""))], and the
    order of Python on such pairs *)
Definition priority_or_4 (p : option Z) : Z :=
  match p with
  | Some n => if n =? 0 then 4 else n
  | None => 4
  end.

Definition sort_key (x : Issue) : Z * string :=
  (priority_or_4 (issue_priority x), issue_id x).

Definition key_le (a b : Z * string) : bool :=
  (fst a <? fst b) || ((fst a =? fst b) && String.leb (snd a) (snd b)).

Definition canonical (l : list Issue) : list Issue :=
  py.sorted (fun x y => key_le (sort_key x) (sort_key y)) l.

(** The loop that applies the cursor: [skip] and the list built so far *)
Definition cursor_step (cursor : string) (st : bool * list Issue)
    (i : Issue) : bool * list Issue :=
  if fst st
  then (if String.eqb (issue_id i) cursor then false else true, snd st)
  else (false, (snd st ++ [i])%list).

Definition apply_cursor (cursor : option string) (filtered : list Issue)
  : list Issue :=
  if given cursor
  then
    match cursor with
    | Some cur => snd (fold_left (cursor_step cur) filtered (true, []))
    | None => filtered
    end
  else filtered.

(** [page = l[: limit + 1]], [has_more], [page = page[:limit]] *)
Definition take_page {A : Type} (limit : Z) (l : list A) : list A * bool :=
  let page := py.slice_to (limit + 1) l in
  let has_more := Z.of_nat (List.length page) >? limit in
  (py.slice_to limit page, has_more).

(** [xs[-1]["id"] if has_more and xs else None] *)
Definition next_cursor_of {A : Type} (get_id : A -> string) (has_more : bool)
    (xs : list A) : option string :=
  if has_more
  then match rev xs with
       | [] => None
       | x :: _ => Some (get_id x)
       end
  else None.

(** The list [filtered] of [search_issues] before the cursor is applied *)
Definition search_filtered (c : CachedData) (query : string) : list Issue :=
  let query_lower := py.lower query in
  filter
    (fun i => py.contains query_lower (py.lower (_to_str (issue_title i))))
    (canonical (py.values (reader.issues c))).

Definition search_issues (c : CachedData) (query : string) (limit : Z)
    (cursor : option string) : Page :=
  let limit := Z.min limit 100 in
  let filtered := search_filtered c query in
  let match_count := List.length filtered in
  let (page, has_more) := take_page limit (apply_cursor cursor filtered) in
  let results := map (enrich c) page in
  mkPage None results
    (next_cursor_of (fun e => issue_id (issue e)) has_more results)
    match_count.

Section Tools.

(** [datetime.fromisoformat(s).timestamp()], [None] when it raises
    [ValueError] *)
Variable fromisoformat : string -> option Q.

Definition _parse_datetime (dt_value : pyval) : option Q :=
  match dt_value with
  | VNone => None
  | VBool b => Some (if b then 1%Q else 0%Q)
  | VInt n =>
      if qlt 1000000000000 (inject_Z n) then Some (inject_Z n / 1000)%Q
      else Some (inject_Z n)
  | VFloat q =>
      if qlt 1000000000000 q then Some (q / 1000)%Q else Some q
  | VStr s => fromisoformat (py.replace_char "Z"%char "+00:00" s)
  | _ => None
  end.

(** The tests of the filtering loop of [list_issues], each one a
    [continue] when it fails *)
Definition keeps (c : CachedData) (assignee_id team_id : option string)
    (state_type : option string) (priority : option Z)
    (updated_after_ts : option Q) (i : Issue) : bool :=
  negb (match assignee_id with
        | Some a => given (Some a) && differs (issue_assigneeId i) a
        | None => false
        end)
  && negb (match team_id with
           | Some t => given (Some t) && differs (issue_teamId i) t
           | None => false
           end)
  && negb (match state_type with
           | Some st =>
               given (Some st)
               && match get_state_type (issue_stateId i) c with
                  | Some x => negb (String.eqb x st)
                  | None => true
                  end
           | None => false
           end)
  && negb (match priority with
           | Some p =>
               match issue_priority i with
               | Some q => negb (q =? p)
               | None => true
               end
           | None => false
           end)
  && negb (match updated_after_ts with
           | Some ts =>
               match _parse_datetime (issue_updatedAt i) with
               | Some issue_updated => qlt issue_updated ts
               | None => true
               end
           | None => false
           end).

(** The arguments of [list_issues] that select issues *)
Record Filters : Type := mkFilters {
  assignee : option string;
  team : option string;
  f_state_type : option string;
  f_priority : option Z;
  updated_after : option string }.

(** How the filters resolve before the issues are looked at *)
Inductive Resolved : Type :=
| BadDate (msg : string)
| NoSuchAssigneeOrTeam
| Ready (assignee_id team_id : option string) (updated_after_ts : option Q).

(** The first step of [list_issues] and [get_my_issues]: the timestamp of
    the filter ([None] without one), or the message of the error the tool
    returns *)
Definition parse_updated_after (updated_after : option string)
  : string + option Q :=
  if given updated_after
  then
    match updated_after with
    | Some s =>
        match _parse_datetime (VStr s) with
        | Some ts => inr (Some ts)
        | None => inl ("Invalid updated_after format: " ++ s)
        end
    | None => inr None
    end
  else inr None.

(** [find_user] or [find_team] for an argument that is given:
    [Some None] is the lookup that found nothing *)
Definition lookup_given {A : Type} (find : string -> option A)
    (arg : option string) : option (option A) :=
  if given arg
  then match arg with Some a => Some (find a) | None => None end
  else None.

Definition resolve (c : CachedData) (f : Filters) : Resolved :=
  match parse_updated_after (updated_after f) with
  | inl msg => BadDate msg
  | inr updated_after_ts =>
      match lookup_given (fun a => find_user a c) (assignee f) with
      | Some None => NoSuchAssigneeOrTeam
      | user =>
          let assignee_id :=
            match user with
            | Some (Some u) => Some (user_id u)
            | _ => None
            end in
          match lookup_given (fun t => find_team t c) (team f) with
          | Some None => NoSuchAssigneeOrTeam
          | Some (Some t) =>
              Ready assignee_id (Some (team_id t)) updated_after_ts
          | None => Ready assignee_id None updated_after_ts
          end
      end
  end.

(** The list [filtered] before the cursor is applied *)
Definition filtered_issues (c : CachedData) (f : Filters)
    (assignee_id team_id : option string) (updated_after_ts : option Q)
  : list Issue :=
  filter
    (keeps c assignee_id team_id (f_state_type f) (f_priority f)
       updated_after_ts)
    (canonical (py.values (reader.issues c))).

Definition list_issues (c : CachedData) (f : Filters) (limit : Z)
    (cursor : option string) : Page :=
  let limit := Z.min limit 100 in
  match resolve c f with
  | BadDate msg => mkPage (Some msg) [] None 0
  | NoSuchAssigneeOrTeam => mkPage None [] None 0
  | Ready assignee_id team_id updated_after_ts =>
      let filtered :=
        filtered_issues c f assignee_id team_id updated_after_ts in
      let total_count := List.length filtered in
      let (page, has_more) := take_page limit (apply_cursor cursor filtered) in
      let results := map (enrich c) page in
      mkPage None results
        (next_cursor_of (fun e => issue_id (issue e)) has_more results)
        total_count
  end.

(** [counts[k] = counts.get(k, 0) + 1] *)
Fixpoint count_incr (k : option string) (counts : list (option string * nat))
  : list (option string * nat) :=
  match counts with
  | [] => [(k, 1%nat)]
  | (k', n) :: counts' =>
      if option_eqb k' k then (k', S n) :: counts'
      else (k', n) :: count_incr k counts'
  end.

Definition compact (c : CachedData) (i : Issue) : CompactIssue :=
  mkCompact (issue_id i) (issue_identifier i) (issue_title i)
    (issue_priority i) (get_state_name (issue_stateId i) c)
    (get_state_type (issue_stateId i) c).

(** The issues of [get_my_issues] once both filters are applied *)
Definition my_filtered (c : CachedData) (user : User)
    (state_type : option string) (updated_after_ts : option Q)
  : list Issue :=
  let all_issues := canonical (get_issues_for_user (user_id user) c) in
  let all_issues :=
    if given state_type
    then filter
           (fun i =>
              option_eqb (get_state_type (issue_stateId i) c) state_type)
           all_issues
    else all_issues in
  match updated_after_ts with
  | Some ts =>
      filter
        (fun i =>
           Qle_bool ts
             match _parse_datetime (issue_updatedAt i) with
             | Some t => t
             | None => 0%Q
             end)
        all_issues
  | None => all_issues
  end.

Definition get_my_issues (c : CachedData) (name : string)
    (state_type updated_after : option string) (limit : Z)
    (cursor : option string) : MyIssuesResponse :=
  let limit := Z.min limit 100 in
  match parse_updated_after updated_after with
  | inl msg => MyError msg
  | inr updated_after_ts =>
      match find_user name c with
      | None => MyError ("User '" ++ name ++ "' not found")
      | Some user =>
          let all_issues :=
            canonical (get_issues_for_user (user_id user) c) in
          let counts_by_state :=
            fold_left
              (fun counts i =>
                 count_incr (get_state_type (issue_stateId i) c) counts)
              all_issues [] in
          let all_issues := my_filtered c user state_type updated_after_ts in
          let total_matching := List.length all_issues in
          let (page, has_more) :=
            take_page limit (apply_cursor cursor all_issues) in
          MyResult
            (mkMyIssues (user_name user, user_email user)
               (list_sum (map snd counts_by_state))
               counts_by_state total_matching
               (map (compact c) page)
               (next_cursor_of issue_id has_more page))
      end
  end.

End Tools.

(** [get_issue] *)
Definition get_issue (c : CachedData) (identifier : string)
  : option EnrichedIssue :=
  match get_issue_by_identifier identifier c with
  | Some i => Some (enrich c i)
  | None => None
  end.

(** A user or a team with the entry ["issueCount"] *)
Record UserCount : Type := mkUserCount {
  counted_user : User;
  user_issueCount : nat }.

Record TeamCount : Type := mkTeamCount {
  counted_team : Team;
  team_issueCount : nat }.

(** [sum(1 for i in reader.issues.values() if i.get(field) == x)] *)
Definition count_issues (c : CachedData) (field : Issue -> option string)
    (x : string) : nat :=
  List.length
    (filter (fun i => option_eqb (field i) (Some x)) (py.values (reader.issues c))).

Definition with_user_count (c : CachedData) (u : User) : UserCount :=
  mkUserCount u (count_issues c issue_assigneeId (user_id u)).

Definition list_users (c : CachedData) (limit : Z) : list UserCount :=
  let results :=
    py.append_until (fun _ => true) limit
      (map (with_user_count c) (py.values (reader.users c))) [] in
  py.sorted
    (fun x y =>
       - Z.of_nat (user_issueCount x) <=? - Z.of_nat (user_issueCount y))
    results.

Definition get_user (c : CachedData) (name : string) : option UserCount :=
  match find_user name c with
  | Some user => Some (with_user_count c user)
  | None => None
  end.

Definition with_team_count (c : CachedData) (t : Team) : TeamCount :=
  mkTeamCount t (count_issues c issue_teamId (team_id t)).

(** [list_teams]: the sort by [x.get("key", "")] compares the stored keys;
    with two teams or more, a key that is [None] makes it raise [TypeError],
    which is the result [None] *)
Definition list_teams (c : CachedData) : option (list TeamCount) :=
  let results := map (with_team_count c) (py.values (reader.teams c)) in
  if (2 <=? List.length results)%nat
     && existsb
          (fun r =>
             match team_key (counted_team r) with
             | None => true
             | Some _ => false
             end)
          results
  then None
  else
    Some
      (py.sorted
         (fun x y =>
            String.leb (_to_str (team_key (counted_team x)))
              (_to_str (team_key (counted_team y))))
         results).

(** [states_by_type[k].append(st)], the list created when [k] is new *)
Fixpoint group_append (k : option string) (st : State)
    (groups : list (option string * list State))
  : list (option string * list State) :=
  match groups with
  | [] => [(k, [st])]
  | (k', l) :: groups' =>
      if option_eqb k' k then (k', (l ++ [st])%list) :: groups'
      else (k', l) :: group_append k st groups'
  end.

(** [states_by_type[k]] for a key that may be missing *)
Definition group_get (k : option string)
    (groups : list (option string * list State)) : list State :=
  match find (fun kv => option_eqb (fst kv) k) groups with
  | Some kv => snd kv
  | None => []
  end.

Definition type_order : list string :=
  ["backlog"; "unstarted"; "started"; "completed"; "canceled"].

(** [list_states]: the argument [team] is not read *)
Definition list_states (c : CachedData) (team : option string) : list State :=
  let states_by_type :=
    fold_left (fun groups st => group_append (state_type st) st groups)
      (py.values (reader.states c)) [] in
  flat_map (fun t => group_get (Some t) states_by_type) type_order.

End server.

(** ** Definitions used to state the properties *)

Module spec.

Import reader.

(** The key of the canonical order in the words of the specification: the
    priority, 4 when it is missing, then the id *)
Definition claimed_sort_key (x : Issue) : Z * string :=
  (match issue_priority x with Some n => n | None => 4 end, issue_id x).

(** [\d+$] *)
Definition digits (s : string) : bool :=
  negb (String.eqb s "") && py.all_chars py.is_ascii_digit s.

(** [[A-Z0-9]*-\d+$] *)
Fixpoint key_tail_then_number (s : string) : bool :=
  match s with
  | EmptyString => false
  | String c s' =>
      if Ascii.eqb c "-" then digits s'
      else (py.is_ascii_upper c || py.is_ascii_digit c)
           && key_tail_then_number s'
  end.

(** The pattern [^[A-Z???][A-Z0-9]*-\d+$]: the class [[A-Z???]] is a capital
    letter or a question mark *)
Definition identifier_pattern (s : string) : bool :=
  match s with
  | EmptyString => false
  | String c s' =>
      (py.is_ascii_upper c || Ascii.eqb c "?") && key_tail_then_number s'
  end.

(** A team key of the shape [[A-Z?][A-Z0-9]*] *)
Definition key_shape (k : string) : bool :=
  match k with
  | EmptyString => false
  | String c k' =>
      (py.is_ascii_upper c || Ascii.eqb c "?")
      && py.all_chars (fun a => py.is_ascii_upper a || py.is_ascii_digit a) k'
  end.

(** A dictionary of issues in which every issue is stored under its id *)
Definition issues_keyed (d : list (string * Issue)) : Prop :=
  NoDup (map fst d) /\ Forall (fun kv => issue_id (snd kv) = fst kv) d.

(** What is left of a list of issues after the one with the id [cursor],
    nothing when no issue has that id *)
Fixpoint drop_through (cursor : string) (l : list Issue) : list Issue :=
  match l with
  | [] => []
  | i :: l' =>
      if String.eqb (issue_id i) cursor then l' else drop_through cursor l'
  end.

(** A client that follows the cursors: it calls [call] without a cursor, then
    with each [nextCursor] it receives, until a response has none, and
    concatenates the pages.  [None]: [fuel] calls did not reach the end. *)
Fixpoint fetch_all (call : option string -> server.Page) (fuel : nat)
    (cursor : option string) : option (list server.EnrichedIssue) :=
  match fuel with
  | O => None
  | S fuel' =>
      let page := call cursor in
      match server.nextCursor page with
      | None => Some (server.issues page)
      | Some next =>
          match fetch_all call fuel' (Some next) with
          | Some more => Some (server.issues page ++ more)%list
          | None => None
          end
      end
  end.

(** A node tree as the extraction expects it: a text node carries a
    string, the [attrs] of a mention are an object whose [label] is a string
    or is false for Python ([None], absent), and the [content] of any other
    node is a list of such trees, a string or an object *)
Fixpoint prose (node : pyval) : bool :=
  match node with
  | VDict d =>
      let node_type := pyv.get d "type" (VStr "") in
      if pyv.eq_str node_type "text"
      then match pyv.get d "text" (VStr "") with
           | VStr _ => true
           | _ => false
           end
      else if pyv.eq_str node_type "suggestion_userMentions"
      then match pyv.get d "attrs" (VDict []) with
           | VDict attrs =>
               match pyv.get attrs "label" (VStr "") with
               | VStr _ => true
               | label => negb (pyv.truthy label)
               end
           | _ => false
           end
      else if pyv.eq_str node_type "hardBreak" then true
      else
        pyv.on_get "content"
          (fun content =>
             match content with
             | VList l => forallb prose l
             | VStr _ => true
             | VDict _ => true
             | _ => false
             end)
          true d
  | VList l => forallb prose l
  | _ => true
  end.

(** What the extraction of a tree takes of the recursion limit where the
    tree is deepest: one unit for the call on a node, and for a node that is
    iterated [join_cost] more and what its items take *)
Fixpoint units_needed (join_cost : nat) (node : pyval) : nat :=
  match node with
  | VDict d =>
      let node_type := pyv.get d "type" (VStr "") in
      if pyv.eq_str node_type "text" then 1
      else if pyv.eq_str node_type "suggestion_userMentions" then 1
      else if pyv.eq_str node_type "hardBreak" then 1
      else
        pyv.on_get "content"
          (fun content =>
             match content with
             | VList l =>
                 1 + join_cost + list_max (map (units_needed join_cost) l)
             | VStr s => 1 + join_cost + if String.eqb s "" then 0 else 1
             | VDict keys =>
                 1 + join_cost + match keys with [] => 0 | _ => 1 end
             | _ => 1
             end)
          (1 + join_cost) d
  | VList l => 1 + join_cost + list_max (map (units_needed join_cost) l)
  | _ => 1
  end%nat.

(** A tree that is well formed and that [extract] can walk with [room] left
    of the recursion limit *)
Definition walkable (join_cost room : nat) (node : pyval) : bool :=
  prose node && (units_needed join_cost node <=? room)%nat.

(** The body handed to [_extract_comment_text] is [None], a string that
    [json.loads] rejects as JSON, or such a tree, given as it is or as the
    JSON text that [json.loads] decodes to it *)
Definition prose_body (json_loads : string -> Loaded) (join_cost room : nat)
    (body_data : pyval) : bool :=
  match body_data with
  | VNone => true
  | VStr s =>
      match json_loads s with
      | Decoded tree => walkable join_cost room tree
      | JSONDecodeError => true
      | OtherError => false
      end
  | _ => walkable join_cost room body_data
  end.

(** [n + 1] lists, one inside the other: [[]], [[[]]], ... *)
Fixpoint nested (n : nat) : pyval :=
  match n with
  | O => VList []
  | S n' => VList [nested n']
  end.

(** The roles a store can be given, in the order in which
    [detect_stores] tests for them *)
Inductive role : Type :=
| IssueRole
| TeamRole
| UserRole
| WorkflowStateRole
| CommentRole
| ProjectRole.

Definition priority_order : list role :=
  [IssueRole; TeamRole; UserRole; WorkflowStateRole; CommentRole;
   ProjectRole].

(** The predicate of a role on a sampled record *)
Definition looks_like (k : role) (val : store_detector.record) : bool :=
  match k with
  | IssueRole => store_detector._is_issue_record val
  | TeamRole => store_detector._is_team_record val
  | UserRole => store_detector._is_user_record val
  | WorkflowStateRole =>
      match store_detector._is_workflow_state_record val with
      | Some b => b
      | None => false
      end
  | CommentRole => store_detector._is_comment_record val
  | ProjectRole => store_detector._is_project_record val
  end.

(** Whether a role still takes the store: a role with one store is not yet
    given, a role with several stores does not list the name yet *)
Definition accepts (k : role) (result : store_detector.DetectedStores)
    (store_name : string) : bool :=
  match k with
  | IssueRole => store_detector.is_none (store_detector.issues result)
  | TeamRole => store_detector.is_none (store_detector.teams result)
  | UserRole =>
      negb (store_detector.mem store_name
              (store_detector.or_empty (store_detector.users result)))
  | WorkflowStateRole =>
      negb (store_detector.mem store_name
              (store_detector.or_empty
                 (store_detector.workflow_states result)))
  | CommentRole => store_detector.is_none (store_detector.comments result)
  | ProjectRole => store_detector.is_none (store_detector.projects result)
  end.

(** The result once the store has the role *)
Definition assign (k : role) (store_name : string)
    (result : store_detector.DetectedStores)
  : store_detector.DetectedStores :=
  let '(store_detector.mkDetectedStores i t u w c p) := result in
  match k with
  | IssueRole => store_detector.mkDetectedStores (Some store_name) t u w c p
  | TeamRole => store_detector.mkDetectedStores i (Some store_name) u w c p
  | UserRole =>
      store_detector.mkDetectedStores i t
        (Some (store_detector.or_empty u ++ [store_name])%list) w c p
  | WorkflowStateRole =>
      store_detector.mkDetectedStores i t u
        (Some (store_detector.or_empty w ++ [store_name])%list) c p
  | CommentRole => store_detector.mkDetectedStores i t u w (Some store_name) p
  | ProjectRole => store_detector.mkDetectedStores i t u w c (Some store_name)
  end.

(** The first role, in the order of the tests, whose predicate holds of the
    record and which still takes the store *)
Definition first_match (result : store_detector.DetectedStores)
    (store_name : string) (val : store_detector.record) : option role :=
  find (fun k => looks_like k val && accepts k result store_name)
    priority_order.




(** A filter set with one filter replaced *)
Definition with_priority (p : option Z) (f : server.Filters)
  : server.Filters :=
  server.mkFilters (server.assignee f) (server.team f)
    (server.f_state_type f) p (server.updated_after f).

Definition with_state_type (st : option string) (f : server.Filters)
  : server.Filters :=
  server.mkFilters (server.assignee f) (server.team f) st
    (server.f_priority f) (server.updated_after f).

Definition with_team (t : option string) (f : server.Filters)
  : server.Filters :=
  server.mkFilters (server.assignee f) t (server.f_state_type f)
    (server.f_priority f) (server.updated_after f).

Definition with_assignee (a : option string) (f : server.Filters)
  : server.Filters :=
  server.mkFilters a (server.team f) (server.f_state_type f)
    (server.f_priority f) (server.updated_after f).

(** A client that follows the cursors of any paginated tool: [call] gives
    the items of a page and its next cursor *)
Fixpoint fetch_pages {A : Type} (call : option string -> list A * option string)
    (fuel : nat) (cursor : option string) : option (list A) :=
  match fuel with
  | O => None
  | S fuel' =>
      match call cursor with
      | (items, None) => Some items
      | (items, Some next) =>
          match fetch_pages call fuel' (Some next) with
          | Some more => Some (items ++ more)%list
          | None => None
          end
      end
  end.

(** The page of [search_issues] and of [get_my_issues] as the client sees
    it; an error object of [get_my_issues] has no issues and no cursor *)
Definition search_page (c : CachedData) (query : string) (limit : Z)
    (cursor : option string) : list server.EnrichedIssue * option string :=
  let p := server.search_issues c query limit cursor in
  (server.issues p, server.nextCursor p).

Definition my_page (r : server.MyIssuesResponse)
  : list server.CompactIssue * option string :=
  match r with
  | server.MyResult m => (server.my_issues m, server.my_nextCursor m)
  | server.MyError _ => ([], None)
  end.

(** The store [n] has the role [k] in a detection result *)
Definition has_role (k : role) (r : store_detector.DetectedStores)
    (n : string) : Prop :=
  match k with
  | IssueRole => store_detector.issues r = Some n
  | TeamRole => store_detector.teams r = Some n
  | UserRole => In n (store_detector.or_empty (store_detector.users r))
  | WorkflowStateRole =>
      In n (store_detector.or_empty (store_detector.workflow_states r))
  | CommentRole => store_detector.comments r = Some n
  | ProjectRole => store_detector.projects r = Some n
  end.

(** The number of issues of a user whose state has the type [k] *)
Definition state_type_count (c : CachedData) (uid : string)
    (k : option string) : nat :=
  List.length
    (filter
       (fun i => server.option_eqb (get_state_type (issue_stateId i) c) k)
       (get_issues_for_user uid c)).

(** The count stored for the key [k] in [counts_by_state], 0 without one *)
Definition count_of (k : option string) (counts : list (option string * nat))
  : nat :=
  match find (fun kv => server.option_eqb (fst kv) k) counts with
  | Some kv => snd kv
  | None => 0%nat
  end.

(** The stores a role can name after [db] was read *)
Definition read_as (db : store_detector.database) (k : role)
    (n : string) : Prop :=
  exists val,
    In (Some n, store_detector.FirstRecord (VDict val)) db
    /\ store_detector.skipped (Some n) = false
    /\ looks_like k val = true.

(** The invariant of the two lists of store names *)
Definition names_listed_once (r : store_detector.DetectedStores) : Prop :=
  (exists us, store_detector.users r = Some us /\ NoDup us)
  /\ (exists ws, store_detector.workflow_states r = Some ws /\ NoDup ws).

(** The two dictionaries of comments agree: every id listed for an issue is
    the id of a stored comment, and every stored comment is stored under its
    id and listed for its issue *)
Definition comments_indexed (cs : list (string * Comment))
    (by_issue : list (string * list string)) : Prop :=
  (forall iid ids cid,
      py.dict_get iid by_issue = Some ids -> In cid ids ->
      py.dict_has cid cs = true)
  /\ (forall k cm,
         py.dict_get k cs = Some cm ->
         comment_id cm = k
         /\ exists ids,
              py.dict_get (comment_issueId cm) by_issue = Some ids
              /\ In k ids).

(** A comment record that the loader does not skip and whose body makes the
    extraction raise *)
Definition comment_raises (json_loads : string -> Loaded)
    (py_repr : nat -> pyval -> option string) (join_cost room : nat)
    (val : RawComment) : Prop :=
  missing (rawc_id val) = false
  /\ missing (rawc_issueId val) = false
  /\ _extract_comment_text json_loads py_repr join_cost room (rawc_bodyData val)
     = None.

Section FullList.

Variable fromisoformat : string -> option Q.

(** The full canonically sorted, filtered list of a filter set: the list
    [filtered] of [list_issues], nothing when a filter does not resolve *)
Definition filtered_list (c : CachedData) (f : server.Filters)
  : list Issue :=
  match server.resolve fromisoformat c f with
  | server.Ready a t ts => server.filtered_issues fromisoformat c f a t ts
  | _ => []
  end.

End FullList.

End spec.

(** ** Sample data for the examples *)

Module samples.

Import reader.

(** An issue of which only the priority and the id matter *)
Definition issue_of (p : option Z) (i : string) : Issue :=
  mkIssue i ("???-" ++ i) None None p None None None None [] VNone VNone.

(** Stand-ins for the library functions in runs that do not consult them, or
    that give them text they reject: a body that is no JSON document, a
    date that is no ISO-8601 date *)
Definition not_json : string -> Loaded := fun _ => JSONDecodeError.
Definition no_repr : nat -> pyval -> option string := fun _ _ => None.
Definition not_a_date : string -> option Q := fun _ => None.

(** The cost of a join as CPython 3.11 counts it, and the room that a
    recursion limit of 1000 leaves to a call made 40 calls deep *)
Definition join_cost : nat := 2.
Definition room : nat := 960.

Definition raw_issue (i : string) (n : Z) (p : option Z)
    (tm st a : option string) : RawIssue :=
  mkRawIssue i (Some ("Issue " ++ i)) (Some n) p tm st a None [] VNone VNone.

Definition store : StoreRecords :=
  mkStoreRecords
    [mkTeam "t1" (Some "ENG") (Some "Engineering");
     mkTeam "t2" (Some "OPS") (Some "Operations")]
    [[mkUser "u2" (Some "Zachary McDaniel") (Some "zach") None;
      mkUser "u1" (Some "Daniel Kessl") (Some "dan") None]]
    [[mkState "s1" (Some "In Progress") (Some "started") None;
      mkState "s2" (Some "Backlog") (Some "backlog") None]]
    [raw_issue "a1" 1 (Some 2) (Some "t1") (Some "s1") (Some "u1");
     raw_issue "a2" 2 None (Some "t1") (Some "s2") (Some "u1");
     raw_issue "a3" 3 (Some 1) (Some "t2") (Some "s1") (Some "u2");
     raw_issue "a4" 4 (Some 3) (Some "t9") (Some "s1") (Some "u1")]
    [].

Definition cache : CachedData :=
  match _reload_cache not_json no_repr join_cost room store 1000 with
  | Some c => c
  | None => empty_cache 0
  end.

Definition no_filters : server.Filters :=
  server.mkFilters None None None None None.

(** A store in which one issue has the empty string as its id *)
Definition store_with_empty_id : StoreRecords :=
  mkStoreRecords [] [] []
    [raw_issue "" 1 (Some 1) None None None;
     raw_issue "b" 2 (Some 2) None None None]
    [].

Definition cache_with_empty_id : CachedData :=
  match
    _reload_cache not_json no_repr join_cost room store_with_empty_id 1000
  with
  | Some c => c
  | None => empty_cache 0
  end.

(** A store with a team whose key is in lower case, and one with a team
    whose key is made of question marks *)
Definition store_with_odd_keys : StoreRecords :=
  mkStoreRecords
    [mkTeam "t1" (Some "ENG") (Some "Engineering");
     mkTeam "t2" (Some "eng") (Some "Engines");
     mkTeam "t3" (Some "???") (Some "Unsorted")]
    [] []
    [raw_issue "a1" 7 None (Some "t2") None None;
     raw_issue "a2" 8 None (Some "t3") None None]
    [].

Definition cache_with_odd_keys : CachedData :=
  match
    _reload_cache not_json no_repr join_cost room store_with_odd_keys 1000
  with
  | Some c => c
  | None => empty_cache 0
  end.

(** A store in which a team that matches [eng] by its name comes before
    the team whose key is [ENG] *)
Definition store_name_before_key : StoreRecords :=
  mkStoreRecords
    [mkTeam "t1" (Some "OPS") (Some "Engine Operations");
     mkTeam "t2" (Some "ENG") (Some "Core")]
    [] [] [] [].

Definition cache_name_before_key : CachedData :=
  match
    _reload_cache not_json no_repr join_cost room store_name_before_key 1000
  with
  | Some c => c
  | None => empty_cache 0
  end.

(** A paragraph whose text node carries a number, and a paragraph whose
    content is [null] *)
Definition paragraph_with_number : pyval :=
  VDict [("type", VStr "paragraph");
         ("content", VList [VDict [("type", VStr "text"); ("text", VInt 5)]])].

Definition paragraph_with_null_content : pyval :=
  VDict [("type", VStr "paragraph"); ("content", VNone)].

(** A document with nested nodes, a mention, a break and an empty content
    list *)
Definition document : pyval :=
  VDict [("type", VStr "doc");
         ("content",
          VList [VDict [("type", VStr "paragraph");
                        ("content",
                         VList [VDict [("type", VStr "text");
                                       ("text", VStr "ping ")];
                                VDict [("type", VStr "suggestion_userMentions");
                                       ("attrs",
                                        VDict [("label", VStr "dan")])];
                                VDict [("type", VStr "hardBreak")]])];
                 VDict [("type", VStr "paragraph"); ("content", VList [])]])].

(** Two issues in the two orders, for the order of the dictionary *)
Definition two_issues : list Issue :=
  [issue_of (Some 2) "x"; issue_of (Some 1) "y"].

Definition two_issues_swapped : list Issue :=
  [issue_of (Some 1) "y"; issue_of (Some 2) "x"].

(** A user of [store] and the response of [get_my_issues] for him with the
    limit 2 *)
Definition daniel : User :=
  mkUser "u1" (Some "Daniel Kessl") (Some "dan") None.

Definition daniel_issues : server.MyIssues :=
  server.mkMyIssues (Some "Daniel Kessl", None) 3
    [(Some "started", 2%nat); (Some "backlog", 1%nat)] 3
    (map (server.compact cache)
       (firstn 2 (server.my_filtered not_a_date cache daniel None None)))
    (Some "a4").

(** The stores of a database as the detector reads them: a system store,
    an issue store, a team store, two user stores, a store that cannot be
    read and an empty one *)
Definition issue_record : store_detector.record :=
  [("id", VStr "a1"); ("number", VInt 1); ("teamId", VStr "t1");
   ("stateId", VStr "s1"); ("title", VStr "Fix")].

Definition team_record : store_detector.record :=
  [("id", VStr "t1"); ("key", VStr "ENG"); ("name", VStr "Engineering")].

Definition user_record : store_detector.record :=
  [("id", VStr "u1"); ("name", VStr "Daniel Kessl");
   ("displayName", VStr "dan"); ("email", VStr "d@x.io");
   ("avatarUrl", VNone)].

Definition tables : store_detector.database :=
  [(Some "_meta", store_detector.FirstRecord (VDict issue_record));
   (Some "h1", store_detector.FirstRecord (VDict issue_record));
   (Some "h2", store_detector.FirstRecord (VDict team_record));
   (Some "h3", store_detector.FirstRecord (VDict user_record));
   (Some "h4", store_detector.FirstRecord (VDict user_record));
   (Some "h5", store_detector.ReadError);
   (Some "h6", store_detector.NoRecord)].






(** A store with two comments on one issue *)
Definition store_with_comments : StoreRecords :=
  mkStoreRecords [] [] [] []
    [mkRawComment (Some "c1") (Some "a1") (Some "u1") (VStr "first") VNone
       VNone;
     mkRawComment (Some "c2") (Some "a1") None document VNone VNone;
     mkRawComment None (Some "a1") None VNone VNone VNone].

Definition cache_with_comments : CachedData :=
  match
    _reload_cache not_json no_repr join_cost room store_with_comments 1000
  with
  | Some c => c
  | None => empty_cache 0
  end.

(** A store in which the body of the second comment is a paragraph whose
    text node carries a number *)
Definition store_with_bad_comment : StoreRecords :=
  mkStoreRecords [] [] [] []
    [mkRawComment (Some "c1") (Some "a1") (Some "u1") (VStr "first") VNone
       VNone;
     mkRawComment (Some "c2") (Some "a1") None paragraph_with_number VNone
       VNone].

End samples.

(** ** Properties of the built-ins *)

Section Sorting.

Context {A : Type} (le : A -> A -> bool).

Lemma insert_by_perm (x : A) (l : list A) :
  Permutation (x :: l) (py.insert_by le x l).
Proof.
  induction l as [|y l IH]; simpl.
  - apply Permutation_refl.
  - destruct (le x y).
    + apply Permutation_refl.
    + eapply perm_trans; [apply perm_swap|].
      now apply perm_skip.
Qed.

Lemma sorted_perm (l : list A) : Permutation l (py.sorted le l).
Proof.
  induction l as [|x l IH]; simpl.
  - constructor.
  - eapply perm_trans; [apply perm_skip, IH|].
    apply insert_by_perm.
Qed.

Hypothesis le_total : forall x y, le x y = false -> le y x = true.
Hypothesis le_trans : forall x y z,
    le x y = true -> le y z = true -> le x z = true.

Lemma insert_by_sorted (x : A) (l : list A) :
  StronglySorted (fun a b => le a b = true) l ->
  StronglySorted (fun a b => le a b = true) (py.insert_by le x l).
Proof.
  induction 1 as [|y l Hs IH Hall]; simpl.
  - repeat constructor.
  - destruct (le x y) eqn:E.
    + constructor.
      * now constructor.
      * constructor; [exact E|].
        eapply Forall_impl; [|exact Hall].
        intros z Hz. now apply le_trans with y.
    + constructor; [exact IH|].
      apply (Permutation_Forall (insert_by_perm x l)).
      constructor; [now apply le_total | exact Hall].
Qed.

Lemma sorted_sorted (l : list A) :
  StronglySorted (fun a b => le a b = true) (py.sorted le l).
Proof.
  induction l as [|x l IH]; simpl.
  - constructor.
  - now apply insert_by_sorted.
Qed.

End Sorting.

Lemma ascii_compare_refl (a : ascii) : Ascii.compare a a = Eq.
Proof. unfold Ascii.compare. apply N.compare_refl. Qed.

Lemma ascii_compare_eq (a b : ascii) : Ascii.compare a b = Eq -> a = b.
Proof.
  unfold Ascii.compare. intros H. apply N.compare_eq in H.
  rewrite <- (ascii_N_embedding a), <- (ascii_N_embedding b). now rewrite H.
Qed.

Lemma string_leb_trans (s1 s2 s3 : string) :
  String.leb s1 s2 = true -> String.leb s2 s3 = true -> String.leb s1 s3 = true.
Proof.
  unfold String.leb. revert s2 s3.
  induction s1 as [|a s1 IH]; intros [|b s2] [|c s3]; simpl; try easy.
  unfold Ascii.compare.
  destruct (N.compare_spec (N_of_ascii a) (N_of_ascii b)) as [Hab|Hab|Hab];
    destruct (N.compare_spec (N_of_ascii b) (N_of_ascii c)) as [Hbc|Hbc|Hbc];
    try easy.
  - rewrite Hab, Hbc, N.compare_refl. apply IH.
  - intros _ _. rewrite Hab. now apply N.compare_lt_iff in Hbc as ->.
  - intros _ _. rewrite <- Hbc. now apply N.compare_lt_iff in Hab as ->.
  - intros _ _.
    assert (H : (N_of_ascii a < N_of_ascii c)%N) by lia.
    now apply N.compare_lt_iff in H as ->.
Qed.

Lemma string_leb_refl (s : string) : String.leb s s = true.
Proof. destruct (String.leb_total s s); assumption. Qed.

(** ** The canonical order *)

Lemma key_le_total (a b : Z * string) :
  server.key_le a b = false -> server.key_le b a = true.
Proof.
  unfold server.key_le. intros H.
  apply orb_false_iff in H as [H1 H2].
  apply Z.ltb_ge in H1.
  destruct (Z.eq_dec (fst a) (fst b)) as [E|E].
  - rewrite E, Z.eqb_refl in *. simpl in H2.
    destruct (String.leb_total (snd a) (snd b)) as [L|L]; [congruence|].
    rewrite L. now rewrite orb_true_r.
  - assert (L : fst b < fst a) by lia.
    apply Z.ltb_lt in L. now rewrite L.
Qed.

Lemma key_le_trans (a b c : Z * string) :
  server.key_le a b = true -> server.key_le b c = true ->
  server.key_le a c = true.
Proof.
  unfold server.key_le. intros H1 H2.
  apply orb_true_iff in H1. apply orb_true_iff in H2. apply orb_true_iff.
  rewrite Z.ltb_lt in *. rewrite !andb_true_iff, !Z.eqb_eq in *.
  destruct H1 as [H1|[E1 L1]], H2 as [H2|[E2 L2]]; try (left; lia).
  right. split; [lia|]. eapply string_leb_trans; eassumption.
Qed.

Lemma key_le_refl (a : Z * string) : server.key_le a a = true.
Proof.
  unfold server.key_le. now rewrite Z.eqb_refl, string_leb_refl, orb_true_r.
Qed.

Lemma canonical_perm (l : list reader.Issue) :
  Permutation l (server.canonical l).
Proof. apply sorted_perm. Qed.

Lemma canonical_sorted (l : list reader.Issue) :
  StronglySorted
    (fun x y => server.key_le (server.sort_key x) (server.sort_key y) = true)
    (server.canonical l).
Proof.
  apply (sorted_sorted
           (fun x y => server.key_le (server.sort_key x) (server.sort_key y))).
  - intros x y. apply key_le_total.
  - intros x y z. apply key_le_trans.
Qed.

(** C2, as amended.  [canonical], the sort applied by [list_issues] to all
    issues before it filters them, returns a rearrangement of its input that
    ascends in the key (priority, id): the smaller priority number first, a
    missing priority and the priority 0 both counted as 4, equal priorities in
    the lexicographic order of the ids.  For A (priority 1, id 2), B
    (priority 1, id 1) and C (no priority, id 3) the order is B, A, C. *)
Theorem canonical_order_priority_or_4 :
  (forall l : list reader.Issue,
      Permutation l (server.canonical l)
      /\ StronglySorted
           (fun x y =>
              server.key_le (server.sort_key x) (server.sort_key y) = true)
           (server.canonical l))
  /\ (forall x : reader.Issue,
         server.sort_key x
         = (match reader.issue_priority x with
            | None => 4
            | Some 0 => 4
            | Some n => n
            end, reader.issue_id x))
  /\ (forall a b : Z * string,
         server.key_le a b = true
         <-> fst a < fst b
             \/ (fst a = fst b /\ String.leb (snd a) (snd b) = true))
  /\ server.canonical
       [samples.issue_of (Some 1) "2"; samples.issue_of (Some 1) "1";
        samples.issue_of None "3"]
     = [samples.issue_of (Some 1) "1"; samples.issue_of (Some 1) "2";
        samples.issue_of None "3"].
Proof.
  split; [|split; [|split]].
  - intros l. split; [apply canonical_perm | apply canonical_sorted].
  - intros [i idf t n [[|p|p]|] tm st a pr lb ca ua]; reflexivity.
  - intros a b. unfold server.key_le.
    rewrite orb_true_iff, andb_true_iff, Z.ltb_lt, Z.eqb_eq. tauto.
  - reflexivity.
Qed.

(** C2 as stated fails: with the key of the claim, an issue of priority 0
    comes before one of priority 1, and [canonical] puts it after. *)
Lemma canonical_order_priority_0_last :
  server.canonical [samples.issue_of (Some 0) "a"; samples.issue_of (Some 1) "b"]
  = [samples.issue_of (Some 1) "b"; samples.issue_of (Some 0) "a"]
  /\ ~ StronglySorted
        (fun x y =>
           server.key_le (spec.claimed_sort_key x) (spec.claimed_sort_key y)
           = true)
        (server.canonical
           [samples.issue_of (Some 0) "a"; samples.issue_of (Some 1) "b"]).
Proof.
  split; [reflexivity|].
  intros H. change (server.canonical _)
    with [samples.issue_of (Some 1) "b"; samples.issue_of (Some 0) "a"] in H.
  inversion H as [|x l _ Hall]; subst.
  inversion Hall as [|y l' Hxy _]; subst.
  discriminate Hxy.
Qed.

(** ** Dictionaries *)

Lemma dict_set_keys_in {V : Type} (k : string) (v : V) (d : list (string * V))
    (x : string) :
  In x (map fst (py.dict_set k v d)) -> x = k \/ In x (map fst d).
Proof.
  induction d as [|[k' v'] d IH]; simpl.
  - intros [H|[]]. now left.
  - destruct (String.eqb_spec k' k) as [E|E]; simpl.
    + intros [H|H]; [now left | right; now right].
    + intros [H|H]; [right; now left|].
      destruct (IH H) as [H'|H']; [now left | right; now right].
Qed.

Lemma dict_set_keys_nodup {V : Type} (k : string) (v : V)
    (d : list (string * V)) :
  NoDup (map fst d) -> NoDup (map fst (py.dict_set k v d)).
Proof.
  induction d as [|[k' v'] d IH]; simpl; intros H.
  - repeat constructor. intros [].
  - inversion H as [|? ? Hn Hd]; subst.
    destruct (String.eqb_spec k' k) as [E|E]; simpl.
    + subst. now constructor.
    + constructor; [|now apply IH].
      intros Hin. apply dict_set_keys_in in Hin as [Hin|Hin]; congruence.
Qed.

Lemma dict_set_forall {V : Type} (P : string * V -> Prop) (k : string) (v : V)
    (d : list (string * V)) :
  P (k, v) -> Forall P d -> Forall P (py.dict_set k v d).
Proof.
  intros Hk. induction 1 as [|[k' v'] d Hx Hd IH]; simpl.
  - now repeat constructor.
  - destruct (String.eqb k' k); constructor; assumption.
Qed.

Lemma dict_get_in {V : Type} (k : string) (v : V) (d : list (string * V)) :
  py.dict_get k d = Some v -> In (k, v) d.
Proof.
  induction d as [|[k' v'] d IH]; simpl; [discriminate|].
  destruct (String.eqb_spec k' k) as [E|E].
  - intros [= ->]. subst. now left.
  - intros H. right. now apply IH.
Qed.

Lemma issues_keyed_ids (d : list (string * reader.Issue)) :
  spec.issues_keyed d -> NoDup (map reader.issue_id (py.values d)).
Proof.
  intros [Hn Hf]. unfold py.values. rewrite map_map.
  erewrite map_ext_in; [exact Hn|].
  intros kv Hin. rewrite Forall_forall in Hf. now apply Hf.
Qed.

Lemma load_issues_keyed (tms : list (string * reader.Team))
    (vals : list reader.RawIssue) (d : list (string * reader.Issue)) :
  spec.issues_keyed d -> spec.issues_keyed (fold_left (reader.load_issue tms) vals d).
Proof.
  revert d. induction vals as [|val vals IH]; simpl; intros d H; [exact H|].
  apply IH. destruct H as [Hn Hf]. split.
  - now apply dict_set_keys_nodup.
  - now apply dict_set_forall.
Qed.

Section Reloaded.

Variable json_loads : string -> reader.Loaded.
Variable py_repr : nat -> pyval -> option string.
Variables join_cost room : nat.

(** What a successful [_reload_cache] stores *)
Lemma reload_cache_fields (db : reader.StoreRecords) (now : Q)
    (c : reader.CachedData) :
  reader._reload_cache json_loads py_repr join_cost room db now = Some c ->
  reader.teams c = fold_left reader.load_team (reader.team_records db) []
  /\ reader.issues c
     = fold_left (reader.load_issue (reader.teams c))
         (reader.issue_records db) []
  /\ reader.loaded_at c = now.
Proof.
  unfold reader._reload_cache.
  destruct (reader.load_comments _ _ _ _) as [[cs by_issue]|]; [|discriminate].
  intros [= <-]. simpl. auto.
Qed.

Lemma reload_cache_issue_ids (db : reader.StoreRecords) (now : Q)
    (c : reader.CachedData) :
  reader._reload_cache json_loads py_repr join_cost room db now = Some c ->
  NoDup (map reader.issue_id (py.values (reader.issues c))).
Proof.
  intros H. apply reload_cache_fields in H as (_ & -> & _).
  apply issues_keyed_ids, load_issues_keyed.
  split; constructor.
Qed.

End Reloaded.

(** ** The cursor and the page *)

Lemma cursor_fold_passed (cur : string) (l acc : list reader.Issue) :
  fold_left (server.cursor_step cur) l (false, acc) = (false, (acc ++ l)%list).
Proof.
  revert acc. induction l as [|i l IH]; intros acc; simpl.
  - now rewrite app_nil_r.
  - unfold server.cursor_step at 2. simpl. rewrite IH.
    now rewrite <- app_assoc.
Qed.

Lemma cursor_fold_skipping (cur : string) (l acc : list reader.Issue) :
  snd (fold_left (server.cursor_step cur) l (true, acc))
  = (acc ++ spec.drop_through cur l)%list.
Proof.
  induction l as [|i l IH]; simpl.
  - now rewrite app_nil_r.
  - unfold server.cursor_step at 2. simpl.
    destruct (String.eqb (reader.issue_id i) cur).
    + now rewrite cursor_fold_passed.
    + exact IH.
Qed.

Lemma apply_cursor_given (cur : string) (l : list reader.Issue) :
  cur <> "" -> server.apply_cursor (Some cur) l = spec.drop_through cur l.
Proof.
  intros H. unfold server.apply_cursor, server.given.
  destruct (String.eqb_spec cur "") as [E|E]; [contradiction|]. simpl.
  apply cursor_fold_skipping.
Qed.

Lemma drop_through_absent (cur : string) (l : list reader.Issue) :
  ~ In cur (map reader.issue_id l) -> spec.drop_through cur l = [].
Proof.
  induction l as [|i l IH]; simpl; [reflexivity|]. intros H.
  destruct (String.eqb_spec (reader.issue_id i) cur) as [E|E].
  - exfalso. apply H. now left.
  - apply IH. intros Hin. apply H. now right.
Qed.

Lemma drop_through_unique (x : reader.Issue) (l1 l2 : list reader.Issue) :
  NoDup (map reader.issue_id (l1 ++ x :: l2)) ->
  spec.drop_through (reader.issue_id x) (l1 ++ x :: l2) = l2.
Proof.
  induction l1 as [|i l1 IH]; simpl; intros H.
  - now rewrite String.eqb_refl.
  - inversion H as [|? ? Hn Hd]; subst.
    destruct (String.eqb_spec (reader.issue_id i) (reader.issue_id x)) as [E|E].
    + exfalso. apply Hn. rewrite E, map_app. apply in_or_app. right. now left.
    + now apply IH.
Qed.

Lemma take_page_nonneg {A : Type} (limit : Z) (l : list A) :
  0 <= limit ->
  server.take_page limit l
  = (firstn (Z.to_nat limit) l, (Z.to_nat limit <? List.length l)%nat).
Proof.
  intros H. unfold server.take_page, py.slice_to.
  destruct (Z.leb_spec 0 (limit + 1)); [|lia].
  destruct (Z.leb_spec 0 limit); [|lia].
  rewrite firstn_firstn, length_firstn.
  replace (Init.Nat.min (Z.to_nat limit) (Z.to_nat (limit + 1)))
    with (Z.to_nat limit) by lia.
  f_equal. rewrite Z.gtb_ltb.
  destruct (Nat.ltb_spec (Z.to_nat limit) (List.length l));
    [apply Z.ltb_lt | apply Z.ltb_ge]; lia.
Qed.

Lemma take_page_nil {A : Type} (limit : Z) :
  fst (server.take_page limit (@nil A)) = [].
Proof.
  unfold server.take_page, py.slice_to. simpl.
  destruct (0 <=? limit + 1), (0 <=? limit); simpl; now rewrite ?firstn_nil.
Qed.

Lemma next_cursor_of_nil {A : Type} (get_id : A -> string) (has_more : bool) :
  server.next_cursor_of get_id has_more [] = None.
Proof. now destruct has_more. Qed.

Lemma next_cursor_of_last {A : Type} (get_id : A -> string)
    (xs : list A) (x : A) :
  server.next_cursor_of get_id true (xs ++ [x]) = Some (get_id x).
Proof. unfold server.next_cursor_of. now rewrite rev_app_distr. Qed.

(** ** Pages *)

Section Pages.

Variable fromisoformat : string -> option Q.
Variable c : reader.CachedData.

Lemma list_issues_ready (f : server.Filters) (limit : Z)
    (cursor : option string) (a t : option string) (ts : option Q) :
  server.resolve fromisoformat c f = server.Ready a t ts ->
  server.list_issues fromisoformat c f limit cursor
  = let filtered := server.filtered_issues fromisoformat c f a t ts in
    let ph :=
      server.take_page (Z.min limit 100)
        (server.apply_cursor cursor filtered) in
    server.mkPage None (map (server.enrich c) (fst ph))
      (server.next_cursor_of
         (fun e => reader.issue_id (server.issue e)) (snd ph)
         (map (server.enrich c) (fst ph)))
      (List.length filtered).
Proof.
  intros H. unfold server.list_issues. rewrite H.
  now destruct (server.take_page _ _).
Qed.

Lemma page_after_unknown_cursor (limit : Z) (cursor : string)
    (l : list reader.Issue) :
  cursor <> "" -> ~ In cursor (map reader.issue_id l) ->
  fst (server.take_page limit (server.apply_cursor (Some cursor) l)) = [].
Proof.
  intros Hc Hn. rewrite apply_cursor_given, drop_through_absent by assumption.
  apply take_page_nil.
Qed.

End Pages.

(** C10.  A call of [list_issues], [search_issues] or [get_my_issues] with a
    cursor that is not empty and is the id of no issue of the filtered list
    returns no issue and no next cursor, and still reports the length of the
    whole filtered list, whatever the limit and however many issues match. *)
Theorem unknown_cursor_gives_empty_page
    (fromisoformat : string -> option Q) (c : reader.CachedData)
    (cursor : string) (limit : Z) :
  cursor <> "" ->
  (forall f a t ts,
      server.resolve fromisoformat c f = server.Ready a t ts ->
      ~ In cursor
          (map reader.issue_id (server.filtered_issues fromisoformat c f a t ts)) ->
      server.list_issues fromisoformat c f limit (Some cursor)
      = server.mkPage None [] None
          (List.length (server.filtered_issues fromisoformat c f a t ts)))
  /\ (forall query,
         ~ In cursor (map reader.issue_id (server.search_filtered c query)) ->
         server.search_issues c query limit (Some cursor)
         = server.mkPage None [] None
             (List.length (server.search_filtered c query)))
  /\ (forall name state_type updated_after user ts,
         server.parse_updated_after fromisoformat updated_after = inr ts ->
         reader.find_user name c = Some user ->
         ~ In cursor
             (map reader.issue_id
                (server.my_filtered fromisoformat c user state_type ts)) ->
         exists r,
           server.get_my_issues fromisoformat c name state_type updated_after
             limit (Some cursor) = server.MyResult r
           /\ server.my_issues r = []
           /\ server.my_nextCursor r = None
           /\ server.matchingCount r
              = List.length
                  (server.my_filtered fromisoformat c user state_type ts)).
Proof.
  intros Hc. split; [|split].
  - intros f a t ts Hr Hn. rewrite (list_issues_ready _ _ _ _ _ _ _ _ Hr).
    cbv zeta. rewrite page_after_unknown_cursor by assumption. simpl.
    now rewrite next_cursor_of_nil.
  - intros query Hn. unfold server.search_issues.
    pose proof (page_after_unknown_cursor (Z.min limit 100) cursor _ Hc Hn) as Hp.
    destruct (server.take_page _ _) as [page has_more]. simpl in Hp. subst page.
    simpl. now rewrite next_cursor_of_nil.
  - intros name state_type updated_after user ts Hd Hu Hn.
    unfold server.get_my_issues. rewrite Hd, Hu.
    pose proof (page_after_unknown_cursor (Z.min limit 100) cursor _ Hc Hn) as Hp.
    destruct (server.take_page _ _) as [page has_more]. simpl in Hp. subst page.
    eexists. split; [reflexivity|]. simpl.
    now rewrite next_cursor_of_nil.
Qed.

Lemma unknown_cursor_gives_empty_page_witness :
  server.list_issues samples.not_a_date samples.cache samples.no_filters 2
    (Some "zz")
  = server.mkPage None [] None 4.
Proof.
  destruct (unknown_cursor_gives_empty_page samples.not_a_date samples.cache
              "zz" 2) as [H _].
  - discriminate.
  - apply (H samples.no_filters None None None).
    + reflexivity.
    + vm_compute. intros H'. repeat destruct H' as [H'|H']; try discriminate.
      exact H'.
Defined.

Lemma nodup_map_filter {A B : Type} (g : A -> B) (p : A -> bool) (l : list A) :
  NoDup (map g l) -> NoDup (map g (filter p l)).
Proof.
  induction l as [|x l IH]; simpl; intros H; [constructor|].
  inversion H as [|? ? Hn Hd]; subst.
  destruct (p x); simpl; [|now apply IH].
  constructor; [|now apply IH].
  intros Hin. apply Hn. apply in_map_iff in Hin as (y & Hy & Hin).
  apply filter_In in Hin as [Hin _]. apply in_map_iff. now exists y.
Qed.

Lemma canonical_ids_nodup (l : list reader.Issue) :
  NoDup (map reader.issue_id l) ->
  NoDup (map reader.issue_id (server.canonical l)).
Proof.
  apply Permutation_NoDup, Permutation_map, canonical_perm.
Qed.

Lemma apply_cursor_nil (cursor : option string) :
  server.apply_cursor cursor [] = [].
Proof.
  unfold server.apply_cursor. destruct (server.given cursor); [|reflexivity].
  now destruct cursor.
Qed.

Section Chain.

Variable fromisoformat : string -> option Q.
Variable c : reader.CachedData.
Variable f : server.Filters.
Variable limit : Z.
Hypothesis limit_pos : 1 <= limit.

Variable full : list reader.Issue.
Hypothesis full_ids : NoDup (map reader.issue_id full).
Hypothesis full_named : Forall (fun i => reader.issue_id i <> "") full.

Variables (a t : option string) (ts : option Q).
Hypothesis ready : server.resolve fromisoformat c f = server.Ready a t ts.
Hypothesis full_eq : full = server.filtered_issues fromisoformat c f a t ts.

Let n : nat := Z.to_nat (Z.min limit 100).

Lemma list_issues_page (cursor : option string) :
  server.list_issues fromisoformat c f limit cursor
  = let rest := server.apply_cursor cursor full in
    server.mkPage None (map (server.enrich c) (firstn n rest))
      (server.next_cursor_of (fun e => reader.issue_id (server.issue e))
         (n <? List.length rest)%nat
         (map (server.enrich c) (firstn n rest)))
      (List.length full).
Proof.
  rewrite (list_issues_ready _ _ _ _ _ _ _ _ ready). cbv zeta.
  rewrite <- full_eq, take_page_nonneg by lia. reflexivity.
Qed.

Lemma fetch_all_rest (fuel : nat) :
  forall (before rest : list reader.Issue) (cursor : option string),
    full = (before ++ rest)%list ->
    server.apply_cursor cursor full = rest ->
    (List.length rest < fuel)%nat ->
    spec.fetch_all (server.list_issues fromisoformat c f limit) fuel cursor
    = Some (map (server.enrich c) rest).
Proof.
  induction fuel as [|fuel IH]; intros before rest cursor Hfull Hcur Hlen;
    [lia|].
  simpl. rewrite list_issues_page. cbv zeta. rewrite Hcur. simpl.
  destruct (Nat.ltb_spec n (List.length rest)) as [Hmore|Hlast].
  - assert (Hn : (1 <= n)%nat) by (unfold n; lia).
    destruct (exists_last (l := firstn n rest)) as (pre & x & Hpage).
    { intros E. apply (f_equal (@List.length _)) in E.
      rewrite length_firstn in E. simpl in E. lia. }
    assert (Hsplit : full = ((before ++ pre) ++ x :: skipn n rest)%list).
    { rewrite Hfull, <- (firstn_skipn n rest) at 1.
      rewrite Hpage, <- !app_assoc. reflexivity. }
    assert (Hx : reader.issue_id x <> "").
    { rewrite Forall_forall in full_named. apply full_named.
      rewrite Hsplit. apply in_or_app. right. now left. }
    rewrite Hpage, map_app. simpl map at 2.
    rewrite next_cursor_of_last. simpl.
    rewrite (IH (before ++ firstn n rest)%list (skipn n rest)).
    + change [server.enrich c x] with (map (server.enrich c) [x]).
      rewrite <- !map_app, <- Hpage, firstn_skipn. reflexivity.
    + rewrite Hfull, <- app_assoc, firstn_skipn. reflexivity.
    + rewrite apply_cursor_given by exact Hx.
      rewrite Hsplit at 1. apply drop_through_unique.
      rewrite <- Hsplit. exact full_ids.
    + rewrite length_skipn. lia.
  - rewrite firstn_all2 by lia. reflexivity.
Qed.

End Chain.

(** C1, as amended.  On a cache that [_reload_cache] built and in which no
    issue has the empty string as its id, for any filter set and any limit of
    at least 1: a client that calls [list_issues] without a cursor and then
    with each [nextCursor] it receives reaches a response without one, and the
    pages it received, concatenated, are the full canonically sorted, filtered
    list, every issue once.  Each page is the first [min limit 100] issues of
    what is left of that list after the issue with the id of the cursor (of the
    whole list without a cursor), and it has a next cursor exactly when more
    than that many issues are left. *)
Theorem list_issues_pages_reproduce_filtered_list
    (json_loads : string -> reader.Loaded)
    (py_repr : nat -> pyval -> option string)
    (join_cost room : nat)
    (db : reader.StoreRecords) (now : Q) (c : reader.CachedData)
    (fromisoformat : string -> option Q) (f : server.Filters) (limit : Z) :
  reader._reload_cache json_loads py_repr join_cost room db now = Some c ->
  (forall i, In i (py.values (reader.issues c)) -> reader.issue_id i <> "") ->
  1 <= limit ->
  let full := spec.filtered_list fromisoformat c f in
  let n := Z.to_nat (Z.min limit 100) in
  (forall fuel, (List.length full < fuel)%nat ->
     spec.fetch_all (server.list_issues fromisoformat c f limit) fuel None
     = Some (map (server.enrich c) full))
  /\ NoDup (map reader.issue_id full)
  /\ (forall cursor,
         let rest := server.apply_cursor cursor full in
         server.issues (server.list_issues fromisoformat c f limit cursor)
         = map (server.enrich c) (firstn n rest)
         /\ (server.nextCursor (server.list_issues fromisoformat c f limit cursor)
             <> None <-> (n < List.length rest)%nat))
  /\ server.apply_cursor None full = full
  /\ (forall cur, cur <> "" ->
         server.apply_cursor (Some cur) full = spec.drop_through cur full).
Proof.
  intros Hload Hnamed Hlimit full n.
  assert (Hids : NoDup (map reader.issue_id full)).
  { unfold full, spec.filtered_list.
    destruct (server.resolve fromisoformat c f); try constructor.
    apply nodup_map_filter, canonical_ids_nodup.
    exact (reload_cache_issue_ids _ _ _ _ _ _ _ Hload). }
  assert (Hfull : Forall (fun i => reader.issue_id i <> "") full).
  { apply Forall_forall. intros i Hin. apply Hnamed.
    unfold full, spec.filtered_list in Hin.
    destruct (server.resolve fromisoformat c f); try contradiction.
    apply filter_In in Hin as [Hin _].
    apply (Permutation_in _ (Permutation_sym (canonical_perm _)) Hin). }
  split; [|split; [exact Hids|split; [|split]]].
  - intros fuel Hfuel. revert Hids Hfull Hfuel.
    unfold full, spec.filtered_list.
    destruct (server.resolve fromisoformat c f) as [msg| |a t ts] eqn:Hr;
      intros Hids Hfull Hfuel.
    + destruct fuel; [simpl in Hfuel; lia|].
      simpl. unfold server.list_issues. now rewrite Hr.
    + destruct fuel; [simpl in Hfuel; lia|].
      simpl. unfold server.list_issues. now rewrite Hr.
    + apply (fetch_all_rest fromisoformat c f limit Hlimit _ Hids Hfull
               a t ts Hr eq_refl fuel []); auto.
  - intros cursor rest. unfold rest, full, spec.filtered_list.
    destruct (server.resolve fromisoformat c f) as [msg| |a t ts] eqn:Hr.
    + unfold server.list_issues. rewrite Hr, apply_cursor_nil, firstn_nil.
      simpl. split; [reflexivity|]. split; [congruence | lia].
    + unfold server.list_issues. rewrite Hr, apply_cursor_nil, firstn_nil.
      simpl. split; [reflexivity|]. split; [congruence | lia].
    + rewrite (list_issues_page fromisoformat c f limit Hlimit _ a t ts Hr
                 eq_refl).
      cbv zeta. simpl. split; [reflexivity|]. fold n.
      destruct (Nat.ltb_spec n
                  (List.length
                     (server.apply_cursor cursor
                        (server.filtered_issues fromisoformat c f a t ts))))
        as [Hmore|Hlast].
      * split; [intros _; exact Hmore|]. intros _.
        destruct (exists_last
                    (l := firstn n
                            (server.apply_cursor cursor
                               (server.filtered_issues fromisoformat c f a t ts))))
          as (pre & x & Hpage).
        { intros E. apply (f_equal (@List.length _)) in E.
          rewrite length_firstn in E. simpl in E. unfold n in *. lia. }
        rewrite Hpage, map_app. simpl map at 2.
        rewrite next_cursor_of_last. discriminate.
      * simpl. split; [congruence | lia].
  - reflexivity.
  - intros cur Hcur. now apply apply_cursor_given.
Qed.

Lemma list_issues_pages_reproduce_filtered_list_witness :
  spec.fetch_all
    (server.list_issues samples.not_a_date samples.cache samples.no_filters 3)
    5%nat None
  = Some
      (map (server.enrich samples.cache)
         (spec.filtered_list samples.not_a_date samples.cache
            samples.no_filters)).
Proof.
  refine (proj1
            (list_issues_pages_reproduce_filtered_list samples.not_json
               samples.no_repr samples.join_cost samples.room samples.store
               1000 samples.cache
               samples.not_a_date samples.no_filters 3 _ _ _) 5%nat _).
  - reflexivity.
  - intros i Hin. vm_compute in Hin.
    repeat destruct Hin as [Hin|Hin]; try contradiction; subst i; discriminate.
  - lia.
  - vm_compute. lia.
Defined.

(** C1 as stated fails on a cache with an issue whose id is the empty string:
    with the limit 1 the first page ends with that issue, its next cursor is
    the empty string, which [list_issues] takes for no cursor, so the client
    is given the first page again, and never reaches the last one. *)
Lemma list_issues_pages_loop_on_empty_id :
  server.list_issues samples.not_a_date samples.cache_with_empty_id
    samples.no_filters 1 (Some "")
  = server.list_issues samples.not_a_date samples.cache_with_empty_id
      samples.no_filters 1 None
  /\ server.nextCursor
       (server.list_issues samples.not_a_date samples.cache_with_empty_id
          samples.no_filters 1 None) = Some ""
  /\ ~ (exists fuel,
          spec.fetch_all
            (server.list_issues samples.not_a_date samples.cache_with_empty_id
               samples.no_filters 1) fuel None
          = Some
              (map (server.enrich samples.cache_with_empty_id)
                 (spec.filtered_list samples.not_a_date
                    samples.cache_with_empty_id samples.no_filters))).
Proof.
  split; [reflexivity|]. split; [reflexivity|].
  assert (Hnext : forall cur, cur = None \/ cur = Some "" ->
            server.nextCursor
              (server.list_issues samples.not_a_date samples.cache_with_empty_id
                 samples.no_filters 1 cur) = Some "").
  { intros cur [->| ->]; reflexivity. }
  assert (Hloop : forall fuel cur, cur = None \/ cur = Some "" ->
            spec.fetch_all
              (server.list_issues samples.not_a_date samples.cache_with_empty_id
                 samples.no_filters 1) fuel cur = None).
  { induction fuel as [|fuel IH]; intros cur Hcur; [reflexivity|].
    cbn [spec.fetch_all]. rewrite (Hnext cur Hcur), (IH (Some "")); auto. }
  intros [fuel H]. rewrite Hloop in H; [discriminate | now left].
Qed.

(** ** Identifiers *)

Lemma string_length_app (s1 s2 : string) :
  String.length (s1 ++ s2) = (String.length s1 + String.length s2)%nat.
Proof. induction s1 as [|a s1 IH]; simpl; [reflexivity | now rewrite IH]. Qed.

Lemma string_app_inv_tail (s1 s2 r : string) : s1 ++ r = s2 ++ r -> s1 = s2.
Proof.
  revert s2. induction s1 as [|a s1 IH]; intros [|b s2] H; simpl in H.
  - reflexivity.
  - apply (f_equal String.length) in H. simpl in H.
    rewrite string_length_app in H. lia.
  - apply (f_equal String.length) in H. simpl in H.
    rewrite string_length_app in H. lia.
  - injection H as -> H. f_equal. now apply IH.
Qed.

Lemma uint_all_digits (d : Decimal.uint) :
  py.all_chars py.is_ascii_digit (NilEmpty.string_of_uint d) = true.
Proof. induction d; simpl; auto. Qed.

Lemma str_of_int_digits (n : Z) : 0 <= n -> spec.digits (py.str_of_int n) = true.
Proof.
  intros H. destruct n as [|p|p]; [reflexivity| |lia].
  unfold py.str_of_int, spec.digits. simpl Z.to_int.
  unfold NilZero.string_of_int, NilZero.string_of_uint.
  destruct (Pos.to_uint p) eqn:E; try reflexivity; simpl; apply uint_all_digits.
Qed.

Lemma key_tail_then_number_app (k ds : string) :
  py.all_chars (fun a => py.is_ascii_upper a || py.is_ascii_digit a) k = true ->
  spec.digits ds = true ->
  spec.key_tail_then_number (k ++ "-" ++ ds) = true.
Proof.
  intros Hk Hd. induction k as [|a k IH]; simpl in *.
  - exact Hd.
  - apply andb_true_iff in Hk as [Ha Hk].
    destruct (Ascii.eqb_spec a "-") as [E|E].
    + subst a. discriminate Ha.
    + rewrite Ha. now apply IH.
Qed.

Lemma identifier_pattern_key_number (k : string) (n : Z) :
  spec.key_shape k = true -> 0 <= n ->
  spec.identifier_pattern (k ++ "-" ++ py.str_of_int n) = true.
Proof.
  intros Hk Hn. destruct k as [|a k]; [discriminate|]. simpl in *.
  apply andb_true_iff in Hk as [Ha Hk]. rewrite Ha. simpl.
  apply key_tail_then_number_app; [exact Hk | now apply str_of_int_digits].
Qed.

Lemma load_issues_identifier (tms : list (string * reader.Team))
    (vals : list reader.RawIssue) (d : list (string * reader.Issue)) :
  let made kv :=
    reader.issue_identifier (snd kv)
    = py.fmt_str
        (reader.team_key_or_unknown
           (reader.lookup_team tms (reader.issue_teamId (snd kv))))
      ++ "-" ++ py.fmt_int (reader.issue_number (snd kv)) in
  Forall made d -> Forall made (fold_left (reader.load_issue tms) vals d).
Proof.
  intros made. revert d.
  induction vals as [|val vals IH]; simpl; intros d H; [exact H|].
  apply IH. now apply dict_set_forall.
Qed.

(** C3, as amended.  In a cache that [_reload_cache] built, the identifier of
    every issue is the key of the team stored under the issue's [teamId],
    a hyphen and the number, both as Python prints them, and it is [???], a
    hyphen and the number when no team is stored under that [teamId]; with a
    team found it has that second form only if the team's own key is [???];
    it matches [^[A-Z???][A-Z0-9]*-\d+$] when the team is found, its key is
    of the shape [[A-Z?][A-Z0-9]*] and the number is an integer that is not
    negative. *)
Theorem loaded_issue_identifier
    (json_loads : string -> reader.Loaded)
    (py_repr : nat -> pyval -> option string)
    (join_cost room : nat)
    (db : reader.StoreRecords) (now : Q) (c : reader.CachedData) :
  reader._reload_cache json_loads py_repr join_cost room db now = Some c ->
  forall i, In i (py.values (reader.issues c)) ->
    let team := reader.lookup_team (reader.teams c) (reader.issue_teamId i) in
    let number := py.fmt_int (reader.issue_number i) in
    (forall t, team = Some t ->
       reader.issue_identifier i
       = py.fmt_str (reader.team_key t) ++ "-" ++ number)
    /\ (team = None -> reader.issue_identifier i = "???" ++ "-" ++ number)
    /\ (forall t, team = Some t ->
          reader.issue_identifier i = "???" ++ "-" ++ number ->
          reader.team_key t = Some "???")
    /\ (forall t k n,
          team = Some t -> reader.team_key t = Some k ->
          spec.key_shape k = true ->
          reader.issue_number i = Some n -> 0 <= n ->
          spec.identifier_pattern (reader.issue_identifier i) = true).
Proof.
  intros Hload i Hin team number.
  assert (Hid : reader.issue_identifier i
                = py.fmt_str (reader.team_key_or_unknown team)
                  ++ "-" ++ number).
  { apply reload_cache_fields in Hload as (_ & Hiss & _).
    pose proof (load_issues_identifier (reader.teams c)
                  (reader.issue_records db) [] (Forall_nil _)) as Hall.
    rewrite <- Hiss in Hall. rewrite Forall_forall in Hall.
    apply in_map_iff in Hin as (kv & <- & Hin). exact (Hall kv Hin). }
  repeat split.
  - intros t Ht. now rewrite Hid, Ht.
  - intros Ht. now rewrite Hid, Ht.
  - intros t Ht H. rewrite Hid, Ht in H. simpl reader.team_key_or_unknown in H.
    apply string_app_inv_tail in H.
    destruct (reader.team_key t) as [k|]; simpl in H; [now subst | discriminate].
  - intros t k n Ht Hk Hshape Hnum Hn. rewrite Hid, Ht. unfold number.
    simpl reader.team_key_or_unknown. rewrite Hk, Hnum. simpl.
    now apply identifier_pattern_key_number.
Qed.

Lemma loaded_issue_identifier_witness :
  spec.identifier_pattern "ENG-1" = true.
Proof.
  refine (proj2 (proj2 (proj2
            (loaded_issue_identifier samples.not_json samples.no_repr
               samples.join_cost samples.room
               samples.store 1000 samples.cache _
               (reader.mkIssue "a1" "ENG-1" (Some "Issue a1") (Some 1) (Some 2)
                  (Some "t1") (Some "s1") (Some "u1") None [] VNone VNone)
               _)))
            (reader.mkTeam "t1" (Some "ENG") (Some "Engineering")) "ENG" 1
            _ _ _ _ _).
  - reflexivity.
  - vm_compute. now left.
  - reflexivity.
  - reflexivity.
  - reflexivity.
  - reflexivity.
  - lia.
Defined.

(** C3 as stated fails on a cache loaded from a store with a team whose key
    is [eng] and a team whose key is [???]: the issue of the first has a team
    and the identifier [eng-7], which the pattern rejects, and the issue of
    the second has a team and an identifier that begins with [???]. *)
Lemma loaded_issue_identifier_odd_keys :
  map (fun i =>
         (reader.lookup_team (reader.teams samples.cache_with_odd_keys)
            (reader.issue_teamId i),
          reader.issue_identifier i,
          spec.identifier_pattern (reader.issue_identifier i)))
    (py.values (reader.issues samples.cache_with_odd_keys))
  = [(Some (reader.mkTeam "t2" (Some "eng") (Some "Engines")), "eng-7", false);
     (Some (reader.mkTeam "t3" (Some "???") (Some "Unsorted")), "???-8", false)].
Proof. reflexivity. Qed.

(** ** Lookups by name *)

Lemma find_first {A : Type} (p : A -> bool) (l : list A) :
  match find p l with
  | Some x =>
      exists l1 l2, l = (l1 ++ x :: l2)%list
                    /\ (forall y, In y l1 -> p y = false) /\ p x = true
  | None => forall y, In y l -> p y = false
  end.
Proof.
  induction l as [|a l IH]; simpl.
  - intros y [].
  - destruct (p a) eqn:E.
    + exists [], l. repeat split; [intros y [] | exact E].
    + destruct (find p l) as [x|].
      * destruct IH as (l1 & l2 & -> & Hl1 & Hx).
        exists (a :: l1), l2. repeat split; [|exact Hx].
        intros y [<-|Hy]; [exact E | now apply Hl1].
      * intros y [<-|Hy]; [exact E | now apply IH].
Qed.

Lemma find_at {A : Type} (p : A -> bool) (l1 l2 : list A) (x : A) :
  (forall y, In y l1 -> p y = false) -> p x = true ->
  find p (l1 ++ x :: l2) = Some x.
Proof.
  intros Hl1 Hx. induction l1 as [|a l1 IH]; simpl.
  - now rewrite Hx.
  - rewrite (Hl1 a) by now left. apply IH. intros y Hy. apply Hl1. now right.
Qed.

(** C4, as amended.  A team matches when its key is the search text in upper
    case, or when its name in lower case contains the search text in lower
    case.  [find_team] returns the first team, in the order of the team
    dictionary, that matches in either way, and nothing when no team matches:
    a team that matches by its name only is returned when it comes before a
    team whose key matches. *)
Theorem find_team_first_match (search : string) (c : reader.CachedData) :
  (forall t,
      reader.team_matches search t = true
      <-> reader.team_key t = Some (py.upper search)
          \/ py.contains (py.lower search)
               (py.lower (reader._to_str (reader.team_name t))) = true)
  /\ (reader.find_team search c = None
      <-> forall t, In t (py.values (reader.teams c)) ->
                    reader.team_matches search t = false)
  /\ (forall t,
         reader.find_team search c = Some t
         <-> exists l1 l2,
               py.values (reader.teams c) = (l1 ++ t :: l2)%list
               /\ (forall t', In t' l1 -> reader.team_matches search t' = false)
               /\ reader.team_matches search t = true).
Proof.
  split; [|split].
  - intros t. unfold reader.team_matches.
    rewrite orb_true_iff. destruct (reader.team_key t) as [k|].
    + rewrite String.eqb_eq. split; intros [H|H]; auto; left; congruence.
    + split; intros [H|H]; auto; discriminate.
  - unfold reader.find_team.
    pose proof (find_first (reader.team_matches search)
                  (py.values (reader.teams c))) as H.
    destruct (find _ _) as [x|].
    + split; [discriminate|]. intros Hn.
      destruct H as (l1 & l2 & E & _ & Hx).
      rewrite Hn in Hx; [discriminate|]. rewrite E. apply in_or_app.
      right. now left.
    + tauto.
  - intros t. unfold reader.find_team. split.
    + intros H.
      pose proof (find_first (reader.team_matches search)
                    (py.values (reader.teams c))) as Hf.
      rewrite H in Hf. exact Hf.
    + intros (l1 & l2 & -> & Hl1 & Ht). now apply find_at.
Qed.

(** C4 as stated fails: for the search [eng], the team with the key [OPS] and
    the name [Engine Operations] comes first and is returned, not the team
    after it whose key is [ENG]. *)
Lemma find_team_name_match_before_key_match :
  py.values (reader.teams samples.cache_name_before_key)
  = [reader.mkTeam "t1" (Some "OPS") (Some "Engine Operations");
     reader.mkTeam "t2" (Some "ENG") (Some "Core")]
  /\ reader.find_team "eng" samples.cache_name_before_key
     = Some (reader.mkTeam "t1" (Some "OPS") (Some "Engine Operations"))
  /\ reader.find_team "eng" samples.cache_name_before_key
     <> Some (reader.mkTeam "t2" (Some "ENG") (Some "Core")).
Proof. split; [reflexivity|]. split; [reflexivity | discriminate]. Qed.

Section FirstBest.

Context {A : Type} (le : A -> A -> bool).

Lemma insert_by_least (x : A) (l : list A) :
  (forall y, In y l -> le x y = true) -> py.insert_by le x l = x :: l.
Proof.
  destruct l as [|y l]; simpl; [reflexivity|].
  intros H. now rewrite (H y) by now left.
Qed.

(** The stable sort puts first an element that no earlier element precedes
    or equals in the order and that no later element precedes *)
Lemma sorted_head (l1 l2 : list A) (x : A) :
  (forall y, In y l1 -> le y x = false) ->
  (forall y, In y l2 -> le x y = true) ->
  exists rest, py.sorted le (l1 ++ x :: l2) = x :: rest.
Proof.
  intros H1 H2. induction l1 as [|a l1 IH].
  - exists (py.sorted le l2). apply insert_by_least.
    intros y Hy. apply H2.
    apply (Permutation_in _ (Permutation_sym (sorted_perm le l2)) Hy).
  - destruct IH as [rest E].
    { intros y Hy. apply H1. now right. }
    change (py.sorted le ((a :: l1) ++ x :: l2))
      with (py.insert_by le a (py.sorted le (l1 ++ x :: l2))).
    rewrite E. simpl. rewrite (H1 a) by now left. eauto.
Qed.

End FirstBest.

Lemma first_best {A : Type} (l : list (Z * A)) :
  l <> [] ->
  exists l1 x l2,
    l = (l1 ++ x :: l2)%list
    /\ (forall y, In y l1 -> fst y < fst x)
    /\ (forall y, In y l2 -> fst y <= fst x).
Proof.
  induction l as [|a l IH]; [congruence|]. intros _.
  destruct l as [|b l].
  - exists [], a, []. repeat split; intros y [].
  - destruct IH as (l1 & x & l2 & E & H1 & H2); [discriminate|].
    destruct (Z_le_gt_dec (fst x) (fst a)) as [Hle|Hgt].
    + exists [], a, (b :: l). repeat split; [intros y []|].
      intros y Hy. rewrite E in Hy. apply in_app_or in Hy as [Hy|[<-|Hy]].
      * specialize (H1 y Hy). lia.
      * exact Hle.
      * specialize (H2 y Hy). lia.
    + exists (a :: l1), x, l2. rewrite E. repeat split; [|exact H2].
      intros y [<-|Hy]; [lia | now apply H1].
Qed.

Lemma flat_map_singletons {A B : Type} (p : A -> bool) (g : A -> B)
    (l : list A) (k1 k2 : list B) (x : B) :
  flat_map (fun a => if p a then [g a] else []) l = (k1 ++ x :: k2)%list ->
  exists l1 a l2,
    l = (l1 ++ a :: l2)%list /\ p a = true /\ x = g a
    /\ k1 = flat_map (fun a => if p a then [g a] else []) l1
    /\ k2 = flat_map (fun a => if p a then [g a] else []) l2.
Proof.
  revert k1. induction l as [|a l IH]; simpl; intros k1 H.
  - now destruct k1.
  - destruct (p a) eqn:E; simpl in H.
    + destruct k1 as [|b k1]; simpl in H.
      * injection H as <- <-. exists [], a, l. auto.
      * injection H as <- H. apply IH in H as (l1 & a' & l2 & -> & Ha & -> & -> & ->).
        exists (a :: l1), a', l2. simpl. rewrite E. auto.
    + apply IH in H as (l1 & a' & l2 & -> & Ha & -> & -> & ->).
      exists (a :: l1), a', l2. simpl. rewrite E. auto.
Qed.

Lemma in_flat_map_singletons {A B : Type} (p : A -> bool) (g : A -> B)
    (l : list A) (a : A) :
  In a l -> p a = true ->
  In (g a) (flat_map (fun a => if p a then [g a] else []) l).
Proof.
  intros Hin Hp. apply in_flat_map. exists a. split; [exact Hin|].
  rewrite Hp. now left.
Qed.

(** C5.  [find_user] considers the users whose name or display name, in lower
    case, contains the search text in lower case; it scores such a user 100
    when the name starts with the text, else 50 when the text follows a space
    in the name padded with one, else 40 when the display name starts with the
    text, else 10; it returns the candidate with the highest score, the first
    of them in the order of the user dictionary, and nothing when there is no
    candidate.  For [daniel], Daniel Kessl (100) is returned although Zachary
    McDaniel (10) comes first. *)
Theorem find_user_best_match (search : string) (c : reader.CachedData) :
  let sl := py.lower search in
  let name u := py.lower (reader._to_str (reader.user_name u)) in
  let display u := py.lower (reader._to_str (reader.user_displayName u)) in
  (forall u,
      reader.user_matches sl u = true
      <-> py.contains sl (name u) = true \/ py.contains sl (display u) = true)
  /\ (forall u,
         reader.user_score sl u
         = if py.startswith (name u) sl then 100
           else if py.contains (" " ++ sl) (" " ++ name u) then 50
           else if py.startswith (display u) sl then 40
           else 10)
  /\ (reader.find_user search c = None
      <-> forall u, In u (py.values (reader.users c)) ->
                    reader.user_matches sl u = false)
  /\ (forall u,
         reader.find_user search c = Some u ->
         exists l1 l2,
           py.values (reader.users c) = (l1 ++ u :: l2)%list
           /\ reader.user_matches sl u = true
           /\ (forall v, In v l1 -> reader.user_matches sl v = true ->
                         reader.user_score sl v < reader.user_score sl u)
           /\ (forall v, In v l2 -> reader.user_matches sl v = true ->
                         reader.user_score sl v <= reader.user_score sl u))
  /\ (py.values (reader.users samples.cache)
      = [reader.mkUser "u2" (Some "Zachary McDaniel") (Some "zach") None;
         reader.mkUser "u1" (Some "Daniel Kessl") (Some "dan") None]
      /\ reader.user_score "daniel"
           (reader.mkUser "u2" (Some "Zachary McDaniel") (Some "zach") None)
         = 10
      /\ reader.user_score "daniel"
           (reader.mkUser "u1" (Some "Daniel Kessl") (Some "dan") None)
         = 100
      /\ reader.find_user "daniel" samples.cache
         = Some (reader.mkUser "u1" (Some "Daniel Kessl") (Some "dan") None)).
Proof.
  intros sl name display.
  assert (Hcases :
    match reader.user_candidates search c with
    | [] => reader.find_user search c = None
    | _ :: _ =>
        exists l1 u l2,
          py.values (reader.users c) = (l1 ++ u :: l2)%list
          /\ reader.find_user search c = Some u
          /\ reader.user_matches sl u = true
          /\ (forall v, In v l1 -> reader.user_matches sl v = true ->
                        reader.user_score sl v < reader.user_score sl u)
          /\ (forall v, In v l2 -> reader.user_matches sl v = true ->
                        reader.user_score sl v <= reader.user_score sl u)
    end).
  { unfold reader.find_user.
    destruct (reader.user_candidates search c) as [|x0 k0] eqn:Ec;
      [reflexivity|].
    destruct (first_best (x0 :: k0)) as (k1 & m & k2 & E & H1 & H2);
      [discriminate|].
    rewrite E.
    destruct (sorted_head (fun x y : Z * reader.User => - fst x <=? - fst y)
                k1 k2 m) as [rest ->].
    { intros y Hy. apply Z.leb_gt. specialize (H1 y Hy). lia. }
    { intros y Hy. apply Z.leb_le. specialize (H2 y Hy). lia. }
    rewrite <- Ec in E. unfold reader.user_candidates in E. fold sl in E.
    apply (flat_map_singletons (reader.user_matches sl)
             (fun u => (reader.user_score sl u, u))) in E
      as (l1 & u & l2 & Hus & Hu & -> & -> & ->).
    exists l1, u, l2. repeat split; auto.
    - intros v Hv Hm.
      apply (H1 (reader.user_score sl v, v)).
      now apply (in_flat_map_singletons (reader.user_matches sl)
                   (fun u => (reader.user_score sl u, u))).
    - intros v Hv Hm.
      apply (H2 (reader.user_score sl v, v)).
      now apply (in_flat_map_singletons (reader.user_matches sl)
                   (fun u => (reader.user_score sl u, u))). }
  split; [|split; [|split; [|split]]].
  - intros u. unfold reader.user_matches. now rewrite orb_true_iff.
  - reflexivity.
  - destruct (reader.user_candidates search c) as [|x0 k0] eqn:Ec.
    + split; [|intros _; exact Hcases]. intros _ u Hu.
      destruct (reader.user_matches sl u) eqn:Em; [|reflexivity].
      pose proof (in_flat_map_singletons (reader.user_matches sl)
                    (fun u => (reader.user_score sl u, u)) _ u Hu Em) as Hin.
      unfold reader.user_candidates in Ec. fold sl in Ec.
      cbv beta in Hin. rewrite Ec in Hin. destruct Hin.
    + destruct Hcases as (l1 & u & l2 & Hus & Hf & Hu & _).
      split; [congruence|]. intros Hn.
      rewrite Hn in Hu; [discriminate|]. rewrite Hus. apply in_or_app.
      right. now left.
  - intros u Hu.
    destruct (reader.user_candidates search c) as [|x0 k0];
      [congruence|].
    destruct Hcases as (l1 & u' & l2 & Hus & Hf & Hrest).
    assert (u' = u) by congruence. subst u'. eauto.
  - repeat split; reflexivity.
Qed.

(** ** The cache lifetime *)

(** C7.  [_ensure_cache] reloads exactly when more than 300 seconds have
    passed since [loaded_at] or the team dictionary is empty, and hands out
    the cache it has otherwise; with a team loaded, a query 299 seconds after
    the load does not reload and a query 301 seconds after it does. *)
Theorem reload_after_ttl_or_without_teams (now : Q) (c : reader.CachedData) :
  (reader.reload_needed now c = true
   <-> (300 < now - reader.loaded_at c)%Q \/ reader.teams c = [])
  /\ (forall reload,
         reader._ensure_cache reload now c
         = if reader.reload_needed now c then reload now else Some c)
  /\ (reader.teams c <> [] ->
      reader.reload_needed (reader.loaded_at c + 299)%Q c = false
      /\ reader.reload_needed (reader.loaded_at c + 301)%Q c = true).
Proof.
  assert (Hexp : forall t,
             reader.is_expired t c = true <-> (300 < t - reader.loaded_at c)%Q).
  { intros t. unfold reader.is_expired, reader.CACHE_TTL_SECONDS.
    rewrite negb_true_iff.
    destruct (Qle_bool (t - reader.loaded_at c) 300) eqn:E.
    - apply Qle_bool_iff in E. split; [discriminate|]. intros H.
      exfalso. apply (Qlt_not_le _ _ H E).
    - split; [|reflexivity]. intros _. apply Qnot_le_lt. intros H.
      apply Qle_bool_iff in H. congruence. }
  split; [|split].
  - unfold reader.reload_needed. rewrite orb_true_iff, Hexp.
    destruct (reader.teams c); split; intros [H|H]; auto; discriminate.
  - reflexivity.
  - intros Ht. unfold reader.reload_needed.
    destruct (reader.teams c) as [|tm tms]; [contradiction|].
    rewrite !orb_false_r. split.
    + apply not_true_is_false. rewrite Hexp. intros H. lra.
    + apply Hexp. lra.
Qed.

Lemma reload_after_ttl_or_without_teams_witness :
  reader.reload_needed (reader.loaded_at samples.cache + 299)%Q samples.cache
  = false
  /\ reader.reload_needed (reader.loaded_at samples.cache + 301)%Q samples.cache
     = true.
Proof.
  apply (proj2 (proj2
           (reload_after_ttl_or_without_teams 0 samples.cache))).
  discriminate.
Defined.

(** ** The rich-text extraction *)

Lemma pyval_induction (P : pyval -> Prop) :
  P VNone -> (forall b, P (VBool b)) -> (forall n, P (VInt n)) ->
  (forall q, P (VFloat q)) -> (forall s, P (VStr s)) ->
  (forall l, Forall P l -> P (VList l)) ->
  (forall d, Forall (fun kv => P (snd kv)) d -> P (VDict d)) ->
  forall v, P v.
Proof.
  intros HN HB HI HF HS HL HD.
  exact (fix IH (v : pyval) : P v :=
           match v with
           | VNone => HN
           | VBool b => HB b
           | VInt n => HI n
           | VFloat q => HF q
           | VStr s => HS s
           | VList l =>
               HL l ((fix go (l : list pyval) : Forall P l :=
                        match l with
                        | [] => Forall_nil P
                        | x :: l' => Forall_cons x (IH x) (go l')
                        end) l)
           | VDict d =>
               HD d ((fix go (d : list (string * pyval))
                      : Forall (fun kv => P (snd kv)) d :=
                        match d with
                        | [] => Forall_nil _
                        | (k, x) :: d' =>
                            @Forall_cons _ (fun kv => P (snd kv)) (k, x) d'
                              (IH x) (go d')
                        end) d)
           end).
Qed.

Lemma on_get_dict_get {R : Type} (k : string) (g : pyval -> R) (default : R)
    (d : list (string * pyval)) :
  pyv.on_get k g default d
  = match py.dict_get k d with Some v => g v | None => default end.
Proof.
  induction d as [|[k' v] d IH]; simpl; [reflexivity|].
  now destruct (String.eqb k' k).
Qed.

Lemma join_is_str (xs : list (option pyval)) (r : pyval) :
  pyv.join xs = Some r -> exists s, r = VStr s.
Proof.
  destruct xs as [|[[]|] xs]; simpl; try discriminate.
  - intros [= <-]. eauto.
  - destruct (pyv.join xs) as [[]|]; try discriminate. intros [= <-]. eauto.
Qed.

Lemma join_all_str (xs : list (option pyval)) :
  (exists s, pyv.join xs = Some (VStr s))
  <-> Forall (fun x => exists s, x = Some (VStr s)) xs.
Proof.
  induction xs as [|x xs IH]; simpl.
  - split; [constructor | eauto].
  - split.
    + intros [s H]. destruct x as [[| | | |s0| |]|]; try discriminate.
      destruct (pyv.join xs) as [[| | | |r| |]|] eqn:E; try discriminate.
      constructor; [eauto | apply IH; eauto].
    + intros H. inversion H as [|? ? [s0 ->] Hxs]; subst.
      apply IH in Hxs as [r ->]. eauto.
Qed.

Lemma forall_same {A B : Type} (P : B -> Prop) (y : B) (l : list A) :
  Forall P (map (fun _ => y) l) <-> l = [] \/ P y.
Proof.
  induction l as [|a l IH]; simpl.
  - split; [now left | constructor].
  - split.
    + intros H. inversion H. now right.
    + intros [H|H]; [discriminate|]. constructor; [exact H|].
      apply IH. now right.
Qed.

Section ExtractTotal.

Variable py_repr : nat -> pyval -> option string.
Variable join_cost : nat.

Let returns_text (v : pyval) (room : nat) : Prop :=
  exists s, reader.extract py_repr join_cost v room = Some (VStr s).

(** With enough room a well-formed tree gives a string, and a tree gives
    nothing without the room it needs *)
Let walks (v : pyval) : Prop :=
  forall room,
    (spec.prose v = true ->
     (spec.units_needed join_cost v <= room)%nat -> returns_text v room)
    /\ (forall r,
           reader.extract py_repr join_cost v room = Some r ->
           (spec.units_needed join_cost v <= room)%nat).

Lemma joined_returns_text (room : nat) (items : list (option pyval)) :
  (exists s, reader.joined join_cost room items = Some (VStr s))
  <-> (join_cost <= room)%nat
      /\ Forall (fun x => exists s, x = Some (VStr s)) items.
Proof.
  unfold reader.joined. destruct (Nat.ltb_spec room join_cost) as [H|H].
  - split; [intros [s Hs]; discriminate | intros [H' _]; lia].
  - rewrite join_all_str. tauto.
Qed.

Lemma joined_is_str (room : nat) (items : list (option pyval)) (r : pyval) :
  reader.joined join_cost room items = Some r ->
  exists s, reader.joined join_cost room items = Some (VStr s).
Proof.
  intros H. rewrite H. unfold reader.joined in H.
  destruct (_ <? _)%nat; [discriminate|].
  apply join_is_str in H as [s ->]. now exists s.
Qed.

Lemma extract_str_returns_text (room : nat) :
  (exists s, reader.extract_str room = Some (VStr s)) <-> (1 <= room)%nat.
Proof.
  destruct room; simpl; split; eauto; try lia. intros [s H]. discriminate.
Qed.

Lemma items_walk (l : list pyval) :
  Forall walks l ->
  forall room,
    (forallb spec.prose l = true ->
     (list_max (map (spec.units_needed join_cost) l) <= room)%nat ->
     Forall (fun c => returns_text c room) l)
    /\ (Forall (fun c => returns_text c room) l ->
        (list_max (map (spec.units_needed join_cost) l) <= room)%nat).
Proof.
  induction 1 as [|v l Hv Hl IH]; intros room; simpl.
  - split; [constructor | lia].
  - rewrite andb_true_iff. split.
    + intros [H1 H2] H3. constructor.
      * apply Hv; [exact H1 | lia].
      * apply IH; [exact H2 | lia].
    + intros H. inversion H as [|? ? [s H1] H2]; subst.
      apply Hv in H1. apply IH in H2. lia.
Qed.

Lemma list_walks (l : list pyval) (room : nat) :
  Forall walks l ->
  let joined_items :=
    reader.joined join_cost room
      (map (fun c => reader.extract py_repr join_cost c (room - join_cost)%nat)
         l) in
  let needed :=
    (1 + join_cost + list_max (map (spec.units_needed join_cost) l))%nat in
  (forallb spec.prose l = true -> (needed <= S room)%nat ->
   exists s, joined_items = Some (VStr s))
  /\ (forall r, joined_items = Some r -> (needed <= S room)%nat).
Proof.
  intros Hl joined_items needed.
  pose proof (items_walk l Hl (room - join_cost)%nat) as [H1 H2].
  unfold returns_text in H1, H2.
  assert (E : (exists s, joined_items = Some (VStr s))
              <-> (join_cost <= room)%nat
                  /\ Forall
                       (fun c =>
                          exists s,
                            reader.extract py_repr join_cost c
                              (room - join_cost)%nat
                            = Some (VStr s)) l).
  { unfold joined_items. rewrite joined_returns_text, Forall_map. tauto. }
  split.
  - intros Hp Hn. apply E. unfold needed in Hn.
    split; [lia|]. apply H1; [exact Hp | lia].
  - intros r Hr. apply joined_is_str in Hr. apply E in Hr as [Hr1 Hr2].
    apply H2 in Hr2. unfold needed. lia.
Qed.

Lemma strs_walk {A : Type} (l : list A) (room : nat) :
  (exists s,
      reader.joined join_cost room
        (map (fun _ => reader.extract_str (room - join_cost)%nat) l)
      = Some (VStr s))
  <-> (1 + join_cost + match l with [] => 0 | _ => 1 end <= S room)%nat.
Proof.
  rewrite joined_returns_text, (forall_same _ _ l), extract_str_returns_text.
  destruct l; split.
  - intros [H _]. lia.
  - intros H. split; [lia | now left].
  - intros [H [H'|H']]; [discriminate | lia].
  - intros H. split; [lia | right; lia].
Qed.

Lemma strs_walks {A : Type} (l : list A) (room : nat) :
  let joined_items :=
    reader.joined join_cost room
      (map (fun _ => reader.extract_str (room - join_cost)%nat) l) in
  let needed := (1 + join_cost + match l with [] => 0 | _ => 1 end)%nat in
  ((needed <= S room)%nat -> exists s, joined_items = Some (VStr s))
  /\ (forall r, joined_items = Some r -> (needed <= S room)%nat).
Proof.
  intros joined_items needed. split.
  - intros H. now apply strs_walk.
  - intros r Hr. apply joined_is_str in Hr. now apply strs_walk in Hr.
Qed.

Lemma units_needed_pos (v : pyval) :
  (1 <= spec.units_needed join_cost v)%nat.
Proof.
  destruct v as [| | | | |l|d]; simpl; try lia.
  repeat match goal with
         | |- context [if ?b then _ else _] => destruct b
         end; try lia.
  rewrite on_get_dict_get.
  destruct (py.dict_get "content" d) as [[]|]; lia.
Qed.

Lemma extract_walks (v : pyval) : walks v.
Proof.
  induction v as [| | | | |l IH|d IH] using pyval_induction; intros room;
    try solve [unfold returns_text; destruct room; simpl; split;
               [intros _ ?; lia | intros ? ?; discriminate
               | intros _ _; eauto | intros ? _; lia]].
  - unfold returns_text. destruct room as [|room]; simpl.
    + split; [intros _ ?; lia | intros ? ?; discriminate].
    + apply (list_walks l room IH).
  - unfold returns_text. destruct room as [|room].
    { split; [|intros ? ?; discriminate]. intros _ H.
      pose proof (units_needed_pos (VDict d)). lia. }
    simpl.
    destruct (pyv.eq_str (pyv.get d "type" (VStr "")) "text").
    { split; [|intros ? _; lia].
      destruct (pyv.get d "text" (VStr "")); try discriminate. eauto. }
    destruct (pyv.eq_str (pyv.get d "type" (VStr ""))
                "suggestion_userMentions").
    { split; [|intros ? _; lia]. unfold reader.mention_text.
      destruct (pyv.get d "attrs" (VDict [])) as [| | | | | |attrs];
        try discriminate.
      destruct (pyv.get attrs "label" (VStr "")) as [| | | |s| |];
        simpl; intros Hp _; try rewrite (proj1 (negb_true_iff _) Hp); eauto.
      destruct (negb (String.eqb s "")); eauto. }
    destruct (pyv.eq_str (pyv.get d "type" (VStr "")) "hardBreak").
    { split; [eauto | intros ? _; lia]. }
    rewrite !on_get_dict_get.
    destruct (py.dict_get "content" d) as [content|] eqn:E.
    + apply dict_get_in in E. rewrite Forall_forall in IH.
      specialize (IH _ E). simpl in IH.
      destruct content as [| | | |s|l|keys];
        try (split; [discriminate | intros ? ?; discriminate]).
      * destruct (strs_walks (list_ascii_of_string s) room) as [H1 H2].
        destruct s; simpl in *; (split; [intros _; exact H1 | exact H2]).
      * exact (IH (S room)).
      * destruct (strs_walks keys room) as [H1 H2].
        split; [intros _; exact H1 | exact H2].
    + destruct (strs_walks (@nil unit) room) as [H1 H2]. simpl in H1, H2.
      rewrite Nat.add_0_r in H1, H2.
      split; [intros _; exact H1 | exact H2].
Qed.

Lemma extract_prose (v : pyval) (room : nat) :
  spec.walkable join_cost room v = true ->
  exists s, reader.extract py_repr join_cost v room = Some (VStr s).
Proof.
  unfold spec.walkable. rewrite andb_true_iff, Nat.leb_le. intros [Hp Hu].
  now apply extract_walks.
Qed.

Lemma extract_without_room (v : pyval) (room : nat) :
  (room < spec.units_needed join_cost v)%nat ->
  reader.extract py_repr join_cost v room = None.
Proof.
  intros H.
  destruct (reader.extract py_repr join_cost v room) as [r|] eqn:E;
    [|reflexivity].
  apply extract_walks in E. lia.
Qed.

Lemma nested_walk (n : nat) :
  spec.prose (spec.nested n) = true
  /\ spec.units_needed join_cost (spec.nested n)
     = ((1 + join_cost) * (n + 1))%nat.
Proof.
  induction n as [|n [IH1 IH2]]; simpl.
  - split; [reflexivity | lia].
  - rewrite IH1. split; [reflexivity|]. simpl in IH2. rewrite IH2. lia.
Qed.

Lemma extract_nested_raises (n room : nat) :
  (room <= n)%nat ->
  reader.extract py_repr join_cost (spec.nested n) room = None.
Proof.
  intros Hle. apply extract_without_room.
  rewrite (proj2 (nested_walk n)). nia.
Qed.

End ExtractTotal.

Ltac make_room :=
  repeat match goal with
         | |- context [(?a <? ?b)%nat] =>
             destruct (Nat.ltb_spec a b); [lia|]
         | |- context [match (?a - ?b)%nat with O => _ | S _ => _ end] =>
             destruct (a - b)%nat eqn:?; [lia|]
         end.

(** C6, as amended.  [_extract_comment_text] returns a string, without
    raising, on every body that is [None], a string that [json.loads]
    rejects with [JSONDecodeError], or a tree (given as such or as the JSON
    text that [json.loads] decodes) in which every text node carries a
    string, the [attrs] of every mention are an object with a string or no
    label and every [content] is a list of such trees, a string or an object,
    also with empty content lists, provided that the recursion limit of the
    interpreter leaves the room that the nesting of the tree needs.  A tree
    that needs more room makes the extraction raise, and whatever room is
    left, the well-formed tree of that many lists one inside the other needs
    more.  A string that [json.loads] rejects with [JSONDecodeError] is
    returned unchanged, so extracting twice from it gives what extracting
    once gives; when [json.loads] raises anything else the extraction
    raises. *)
Theorem extract_comment_text_total_on_prose
    (json_loads : string -> reader.Loaded)
    (py_repr : nat -> pyval -> option string) (join_cost room : nat) :
  (forall body,
      spec.prose_body json_loads join_cost room body = true ->
      exists s,
        reader._extract_comment_text json_loads py_repr join_cost room body
        = Some (VStr s))
  /\ (forall tree,
         (room < spec.units_needed join_cost tree)%nat ->
         reader.extract py_repr join_cost tree room = None)
  /\ (forall n,
         spec.prose (spec.nested n) = true
         /\ ((room <= n)%nat ->
             reader._extract_comment_text json_loads py_repr join_cost room
               (spec.nested n)
             = None))
  /\ (forall s,
         json_loads s = reader.JSONDecodeError ->
         reader._extract_comment_text json_loads py_repr join_cost room
           (VStr s)
         = Some (VStr s)
         /\ match
              reader._extract_comment_text json_loads py_repr join_cost room
                (VStr s)
            with
            | Some once =>
                reader._extract_comment_text json_loads py_repr join_cost room
                  once
                = Some once
            | None => False
            end)
  /\ (forall s,
         json_loads s = reader.OtherError ->
         reader._extract_comment_text json_loads py_repr join_cost room
           (VStr s)
         = None)
  /\ ((spec.units_needed join_cost samples.document <= room)%nat ->
      reader._extract_comment_text json_loads py_repr join_cost room
        samples.document
      = Some (VStr ("ping @dan" ++ String (ascii_of_nat 10) ""))).
Proof.
  split; [|split; [|split; [|split; [|split]]]].
  - intros body. unfold reader._extract_comment_text, spec.prose_body.
    destruct body as [| | | |s| |]; try apply extract_prose.
    + eauto.
    + destruct (json_loads s) as [tree| |].
      * apply extract_prose.
      * eauto.
      * discriminate.
  - intros tree. apply extract_without_room.
  - intros n. split; [apply (nested_walk join_cost n)|].
    intros Hle. destruct n; apply extract_nested_raises; exact Hle.
  - intros s H. unfold reader._extract_comment_text. rewrite H.
    split; [reflexivity|]. now rewrite H.
  - intros s H. unfold reader._extract_comment_text. now rewrite H.
  - unfold samples.document. simpl. intros H.
    destruct room as [|r]; [lia|]. simpl. unfold reader.joined.
    make_room. reflexivity.
Qed.

Lemma extract_comment_text_total_on_prose_witness :
  reader._extract_comment_text samples.not_json samples.no_repr
    samples.join_cost samples.room samples.document
  = Some (VStr ("ping @dan" ++ String (ascii_of_nat 10) "")).
Proof.
  apply (proj2 (proj2 (proj2 (proj2 (proj2
           (extract_comment_text_total_on_prose samples.not_json
              samples.no_repr samples.join_cost samples.room)))))).
  apply Nat.leb_le. reflexivity.
Defined.

(** C6 as stated fails: the extraction raises on a paragraph whose text node
    carries the number 5 (the [join] of the paragraph meets an item that is
    not a string), on a paragraph whose content is [null] (which cannot be
    iterated), on lists nested one inside the other more deeply than the
    recursion limit allows, whatever room that limit leaves, and on any
    string on which [json.loads] raises something else than
    [JSONDecodeError]. *)
Lemma extract_comment_text_raises :
  reader._extract_comment_text samples.not_json samples.no_repr
    samples.join_cost samples.room samples.paragraph_with_number = None
  /\ reader._extract_comment_text samples.not_json samples.no_repr
       samples.join_cost samples.room samples.paragraph_with_null_content
     = None
  /\ (forall room,
         spec.prose (spec.nested room) = true
         /\ reader._extract_comment_text samples.not_json samples.no_repr
              samples.join_cost room (spec.nested room)
            = None)
  /\ (forall room s,
         reader._extract_comment_text (fun _ => reader.OtherError)
           samples.no_repr samples.join_cost room (VStr s)
         = None).
Proof.
  split; [reflexivity|]. split; [reflexivity|]. split; [|reflexivity].
  intros room. split; [apply (nested_walk samples.join_cost room)|].
  destruct room; apply extract_nested_raises; lia.
Qed.

(** ** The issues of a user *)

(** C9, as amended.  When [updated_after] is absent, empty or a date that
    parses, [get_my_issues] for a name that [find_user] does not resolve
    returns the error object with the message [User '<name>' not found] and
    nothing else; an [updated_after] that does not parse is reported first,
    whatever the name. *)
Theorem get_my_issues_unknown_user
    (fromisoformat : string -> option Q) (c : reader.CachedData)
    (name : string) (state_type updated_after : option string) (limit : Z)
    (cursor : option string) :
  reader.find_user name c = None ->
  match server.parse_updated_after fromisoformat updated_after with
  | inr _ =>
      server.get_my_issues fromisoformat c name state_type updated_after limit
        cursor
      = server.MyError ("User '" ++ name ++ "' not found")
  | inl msg =>
      server.get_my_issues fromisoformat c name state_type updated_after limit
        cursor
      = server.MyError msg
  end.
Proof.
  intros H. unfold server.get_my_issues.
  destruct (server.parse_updated_after fromisoformat updated_after);
    [reflexivity|].
  now rewrite H.
Qed.

Lemma get_my_issues_unknown_user_witness :
  server.get_my_issues samples.not_a_date samples.cache "nobody" None None 20
    None
  = server.MyError "User 'nobody' not found".
Proof.
  apply (get_my_issues_unknown_user samples.not_a_date samples.cache "nobody"
           None None 20 None).
  reflexivity.
Defined.

(** C9 as stated fails: for the unknown name [nobody] and the filter
    [updated_after = "yesterday"], which is no ISO-8601 date, the error
    object is the one of the date, not the one of the user. *)
Lemma get_my_issues_bad_date_before_unknown_user :
  reader.find_user "nobody" samples.cache = None
  /\ server.get_my_issues samples.not_a_date samples.cache "nobody" None
       (Some "yesterday") 20 None
     = server.MyError "Invalid updated_after format: yesterday"
  /\ server.get_my_issues samples.not_a_date samples.cache "nobody" None
       (Some "yesterday") 20 None
     <> server.MyError "User 'nobody' not found".
Proof. split; [reflexivity|]. split; [reflexivity | discriminate]. Qed.

(** ** The store detector *)

Ltac split_tests :=
  repeat match goal with
         | |- context [if ?b then _ else _] => destruct b eqn:?
         end.



Lemma classify_first_match (result : store_detector.DetectedStores)
    (store_name : string) (val : store_detector.record) :
  let result' := store_detector.classify result store_name val in
  (spec.first_match result store_name val = None -> result' = result)
  /\ (forall k,
        spec.first_match result store_name val = Some k ->
        In k [spec.IssueRole; spec.TeamRole; spec.UserRole]
        \/ store_detector._is_workflow_state_record val <> None ->
        result' = spec.assign k store_name result)
  /\ (result' = result
      \/ exists k, spec.first_match result store_name val = Some k
                   /\ result' = spec.assign k store_name result).
Proof.
  destruct result as [i t u w c p].
  unfold store_detector.classify, spec.first_match. simpl.
  destruct (store_detector._is_workflow_state_record val) as [is_state|];
    split_tests; simpl;
    (split; [|split]);
    try (intros; discriminate);
    try (intros k [= <-] _; reflexivity);
    try (intros _; reflexivity);
    try (left; reflexivity);
    try (right; eexists; split; reflexivity).
  all: intros k [= <-] [H|H]; [|congruence].
  all: simpl in H; intuition discriminate.
Qed.

















(** ** More of the reader: searches and lookups *)

Lemma append_until_firstn {A : Type} (keep : A -> bool) (limit : Z)
    (l results : list A) :
  py.append_until keep limit l results
  = (results
     ++ firstn (Z.to_nat (Z.max 1 (limit - Z.of_nat (List.length results))))
          (filter keep l))%list.
Proof.
  revert results. induction l as [|x l IH]; intros results; simpl.
  - now rewrite firstn_nil, app_nil_r.
  - destruct (keep x); [|apply IH].
    rewrite length_app. simpl List.length.
    destruct (Z.geb_spec (Z.of_nat (List.length results + 1)) limit) as [H|H].
    + replace (Z.to_nat (Z.max 1 (limit - Z.of_nat (List.length results))))
        with 1%nat by lia.
      reflexivity.
    + rewrite IH, length_app. simpl List.length.
      replace (Z.to_nat (Z.max 1 (limit - Z.of_nat (List.length results))))
        with (S (Z.to_nat
                   (Z.max 1 (limit - Z.of_nat (List.length results + 1)))))
        by lia.
      simpl. now rewrite <- app_assoc.
Qed.

(** X1.  [LinearLocalReader.search_issues] returns, in the order of the issue
    dictionary, the first [limit] issues whose title contains the query
    without regard to case, and one issue, not none, when [limit] is 0 or
    negative and some title matches. *)
Theorem reader_search_issues_first_matches (query : string) (limit : Z)
    (c : reader.CachedData) :
  reader.search_issues query limit c
  = firstn (Z.to_nat (Z.max 1 limit))
      (filter (reader.title_matches (py.lower query))
         (py.values (reader.issues c))).
Proof.
  unfold reader.search_issues. rewrite append_until_firstn. simpl.
  now rewrite Z.sub_0_r.
Qed.

Lemma upper_char_upper (a : ascii) :
  py.upper_char (py.upper_char a) = py.upper_char a.
Proof. destruct a as [[] [] [] [] [] [] [] []]; reflexivity. Qed.

Lemma upper_char_lower (a : ascii) :
  py.upper_char (py.lower_char a) = py.upper_char a.
Proof. destruct a as [[] [] [] [] [] [] [] []]; reflexivity. Qed.

Lemma lower_char_lower (a : ascii) :
  py.lower_char (py.lower_char a) = py.lower_char a.
Proof. destruct a as [[] [] [] [] [] [] [] []]; reflexivity. Qed.

Lemma lower_char_upper (a : ascii) :
  py.lower_char (py.upper_char a) = py.lower_char a.
Proof. destruct a as [[] [] [] [] [] [] [] []]; reflexivity. Qed.

Lemma map_chars_compose (g h k : ascii -> ascii) (s : string) :
  (forall a, g (h a) = k a) ->
  py.map_chars g (py.map_chars h s) = py.map_chars k s.
Proof.
  intros H. induction s as [|a s IH]; simpl; [reflexivity|].
  now rewrite H, IH.
Qed.

Lemma upper_upper (s : string) : py.upper (py.upper s) = py.upper s.
Proof. apply map_chars_compose, upper_char_upper. Qed.

Lemma upper_lower (s : string) : py.upper (py.lower s) = py.upper s.
Proof. apply map_chars_compose, upper_char_lower. Qed.

Lemma lower_lower (s : string) : py.lower (py.lower s) = py.lower s.
Proof. apply map_chars_compose, lower_char_lower. Qed.

Lemma lower_upper (s : string) : py.lower (py.upper s) = py.lower s.
Proof. apply map_chars_compose, lower_char_upper. Qed.

(** X2.  For an argument in ASCII [get_issue_by_identifier] does not depend
    on the case of the argument.  For any argument it returns the first
    issue of the dictionary whose identifier equals the argument once both
    are in upper case, and nothing when there is none; so every stored issue
    is found by its own identifier, up to an issue that comes earlier with
    the same identifier in another case. *)
Theorem get_issue_by_identifier_ignores_case (identifier : string)
    (c : reader.CachedData) :
  (py.isascii identifier = true ->
   reader.get_issue_by_identifier (py.upper identifier) c
   = reader.get_issue_by_identifier identifier c
   /\ reader.get_issue_by_identifier (py.lower identifier) c
      = reader.get_issue_by_identifier identifier c)
  /\ (reader.get_issue_by_identifier identifier c = None
      <-> forall i, In i (py.values (reader.issues c)) ->
                    py.upper (reader.issue_identifier i) <> py.upper identifier)
  /\ (forall i,
         reader.get_issue_by_identifier identifier c = Some i
         <-> exists l1 l2,
               py.values (reader.issues c) = (l1 ++ i :: l2)%list
               /\ (forall j, In j l1 ->
                     py.upper (reader.issue_identifier j)
                     <> py.upper identifier)
               /\ py.upper (reader.issue_identifier i) = py.upper identifier)
  /\ (forall i,
         In i (py.values (reader.issues c)) ->
         exists j,
           reader.get_issue_by_identifier (reader.issue_identifier i) c
           = Some j
           /\ py.upper (reader.issue_identifier j)
              = py.upper (reader.issue_identifier i)).
Proof.
  unfold reader.get_issue_by_identifier. cbv zeta.
  rewrite upper_upper, upper_lower.
  set (p := fun issue =>
              String.eqb (py.upper (reader.issue_identifier issue))
                (py.upper identifier)).
  assert (Hp : forall i, p i = true
                         <-> py.upper (reader.issue_identifier i)
                             = py.upper identifier)
    by (intros i; apply String.eqb_eq).
  assert (Hn : forall i, p i = false
                         <-> py.upper (reader.issue_identifier i)
                             <> py.upper identifier)
    by (intros i; apply String.eqb_neq).
  pose proof (find_first p (py.values (reader.issues c))) as Hf.
  split; [intros _; split; reflexivity|]. split; [|split].
  - destruct (find p _) as [x|].
    + split; [discriminate|]. intros H.
      destruct Hf as (l1 & l2 & E & _ & Hx). apply Hp in Hx.
      exfalso. apply (H x); [|exact Hx].
      rewrite E. apply in_or_app. right. now left.
    + split; [|reflexivity]. intros _ i Hi. apply Hn. now apply Hf.
  - intros i. split.
    + intros H. rewrite H in Hf. destruct Hf as (l1 & l2 & E & H1 & Hx).
      exists l1, l2. repeat split; [exact E| |now apply Hp].
      intros j Hj. apply Hn. now apply H1.
    + intros (l1 & l2 & -> & H1 & Hx). apply find_at; [|now apply Hp].
      intros j Hj. apply Hn. now apply H1.
  - intros i Hi. clear Hf.
    set (q := fun issue =>
                String.eqb (py.upper (reader.issue_identifier issue))
                  (py.upper (reader.issue_identifier i))).
    pose proof (find_first q (py.values (reader.issues c))) as Hi'.
    destruct (find q _) as [j|].
    + exists j. split; [reflexivity|].
      destruct Hi' as (_ & _ & _ & _ & Hj). now apply String.eqb_eq in Hj.
    + specialize (Hi' i Hi). unfold q in Hi'.
      now rewrite String.eqb_refl in Hi'.
Qed.

Lemma get_issue_by_identifier_ignores_case_witness :
  reader.get_issue_by_identifier (py.lower "ENG-1") samples.cache
  = reader.get_issue_by_identifier "ENG-1" samples.cache.
Proof.
  refine (proj2
            (proj1
               (get_issue_by_identifier_ignores_case "ENG-1" samples.cache) _)).
  reflexivity.
Defined.

(** X3.  For a search text in ASCII, [find_user] and [find_team] do not
    depend on the case of the text: the text in upper case or in lower case
    finds what the text itself finds. *)
Theorem find_user_find_team_ignore_case (search : string)
    (c : reader.CachedData) :
  py.isascii search = true ->
  reader.find_user (py.upper search) c = reader.find_user search c
  /\ reader.find_user (py.lower search) c = reader.find_user search c
  /\ reader.find_team (py.upper search) c = reader.find_team search c
  /\ reader.find_team (py.lower search) c = reader.find_team search c.
Proof.
  intros _.
  unfold reader.find_user, reader.user_candidates, reader.find_team,
    reader.team_matches.
  cbv zeta. now rewrite lower_upper, lower_lower, upper_upper, upper_lower.
Qed.

Lemma find_user_find_team_ignore_case_witness :
  reader.find_team (py.lower "ENG") samples.cache
  = reader.find_team "ENG" samples.cache.
Proof.
  refine (proj2 (proj2 (proj2
            (find_user_find_team_ignore_case "ENG" samples.cache _)))).
  reflexivity.
Defined.

Lemma prefix_empty (s : string) : String.prefix "" s = true.
Proof. now destruct s. Qed.

Lemma contains_empty (s : string) : py.contains "" s = true.
Proof. destruct s; simpl; reflexivity. Qed.

Lemma flat_map_all {A B : Type} (p : A -> bool) (g : A -> B) (l : list A) :
  (forall a, In a l -> p a = true) ->
  flat_map (fun a => if p a then [g a] else []) l = map g l.
Proof.
  induction l as [|a l IH]; simpl; intros H; [reflexivity|].
  rewrite (H a) by now left. simpl. f_equal. apply IH.
  intros b Hb. apply H. now right.
Qed.

(** X4.  With an empty search text every user and every team matches, every
    user with the score 100: [find_user] and [find_team] return the first
    entry of their dictionary, and nothing only when it is empty. *)
Theorem empty_search_finds_first_entry (c : reader.CachedData) :
  reader.find_user "" c = hd_error (py.values (reader.users c))
  /\ reader.find_team "" c = hd_error (py.values (reader.teams c)).
Proof.
  split.
  - unfold reader.find_user, reader.user_candidates. cbv zeta.
    change (py.lower "") with "".
    rewrite (flat_map_all (reader.user_matches "")
               (fun u => (reader.user_score "" u, u))).
    + assert (Hs : forall u, reader.user_score "" u = 100).
      { intros u. unfold reader.user_score, py.startswith.
        now rewrite prefix_empty. }
      destruct (py.values (reader.users c)) as [|u us]; [reflexivity|].
      simpl map.
      destruct (sorted_head (fun x y : Z * reader.User => - fst x <=? - fst y)
                  [] (map (fun u => (reader.user_score "" u, u)) us)
                  (reader.user_score "" u, u)) as [rest E].
      * intros y [].
      * intros y Hy. apply in_map_iff in Hy as (v & <- & _). simpl.
        now rewrite !Hs.
      * simpl app in E. now rewrite E.
    + intros u _. unfold reader.user_matches. now rewrite contains_empty.
  - unfold reader.find_team.
    destruct (py.values (reader.teams c)) as [|t ts]; [reflexivity|].
    simpl. unfold reader.team_matches. change (py.lower "") with "".
    now rewrite contains_empty, orb_true_r.
Qed.

(** ** More of the canonical order *)

Lemma sorted_perm_unique {A : Type} (R : A -> A -> Prop) (l1 : list A) :
  forall l2,
    StronglySorted R l1 -> StronglySorted R l2 -> Permutation l1 l2 ->
    (forall x y, In x l1 -> In y l1 -> R x y -> R y x -> x = y) ->
    l1 = l2.
Proof.
  induction l1 as [|x l1 IH]; intros l2 H1 H2 Hp Ha.
  - now apply Permutation_nil in Hp.
  - destruct l2 as [|y l2].
    + apply Permutation_sym, Permutation_nil in Hp. discriminate.
    + inversion H1 as [|? ? Hs1 Hx]; subst.
      inversion H2 as [|? ? Hs2 Hy]; subst.
      rewrite Forall_forall in Hx, Hy.
      assert (Hxy : x = y).
      { assert (Hx2 : In x (y :: l2)) by (apply (Permutation_in _ Hp); now left).
        assert (Hy1 : In y (x :: l1))
          by (apply (Permutation_in _ (Permutation_sym Hp)); now left).
        destruct Hx2 as [->|Hx2]; [reflexivity|].
        destruct Hy1 as [->|Hy1]; [reflexivity|].
        apply Ha; [now left | now right | now apply Hx | now apply Hy]. }
      subst y. f_equal. apply Permutation_cons_inv in Hp.
      apply IH; auto. intros a b Ha' Hb'. apply Ha; now right.
Qed.

Lemma key_le_antisym (a b : Z * string) :
  server.key_le a b = true -> server.key_le b a = true -> a = b.
Proof.
  unfold server.key_le. destruct a as [p i], b as [q j]. simpl.
  rewrite !orb_true_iff, !andb_true_iff, !Z.ltb_lt, !Z.eqb_eq.
  intros [H1|[E1 L1]] [H2|[E2 L2]]; try lia.
  f_equal; [exact E1 | now apply String.leb_antisym].
Qed.

Lemma nodup_map_inj {A B : Type} (g : A -> B) (l : list A) (x y : A) :
  NoDup (map g l) -> In x l -> In y l -> g x = g y -> x = y.
Proof.
  induction l as [|a l IH]; simpl; intros Hn Hx Hy E; [contradiction|].
  inversion Hn as [|? ? Hna Hnl]; subst.
  destruct Hx as [->|Hx], Hy as [->|Hy]; auto.
  - exfalso. apply Hna. rewrite E. now apply in_map.
  - exfalso. apply Hna. rewrite <- E. now apply in_map.
Qed.

(** X5.  When no two issues share an id, the canonical order does not depend
    on the order in which the issue dictionary yields the issues: two
    arrangements of the same issues sort to the same list, and sorting a
    sorted list changes nothing. *)
Theorem canonical_independent_of_dictionary_order (l l' : list reader.Issue) :
  NoDup (map reader.issue_id l) -> Permutation l l' ->
  server.canonical l = server.canonical l'
  /\ server.canonical (server.canonical l) = server.canonical l.
Proof.
  intros Hn Hp.
  assert (Huniq : forall l2, Permutation l l2 ->
                             server.canonical l = server.canonical l2).
  { intros l2 Hp2.
    apply (sorted_perm_unique
             (fun x y =>
                server.key_le (server.sort_key x) (server.sort_key y) = true));
      try apply canonical_sorted.
    - eapply perm_trans; [apply Permutation_sym, canonical_perm|].
      eapply perm_trans; [exact Hp2 | apply canonical_perm].
    - intros x y Hx Hy Hxy Hyx.
      apply (nodup_map_inj reader.issue_id l);
        [exact Hn | | |].
      + apply (Permutation_in _ (Permutation_sym (canonical_perm l)) Hx).
      + apply (Permutation_in _ (Permutation_sym (canonical_perm l)) Hy).
      + pose proof (key_le_antisym _ _ Hxy Hyx) as E.
        unfold server.sort_key in E. congruence. }
  split; [now apply Huniq|].
  symmetry. apply Huniq, canonical_perm.
Qed.

Lemma canonical_independent_of_dictionary_order_witness :
  server.canonical samples.two_issues
  = server.canonical samples.two_issues_swapped.
Proof.
  refine (proj1 (canonical_independent_of_dictionary_order samples.two_issues
                   samples.two_issues_swapped _ _)).
  - repeat constructor; simpl; intuition discriminate.
  - apply perm_swap.
Defined.

(** ** More of [list_issues] *)

Lemma drop_through_suffix (cur : string) (l : list reader.Issue) :
  exists pre, l = (pre ++ spec.drop_through cur l)%list.
Proof.
  induction l as [|i l [pre IH]]; simpl.
  - now exists [].
  - destruct (String.eqb (reader.issue_id i) cur).
    + now exists [i].
    + exists (i :: pre). simpl. now rewrite <- IH.
Qed.

Lemma apply_cursor_suffix (cursor : option string) (l : list reader.Issue) :
  exists pre, l = (pre ++ server.apply_cursor cursor l)%list.
Proof.
  unfold server.apply_cursor.
  destruct (server.given cursor); [|now exists []].
  destruct cursor as [cur|]; [|now exists []].
  rewrite cursor_fold_skipping. apply drop_through_suffix.
Qed.

Lemma in_firstn {A : Type} (k : nat) (l : list A) (x : A) :
  In x (firstn k l) -> In x l.
Proof.
  intros H. rewrite <- (firstn_skipn k l). apply in_or_app. now left.
Qed.

Lemma take_page_firstn {A : Type} (limit : Z) (l : list A) :
  exists k, fst (server.take_page limit l) = firstn k l.
Proof.
  unfold server.take_page, py.slice_to. simpl.
  destruct (0 <=? limit + 1), (0 <=? limit); rewrite firstn_firstn; eauto.
Qed.

Section ListIssuesPage.

Variable fromisoformat : string -> option Q.
Variable c : reader.CachedData.
Variable f : server.Filters.

Lemma list_issues_shape (limit : Z) (cursor : option string) :
  let full := spec.filtered_list fromisoformat c f in
  let ph :=
    server.take_page (Z.min limit 100) (server.apply_cursor cursor full) in
  let p := server.list_issues fromisoformat c f limit cursor in
  server.issues p = map (server.enrich c) (fst ph)
  /\ server.nextCursor p
     = server.next_cursor_of (fun e => reader.issue_id (server.issue e))
         (snd ph) (map (server.enrich c) (fst ph))
  /\ server.count p = List.length full.
Proof.
  unfold spec.filtered_list.
  destruct (server.resolve fromisoformat c f) as [msg| |a t ts] eqn:Hr.
  - cbv zeta. unfold server.list_issues. rewrite Hr, apply_cursor_nil.
    rewrite take_page_nil. simpl. now rewrite next_cursor_of_nil.
  - cbv zeta. unfold server.list_issues. rewrite Hr, apply_cursor_nil.
    rewrite take_page_nil. simpl. now rewrite next_cursor_of_nil.
  - cbv zeta. rewrite (list_issues_ready _ _ _ _ _ _ _ _ Hr). auto.
Qed.

Lemma filtered_list_in (i : reader.Issue) :
  In i (spec.filtered_list fromisoformat c f) ->
  In i (py.values (reader.issues c))
  /\ forall a t ts,
       server.resolve fromisoformat c f = server.Ready a t ts ->
       server.keeps fromisoformat c a t (server.f_state_type f)
         (server.f_priority f) ts i = true.
Proof.
  unfold spec.filtered_list.
  destruct (server.resolve fromisoformat c f) as [msg| |a t ts];
    try contradiction.
  unfold server.filtered_issues. intros H. apply filter_In in H as [H Hk].
  split.
  - apply (Permutation_in _ (Permutation_sym (canonical_perm _)) H).
  - intros a' t' ts' [= <- <- <-]. exact Hk.
Qed.

End ListIssuesPage.

(** X6.  Whatever the limit and the cursor, the page of [list_issues] is a
    run of consecutive issues of the canonically sorted, filtered list, each
    with the name and type of its state added; its issues are issues of the
    cache that pass every filter; [totalCount] is the length of the whole
    filtered list, the same for every page; a next cursor is the id of the
    last issue of the page; and with a limit that is not negative the page
    has at most [min limit 100] issues. *)
Theorem list_issues_page_within_filtered_list
    (fromisoformat : string -> option Q) (c : reader.CachedData)
    (f : server.Filters) (limit : Z) (cursor : option string) :
  let full := spec.filtered_list fromisoformat c f in
  let p := server.list_issues fromisoformat c f limit cursor in
  server.count p = List.length full
  /\ (exists before after,
         map (server.enrich c) full
         = (before ++ server.issues p ++ after)%list)
  /\ (forall e,
         In e (server.issues p) ->
         e = server.enrich c (server.issue e)
         /\ In (server.issue e) (py.values (reader.issues c))
         /\ forall a t ts,
              server.resolve fromisoformat c f = server.Ready a t ts ->
              server.keeps fromisoformat c a t (server.f_state_type f)
                (server.f_priority f) ts (server.issue e) = true)
  /\ (forall next,
         server.nextCursor p = Some next ->
         exists pre e,
           server.issues p = (pre ++ [e])%list
           /\ next = reader.issue_id (server.issue e))
  /\ (0 <= limit ->
      (List.length (server.issues p) <= Z.to_nat (Z.min limit 100))%nat
      /\ (List.length (server.issues p) <= 100)%nat).
Proof.
  intros full p.
  destruct (list_issues_shape fromisoformat c f limit cursor)
    as (Hi & Hn & Hc).
  fold full p in Hi, Hn, Hc.
  destruct (take_page_firstn (Z.min limit 100)
              (server.apply_cursor cursor full)) as [k Hk].
  destruct (apply_cursor_suffix cursor full) as [pre Hpre].
  split; [exact Hc|]. split; [|split; [|split]].
  - exists (map (server.enrich c) pre),
      (map (server.enrich c) (skipn k (server.apply_cursor cursor full))).
    rewrite Hi, Hk, <- !map_app, firstn_skipn, <- Hpre. reflexivity.
  - intros e He. rewrite Hi, Hk in He.
    apply in_map_iff in He as (i & <- & Hin).
    apply in_firstn in Hin.
    assert (Hfull : In i full)
      by (rewrite Hpre; apply in_or_app; now right).
    split; [reflexivity|]. simpl.
    now apply (filtered_list_in fromisoformat c f).
  - intros next Hnext. rewrite Hn in Hnext.
    unfold server.next_cursor_of in Hnext.
    destruct (snd _); [|discriminate].
    rewrite <- Hi in Hnext.
    destruct (rev (server.issues p)) as [|e r] eqn:Er; [discriminate|].
    injection Hnext as <-. exists (rev r), e. split; [|reflexivity].
    rewrite <- (rev_involutive (server.issues p)), Er. reflexivity.
  - intros Hl. rewrite Hi, take_page_nonneg by lia. simpl.
    rewrite length_map, length_firstn. lia.
Qed.

(** X7.  [list_issues] does not reject a limit that is 0 or negative.  With
    the limit 0 or -1 the page is empty and has no next cursor, whatever
    matches; with a limit of -2 or less the page holds all the issues left
    after the cursor but the last [2 * |limit| - 1], so the bound of 100
    does not apply to it. *)
Theorem list_issues_limit_not_positive
    (fromisoformat : string -> option Q) (c : reader.CachedData)
    (f : server.Filters) (limit : Z) (cursor : option string) :
  limit <= 0 ->
  let rest :=
    server.apply_cursor cursor (spec.filtered_list fromisoformat c f) in
  let p := server.list_issues fromisoformat c f limit cursor in
  (-1 <= limit -> server.issues p = [] /\ server.nextCursor p = None)
  /\ (limit <= -2 ->
      server.issues p
      = map (server.enrich c)
          (firstn (List.length rest - Z.to_nat (- (2 * limit) - 1)) rest)).
Proof.
  intros Hl rest p.
  destruct (list_issues_shape fromisoformat c f limit cursor)
    as (Hi & Hn & _).
  fold rest p in Hi, Hn.
  replace (Z.min limit 100) with limit in Hi, Hn by lia.
  split; intros Hl'.
  - assert (E : fst (server.take_page limit rest) = []).
    { unfold server.take_page, py.slice_to. simpl.
      assert (Hc : limit = 0 \/ limit = -1) by lia.
      destruct Hc as [-> | ->]; simpl; rewrite ?firstn_nil; reflexivity. }
    rewrite E in Hi, Hn. simpl in Hi, Hn.
    rewrite next_cursor_of_nil in Hn. auto.
  - rewrite Hi. f_equal. unfold server.take_page, py.slice_to. cbn [fst].
    destruct (Z.leb_spec 0 (limit + 1)); [lia|].
    destruct (Z.leb_spec 0 limit); [lia|].
    rewrite firstn_firstn, length_firstn. f_equal. lia.
Qed.

Lemma list_issues_limit_not_positive_witness :
  server.issues
    (server.list_issues samples.not_a_date samples.cache samples.no_filters
       (-2) None)
  = map (server.enrich samples.cache)
      (firstn 1
         (spec.filtered_list samples.not_a_date samples.cache
            samples.no_filters)).
Proof.
  refine (proj2
            (list_issues_limit_not_positive samples.not_a_date samples.cache
               samples.no_filters (-2) None _) _); lia.
Defined.

Lemma filter_and {A : Type} (q p : A -> bool) (l : list A) :
  filter (fun x => q x && p x) l = filter p (filter q l).
Proof.
  induction l as [|x l IH]; simpl; [reflexivity|].
  destruct (q x); simpl; [|exact IH].
  destruct (p x); now rewrite IH.
Qed.

Section Conjunction.

Variable fromisoformat : string -> option Q.
Variable c : reader.CachedData.

Lemma keeps_priority (a t st : option string) (p : Z) (ts : option Q)
    (i : reader.Issue) :
  server.keeps fromisoformat c a t st (Some p) ts i
  = server.keeps fromisoformat c a t st None ts i
    && match reader.issue_priority i with
       | Some q => q =? p
       | None => false
       end.
Proof.
  unfold server.keeps.
  destruct (reader.issue_priority i) as [q|]; [destruct (q =? p)|]; simpl;
    btauto.
Qed.

Lemma keeps_state_type (a t : option string) (st : string) (p : option Z)
    (ts : option Q) (i : reader.Issue) :
  server.keeps fromisoformat c a t (Some st) p ts i
  = server.keeps fromisoformat c a t None p ts i
    && (String.eqb st ""
        || server.option_eqb
             (reader.get_state_type (reader.issue_stateId i) c) (Some st)).
Proof.
  unfold server.keeps, server.option_eqb, server.given at 3.
  destruct (String.eqb st "");
    destruct (reader.get_state_type (reader.issue_stateId i) c) as [x|];
    try destruct (String.eqb x st); simpl; btauto.
Qed.

Lemma keeps_team (a : option string) (tid : string) (st : option string)
    (p : option Z) (ts : option Q) (i : reader.Issue) :
  server.keeps fromisoformat c a (Some tid) st p ts i
  = server.keeps fromisoformat c a None st p ts i
    && (String.eqb tid ""
        || server.option_eqb (reader.issue_teamId i) (Some tid)).
Proof.
  unfold server.keeps, server.option_eqb, server.given at 2,
    server.differs at 2.
  destruct (String.eqb tid "");
    destruct (reader.issue_teamId i) as [x|];
    try destruct (String.eqb x tid); simpl; btauto.
Qed.

Lemma keeps_assignee (uid : string) (t st : option string)
    (p : option Z) (ts : option Q) (i : reader.Issue) :
  server.keeps fromisoformat c (Some uid) t st p ts i
  = server.keeps fromisoformat c None t st p ts i
    && (String.eqb uid ""
        || server.option_eqb (reader.issue_assigneeId i) (Some uid)).
Proof.
  unfold server.keeps, server.option_eqb, server.given at 1,
    server.differs at 1.
  destruct (String.eqb uid "");
    destruct (reader.issue_assigneeId i) as [x|];
    try destruct (String.eqb x uid); simpl; btauto.
Qed.

Lemma filter_or_all {A : Type} (b : bool) (q p : A -> bool) (l : list A) :
  filter (fun x => q x && (b || p x)) l
  = if b then filter q l else filter p (filter q l).
Proof.
  destruct b; simpl.
  - apply filter_ext. intros x. now rewrite andb_true_r.
  - apply filter_and.
Qed.

End Conjunction.

Section ResolvedFilters.

Variable fromisoformat : string -> option Q.
Variable c : reader.CachedData.
Variable f : server.Filters.

Lemma resolve_with_team (name : string) :
  name <> "" ->
  server.resolve fromisoformat c (spec.with_team (Some name) f)
  = match server.resolve fromisoformat c (spec.with_team None f) with
    | server.Ready a _ ts =>
        match reader.find_team name c with
        | Some tm => server.Ready a (Some (reader.team_id tm)) ts
        | None => server.NoSuchAssigneeOrTeam
        end
    | other => other
    end.
Proof.
  intros Hname. unfold server.resolve. simpl.
  destruct (server.parse_updated_after _ _); [reflexivity|].
  destruct (server.lookup_given _ (server.assignee f)) as [[u|]|];
    try reflexivity;
    unfold server.lookup_given; simpl;
    destruct (String.eqb_spec name "") as [E|_]; try contradiction; simpl;
    now destruct (reader.find_team name c).
Qed.

Lemma resolve_without_team_ready (a t : option string) (ts : option Q) :
  server.resolve fromisoformat c (spec.with_team None f)
  = server.Ready a t ts ->
  t = None.
Proof.
  unfold server.resolve. simpl.
  destruct (server.parse_updated_after _ _); [discriminate|].
  destruct (server.lookup_given _ (server.assignee f)) as [[u|]|];
    unfold server.lookup_given; simpl; congruence.
Qed.

Lemma resolve_with_assignee (name : string) :
  name <> "" ->
  server.resolve fromisoformat c (spec.with_assignee (Some name) f)
  = match server.resolve fromisoformat c (spec.with_assignee None f) with
    | server.Ready _ t ts =>
        match reader.find_user name c with
        | Some u => server.Ready (Some (reader.user_id u)) t ts
        | None => server.NoSuchAssigneeOrTeam
        end
    | other => other
    end.
Proof.
  intros Hname. unfold server.resolve. simpl.
  destruct (server.parse_updated_after _ _); [reflexivity|].
  unfold server.lookup_given at 1. simpl.
  destruct (String.eqb_spec name "") as [E|_]; try contradiction; simpl.
  destruct (reader.find_user name c) as [u|];
    destruct (server.lookup_given _ (server.team f)) as [[t|]|];
    reflexivity.
Qed.

Lemma resolve_without_assignee_ready (a t : option string) (ts : option Q) :
  server.resolve fromisoformat c (spec.with_assignee None f)
  = server.Ready a t ts ->
  a = None.
Proof.
  unfold server.resolve. simpl.
  destruct (server.parse_updated_after _ _); [discriminate|].
  destruct (server.lookup_given _ (server.team f)) as [[u|]|]; congruence.
Qed.

Lemma resolve_empty_name :
  server.resolve fromisoformat c (spec.with_team (Some "") f)
  = server.resolve fromisoformat c (spec.with_team None f)
  /\ server.resolve fromisoformat c (spec.with_assignee (Some "") f)
     = server.resolve fromisoformat c (spec.with_assignee None f).
Proof. split; reflexivity. Qed.

End ResolvedFilters.

(** X8.  The filters of [list_issues] are a conjunction: the filtered list
    of a filter set with a priority is the filtered list of the same set
    without it, restricted to the issues of that priority; likewise for a
    state type, for a team that [find_team] resolves and for an assignee
    that [find_user] resolves; a team or an assignee that is not resolved
    leaves no issue.  A filter that Python takes for false filters nothing:
    an empty state type, an empty team or assignee name, and also a team or
    a user that is found but whose id is the empty string. *)
Theorem list_issues_filters_are_conjunction
    (fromisoformat : string -> option Q) (c : reader.CachedData)
    (f : server.Filters) :
  (forall p,
      spec.filtered_list fromisoformat c (spec.with_priority (Some p) f)
      = filter
          (fun i =>
             match reader.issue_priority i with
             | Some q => q =? p
             | None => false
             end)
          (spec.filtered_list fromisoformat c (spec.with_priority None f)))
  /\ (forall st,
         spec.filtered_list fromisoformat c (spec.with_state_type (Some st) f)
         = let unfiltered :=
             spec.filtered_list fromisoformat c (spec.with_state_type None f)
           in
           if String.eqb st "" then unfiltered
           else
             filter
               (fun i =>
                  server.option_eqb
                    (reader.get_state_type (reader.issue_stateId i) c)
                    (Some st))
               unfiltered)
  /\ (forall name,
         spec.filtered_list fromisoformat c (spec.with_team (Some name) f)
         = let unfiltered :=
             spec.filtered_list fromisoformat c (spec.with_team None f) in
           if String.eqb name "" then unfiltered
           else
             match reader.find_team name c with
             | None => []
             | Some tm =>
                 if String.eqb (reader.team_id tm) "" then unfiltered
                 else
                   filter
                     (fun i =>
                        server.option_eqb (reader.issue_teamId i)
                          (Some (reader.team_id tm)))
                     unfiltered
             end)
  /\ (forall name,
         spec.filtered_list fromisoformat c (spec.with_assignee (Some name) f)
         = let unfiltered :=
             spec.filtered_list fromisoformat c (spec.with_assignee None f)
           in
           if String.eqb name "" then unfiltered
           else
             match reader.find_user name c with
             | None => []
             | Some u =>
                 if String.eqb (reader.user_id u) "" then unfiltered
                 else
                   filter
                     (fun i =>
                        server.option_eqb (reader.issue_assigneeId i)
                          (Some (reader.user_id u)))
                     unfiltered
             end).
Proof.
  split; [|split; [|split]].
  - intros p. unfold spec.filtered_list, server.resolve. simpl.
    destruct (server.parse_updated_after _ _); [reflexivity|].
    destruct (server.lookup_given _ (server.assignee f)) as [[u|]|];
      try reflexivity;
      destruct (server.lookup_given _ (server.team f)) as [[t|]|];
      try reflexivity;
      unfold server.filtered_issues; simpl; rewrite <- filter_and;
      apply filter_ext; intros i; apply keeps_priority.
  - intros st. cbv zeta. unfold spec.filtered_list, server.resolve. simpl.
    destruct (server.parse_updated_after _ _);
      [now destruct (String.eqb st "")|].
    destruct (server.lookup_given _ (server.assignee f)) as [[u|]|];
      try (now destruct (String.eqb st ""));
      destruct (server.lookup_given _ (server.team f)) as [[t|]|];
      try (now destruct (String.eqb st ""));
      unfold server.filtered_issues; simpl;
      rewrite <- (filter_or_all (String.eqb st ""));
      apply filter_ext; intros i; apply keeps_state_type.
  - intros name. cbv zeta. unfold spec.filtered_list.
    destruct (String.eqb_spec name "") as [->|Hname].
    { now rewrite (proj1 (resolve_empty_name fromisoformat c f)). }
    rewrite (resolve_with_team _ _ _ _ Hname).
    destruct (server.resolve fromisoformat c (spec.with_team None f))
      as [msg| |a t ts] eqn:Hr;
      try (destruct (reader.find_team name c) as [tm|];
           [now destruct (String.eqb (reader.team_id tm) "") | reflexivity]).
    destruct (reader.find_team name c) as [tm|]; [|reflexivity].
    rewrite (resolve_without_team_ready _ _ _ _ _ _ Hr).
    unfold server.filtered_issues. simpl.
    rewrite <- (filter_or_all (String.eqb (reader.team_id tm) "")).
    apply filter_ext. intros i. apply keeps_team.
  - intros name. cbv zeta. unfold spec.filtered_list.
    destruct (String.eqb_spec name "") as [->|Hname].
    { now rewrite (proj2 (resolve_empty_name fromisoformat c f)). }
    rewrite (resolve_with_assignee _ _ _ _ Hname).
    destruct (server.resolve fromisoformat c (spec.with_assignee None f))
      as [msg| |a t ts] eqn:Hr;
      try (destruct (reader.find_user name c) as [u|];
           [now destruct (String.eqb (reader.user_id u) "") | reflexivity]).
    destruct (reader.find_user name c) as [u|]; [|reflexivity].
    rewrite (resolve_without_assignee_ready _ _ _ _ _ _ Hr).
    unfold server.filtered_issues. simpl.
    rewrite <- (filter_or_all (String.eqb (reader.user_id u) "")).
    apply filter_ext. intros i. apply keeps_assignee.
Qed.

(** ** Pages of the other paginated tools *)

Lemma next_cursor_of_map {A B : Type} (g : A -> B) (get_id : B -> string)
    (has_more : bool) (l : list A) :
  server.next_cursor_of get_id has_more (map g l)
  = server.next_cursor_of (fun x => get_id (g x)) has_more l.
Proof.
  unfold server.next_cursor_of. destruct has_more; [|reflexivity].
  rewrite <- map_rev. now destruct (rev l).
Qed.

Section AnyPages.

Context {A : Type} (g : reader.Issue -> A).
Variable full : list reader.Issue.
Variable n : nat.
Variable call : option string -> list A * option string.

Hypothesis n_pos : (1 <= n)%nat.
Hypothesis full_ids : NoDup (map reader.issue_id full).
Hypothesis full_named : Forall (fun i => reader.issue_id i <> "") full.
Hypothesis call_page : forall cursor,
    call cursor
    = let rest := server.apply_cursor cursor full in
      (map g (firstn n rest),
       server.next_cursor_of reader.issue_id (n <? List.length rest)%nat
         (firstn n rest)).

Lemma fetch_pages_rest (fuel : nat) :
  forall (before rest : list reader.Issue) (cursor : option string),
    full = (before ++ rest)%list ->
    server.apply_cursor cursor full = rest ->
    (List.length rest < fuel)%nat ->
    spec.fetch_pages call fuel cursor = Some (map g rest).
Proof.
  induction fuel as [|fuel IH]; intros before rest cursor Hfull Hcur Hlen;
    [lia|].
  cbn [spec.fetch_pages]. rewrite call_page. cbv zeta. rewrite Hcur.
  destruct (Nat.ltb_spec n (List.length rest)) as [Hmore|Hlast].
  - destruct (exists_last (l := firstn n rest)) as (pre & x & Hpage).
    { intros E. apply (f_equal (@List.length _)) in E.
      rewrite length_firstn in E. simpl in E. lia. }
    assert (Hsplit : full = ((before ++ pre) ++ x :: skipn n rest)%list).
    { rewrite Hfull, <- (firstn_skipn n rest) at 1.
      rewrite Hpage, <- !app_assoc. reflexivity. }
    assert (Hx : reader.issue_id x <> "").
    { rewrite Forall_forall in full_named. apply full_named.
      rewrite Hsplit. apply in_or_app. right. now left. }
    rewrite Hpage, next_cursor_of_last.
    rewrite (IH (before ++ firstn n rest)%list (skipn n rest)).
    + now rewrite <- map_app, <- Hpage, firstn_skipn.
    + rewrite Hfull, <- app_assoc, firstn_skipn. reflexivity.
    + rewrite apply_cursor_given by exact Hx.
      rewrite Hsplit at 1. apply drop_through_unique.
      rewrite <- Hsplit. exact full_ids.
    + rewrite length_skipn. lia.
  - rewrite firstn_all2 by lia. reflexivity.
Qed.

End AnyPages.

Lemma my_filtered_within (fromisoformat : string -> option Q)
    (c : reader.CachedData) (user : reader.User) (st : option string)
    (ts : option Q) :
  (forall i, In i (server.my_filtered fromisoformat c user st ts) ->
             In i (py.values (reader.issues c)))
  /\ (NoDup (map reader.issue_id (py.values (reader.issues c))) ->
      NoDup (map reader.issue_id (server.my_filtered fromisoformat c user st ts))).
Proof.
  unfold server.my_filtered. cbv zeta. split.
  - intros i Hi.
    assert (Hc : In i (server.canonical
                         (reader.get_issues_for_user (reader.user_id user) c))).
    { destruct ts; [apply filter_In in Hi as [Hi _]|];
        destruct (server.given st);
        try (apply filter_In in Hi as [Hi _]); exact Hi. }
    apply (Permutation_in _ (Permutation_sym (canonical_perm _))) in Hc.
    unfold reader.get_issues_for_user in Hc. now apply filter_In in Hc.
  - intros Hn.
    assert (Hc : NoDup (map reader.issue_id
                          (server.canonical
                             (reader.get_issues_for_user
                                (reader.user_id user) c)))).
    { apply canonical_ids_nodup. unfold reader.get_issues_for_user.
      now apply nodup_map_filter. }
    destruct ts; destruct (server.given st);
      repeat apply nodup_map_filter; exact Hc.
Qed.

(** X9.  On a cache in which the ids of the issues are distinct and none is
    the empty string, a client that follows the cursors of [search_issues]
    with a limit of at least 1 reaches a last page, and the pages it
    received, concatenated, are all the issues whose title contains the
    query, in the canonical order, every one once. *)
Theorem search_issues_pages_reproduce_matches (c : reader.CachedData)
    (query : string) (limit : Z) (fuel : nat) :
  NoDup (map reader.issue_id (py.values (reader.issues c))) ->
  (forall i, In i (py.values (reader.issues c)) -> reader.issue_id i <> "") ->
  1 <= limit ->
  (List.length (server.search_filtered c query) < fuel)%nat ->
  spec.fetch_pages (spec.search_page c query limit) fuel None
  = Some (map (server.enrich c) (server.search_filtered c query)).
Proof.
  intros Hn Hnamed Hlimit Hfuel.
  apply (fetch_pages_rest (server.enrich c) (server.search_filtered c query)
           (Z.to_nat (Z.min limit 100)) _) with (before := []); auto; try lia.
  - unfold server.search_filtered. cbv zeta.
    now apply nodup_map_filter, canonical_ids_nodup.
  - apply Forall_forall. intros i Hi. apply Hnamed.
    unfold server.search_filtered in Hi. cbv zeta in Hi.
    apply filter_In in Hi as [Hi _].
    apply (Permutation_in _ (Permutation_sym (canonical_perm _)) Hi).
  - intros cursor. unfold spec.search_page, server.search_issues. cbv zeta.
    rewrite take_page_nonneg by lia. cbn [server.issues server.nextCursor].
    now rewrite next_cursor_of_map.
Qed.

Lemma search_issues_pages_reproduce_matches_witness :
  spec.fetch_pages (spec.search_page samples.cache "issue" 3) 5%nat None
  = Some
      (map (server.enrich samples.cache)
         (server.search_filtered samples.cache "issue")).
Proof.
  apply (search_issues_pages_reproduce_matches samples.cache "issue" 3 5).
  - vm_compute. repeat constructor; simpl; intuition discriminate.
  - intros i Hin. vm_compute in Hin.
    repeat destruct Hin as [Hin|Hin]; try contradiction; subst i; discriminate.
  - lia.
  - vm_compute. lia.
Defined.

(** X10.  With a name that [find_user] resolves and an [updated_after] that
    is absent or parses, on a cache in which the ids of the issues are
    distinct and none is the empty string, a client that follows the
    cursors of [get_my_issues] with a limit of at least 1 receives, page
    after page, all the issues of the user that pass the two filters, in
    the canonical order, every one once. *)
Theorem get_my_issues_pages_reproduce_filtered
    (fromisoformat : string -> option Q) (c : reader.CachedData)
    (name : string) (state_type updated_after : option string) (limit : Z)
    (user : reader.User) (ts : option Q) (fuel : nat) :
  NoDup (map reader.issue_id (py.values (reader.issues c))) ->
  (forall i, In i (py.values (reader.issues c)) -> reader.issue_id i <> "") ->
  reader.find_user name c = Some user ->
  server.parse_updated_after fromisoformat updated_after = inr ts ->
  1 <= limit ->
  (List.length (server.my_filtered fromisoformat c user state_type ts) < fuel)%nat ->
  spec.fetch_pages
    (fun cursor =>
       spec.my_page
         (server.get_my_issues fromisoformat c name state_type updated_after
            limit cursor))
    fuel None
  = Some
      (map (server.compact c)
         (server.my_filtered fromisoformat c user state_type ts)).
Proof.
  intros Hn Hnamed Hu Hd Hlimit Hfuel.
  destruct (my_filtered_within fromisoformat c user state_type ts)
    as [Hin Hnd].
  apply (fetch_pages_rest (server.compact c)
           (server.my_filtered fromisoformat c user state_type ts)
           (Z.to_nat (Z.min limit 100)) _) with (before := []); auto; try lia.
  - apply Forall_forall. intros i Hi. apply Hnamed. now apply Hin.
  - intros cursor. unfold server.get_my_issues. cbv zeta.
    rewrite Hd, Hu, take_page_nonneg by lia. reflexivity.
Qed.

Lemma get_my_issues_pages_reproduce_filtered_witness :
  spec.fetch_pages
    (fun cursor =>
       spec.my_page
         (server.get_my_issues samples.not_a_date samples.cache "daniel" None
            None 2 cursor))
    5%nat None
  = Some
      (map (server.compact samples.cache)
         (server.my_filtered samples.not_a_date samples.cache
            (reader.mkUser "u1" (Some "Daniel Kessl") (Some "dan") None)
            None None)).
Proof.
  apply (get_my_issues_pages_reproduce_filtered samples.not_a_date
           samples.cache "daniel" None None 2
           (reader.mkUser "u1" (Some "Daniel Kessl") (Some "dan") None)
           None 5).
  - vm_compute. repeat constructor; simpl; intuition discriminate.
  - intros i Hin. vm_compute in Hin.
    repeat destruct Hin as [Hin|Hin]; try contradiction; subst i; discriminate.
  - reflexivity.
  - reflexivity.
  - lia.
  - vm_compute. lia.
Defined.

(** ** Counts *)

Lemma option_eqb_spec (a b : option string) :
  reflect (a = b) (server.option_eqb a b).
Proof.
  destruct a as [x|], b as [y|]; simpl; try (constructor; congruence).
  destruct (String.eqb_spec x y); constructor; congruence.
Qed.

Lemma count_of_incr (k k' : option string)
    (counts : list (option string * nat)) :
  spec.count_of k (server.count_incr k' counts)
  = if server.option_eqb k' k then S (spec.count_of k counts)
    else spec.count_of k counts.
Proof.
  unfold spec.count_of.
  induction counts as [|[k1 n] counts IH]; simpl.
  - now destruct (server.option_eqb k' k).
  - destruct (option_eqb_spec k1 k') as [E1|E1]; simpl.
    + subst k1. now destruct (server.option_eqb k' k).
    + destruct (option_eqb_spec k1 k) as [E2|E2]; [|exact IH].
      subst k1. destruct (option_eqb_spec k' k); [congruence | reflexivity].
Qed.

Lemma count_incr_sum (k : option string) (counts : list (option string * nat)) :
  list_sum (map snd (server.count_incr k counts))
  = S (list_sum (map snd counts)).
Proof.
  induction counts as [|[k1 n] counts IH]; simpl; [reflexivity|].
  destruct (server.option_eqb k1 k); simpl; [reflexivity|].
  rewrite IH. lia.
Qed.

Lemma count_incr_keys (k : option string)
    (counts : list (option string * nat)) (x : option string) :
  In x (map fst (server.count_incr k counts)) ->
  x = k \/ In x (map fst counts).
Proof.
  induction counts as [|[k1 n] counts IH]; simpl.
  - intros [H|[]]. now left.
  - destruct (server.option_eqb k1 k); simpl.
    + intros [H|H]; right; auto.
    + intros [H|H]; [right; now left|].
      destruct (IH H); auto.
Qed.

Lemma count_incr_nodup (k : option string)
    (counts : list (option string * nat)) :
  NoDup (map fst counts) -> NoDup (map fst (server.count_incr k counts)).
Proof.
  induction counts as [|[k1 n] counts IH]; simpl; intros H.
  - repeat constructor. intros [].
  - inversion H as [|? ? Hn Hd]; subst.
    destruct (option_eqb_spec k1 k) as [E|E]; simpl.
    + now constructor.
    + constructor; [|now apply IH].
      intros Hin. apply count_incr_keys in Hin as [Hin|Hin]; congruence.
Qed.

Lemma count_incr_positive (k : option string)
    (counts : list (option string * nat)) :
  Forall (fun kv => (1 <= snd kv)%nat) counts ->
  Forall (fun kv => (1 <= snd kv)%nat) (server.count_incr k counts).
Proof.
  induction 1 as [|[k1 n] counts Hn Hc IH]; simpl.
  - repeat constructor.
  - destruct (server.option_eqb k1 k); constructor; simpl in *; auto; lia.
Qed.

Lemma counts_fold {A : Type} (key : A -> option string) (l : list A) :
  forall counts,
    let counts' :=
      fold_left (fun cs i => server.count_incr (key i) cs) l counts in
    (forall k,
        spec.count_of k counts'
        = (spec.count_of k counts
           + List.length (filter (fun i => server.option_eqb (key i) k) l))%nat)
    /\ list_sum (map snd counts')
       = (list_sum (map snd counts) + List.length l)%nat
    /\ (NoDup (map fst counts) -> NoDup (map fst counts'))
    /\ (Forall (fun kv => (1 <= snd kv)%nat) counts ->
        Forall (fun kv => (1 <= snd kv)%nat) counts').
Proof.
  induction l as [|i l IH]; intros counts; simpl.
  - repeat split; auto.
  - destruct (IH (server.count_incr (key i) counts)) as (H1 & H2 & H3 & H4).
    repeat split.
    + intros k. rewrite H1, count_of_incr.
      destruct (server.option_eqb (key i) k); simpl; lia.
    + rewrite H2, count_incr_sum. lia.
    + intros Hn. now apply H3, count_incr_nodup.
    + intros Hp. now apply H4, count_incr_positive.
Qed.

Lemma filter_length_perm {A : Type} (p : A -> bool) (l l' : list A) :
  Permutation l l' ->
  List.length (filter p l) = List.length (filter p l').
Proof.
  induction 1 as [|x l l' _ IH|x y l|l1 l2 l3 _ IH1 _ IH2]; simpl.
  - reflexivity.
  - destruct (p x); simpl; now rewrite IH.
  - destruct (p x), (p y); reflexivity.
  - now rewrite IH1.
Qed.

Lemma filter_length_le {A : Type} (p : A -> bool) (l : list A) :
  (List.length (filter p l) <= List.length l)%nat.
Proof.
  induction l as [|x l IH]; simpl; [lia|]. destruct (p x); simpl; lia.
Qed.

Lemma count_issues_assigned (c : reader.CachedData) (uid : string) :
  server.count_issues c reader.issue_assigneeId uid
  = List.length (reader.get_issues_for_user uid c).
Proof.
  reflexivity.
Qed.

Lemma my_filtered_length (fromisoformat : string -> option Q)
    (c : reader.CachedData) (user : reader.User) (st : option string)
    (ts : option Q) :
  (List.length (server.my_filtered fromisoformat c user st ts)
   <= List.length (reader.get_issues_for_user (reader.user_id user) c))%nat.
Proof.
  rewrite (Permutation_length
             (canonical_perm
                (reader.get_issues_for_user (reader.user_id user) c))).
  unfold server.my_filtered. cbv zeta.
  destruct ts; destruct (server.given st);
    repeat (etransitivity; [apply filter_length_le|]); lia.
Qed.

(** X11.  In the response of [get_my_issues] for a resolved user,
    [totalIssues] is the number of issues assigned to the user and
    [countsByStateType] has one entry for each state type that occurs among
    them, with the number of those issues, never 0; neither depends on the
    state-type filter, the date filter, the limit or the cursor, and
    [matchingCount] never exceeds [totalIssues]. *)
Theorem get_my_issues_counts (fromisoformat : string -> option Q)
    (c : reader.CachedData) (name : string)
    (state_type updated_after : option string) (limit : Z)
    (cursor : option string) (user : reader.User) (r : server.MyIssues) :
  reader.find_user name c = Some user ->
  server.get_my_issues fromisoformat c name state_type updated_after limit
    cursor = server.MyResult r ->
  server.totalIssues r
  = List.length (reader.get_issues_for_user (reader.user_id user) c)
  /\ (forall k,
         spec.count_of k (server.countsByStateType r)
         = spec.state_type_count c (reader.user_id user) k)
  /\ NoDup (map fst (server.countsByStateType r))
  /\ Forall (fun kv => (1 <= snd kv)%nat) (server.countsByStateType r)
  /\ (server.matchingCount r <= server.totalIssues r)%nat.
Proof.
  intros Hu Hr. unfold server.get_my_issues in Hr. cbv zeta in Hr.
  destruct (server.parse_updated_after fromisoformat updated_after)
    as [msg|ts]; [discriminate|].
  rewrite Hu in Hr.
  destruct (server.take_page _ _) as [page has_more].
  injection Hr as <-. cbn [server.totalIssues server.countsByStateType
                            server.matchingCount].
  destruct (counts_fold
              (fun i => reader.get_state_type (reader.issue_stateId i) c)
              (server.canonical
                 (reader.get_issues_for_user (reader.user_id user) c)) [])
    as (H1 & H2 & H3 & H4).
  cbv zeta in H1, H2, H3, H4.
  assert (Hlen : List.length
                   (server.canonical
                      (reader.get_issues_for_user (reader.user_id user) c))
                 = List.length
                     (reader.get_issues_for_user (reader.user_id user) c))
    by (symmetry; apply Permutation_length, canonical_perm).
  split; [|split; [|split; [|split]]].
  - rewrite H2. simpl. exact Hlen.
  - intros k. rewrite H1. unfold spec.state_type_count. simpl.
    symmetry. apply filter_length_perm, canonical_perm.
  - apply H3. constructor.
  - apply H4. constructor.
  - rewrite H2. simpl. rewrite Hlen. apply my_filtered_length.
Qed.

Lemma get_my_issues_counts_witness :
  server.totalIssues samples.daniel_issues
  = List.length (reader.get_issues_for_user "u1" samples.cache).
Proof.
  refine (proj1
            (get_my_issues_counts samples.not_a_date samples.cache "daniel"
               None None 2 None samples.daniel samples.daniel_issues _ _)).
  - reflexivity.
  - reflexivity.
Defined.

(** X12.  The [issueCount] that [get_user] reports for a name is the
    [totalIssues] that [get_my_issues] reports for the same name. *)
Theorem get_user_count_is_total_issues (fromisoformat : string -> option Q)
    (c : reader.CachedData) (name : string)
    (state_type updated_after : option string) (limit : Z)
    (cursor : option string) (uc : server.UserCount) (r : server.MyIssues) :
  server.get_user c name = Some uc ->
  server.get_my_issues fromisoformat c name state_type updated_after limit
    cursor = server.MyResult r ->
  server.user_issueCount uc = server.totalIssues r.
Proof.
  intros Hg Hr. unfold server.get_user in Hg.
  destruct (reader.find_user name c) as [user|] eqn:Hu; [|discriminate].
  injection Hg as <-. simpl. rewrite count_issues_assigned.
  unfold server.get_my_issues in Hr. cbv zeta in Hr.
  destruct (server.parse_updated_after fromisoformat updated_after)
    as [msg|ts]; [discriminate|].
  rewrite Hu in Hr.
  destruct (server.take_page _ _) as [page has_more].
  injection Hr as <-. cbn [server.totalIssues].
  destruct (counts_fold
              (fun i => reader.get_state_type (reader.issue_stateId i) c)
              (server.canonical
                 (reader.get_issues_for_user (reader.user_id user) c)) [])
    as (_ & H2 & _).
  cbv zeta in H2. rewrite H2. simpl.
  apply Permutation_length, canonical_perm.
Qed.

Lemma get_user_count_is_total_issues_witness :
  server.user_issueCount (server.with_user_count samples.cache samples.daniel)
  = server.totalIssues samples.daniel_issues.
Proof.
  refine (get_user_count_is_total_issues samples.not_a_date samples.cache
            "daniel" None None 2 None _ samples.daniel_issues _ _).
  - reflexivity.
  - reflexivity.
Defined.

(** ** Lists of users, teams and states *)

Lemma filter_true {A : Type} (l : list A) : filter (fun _ => true) l = l.
Proof. induction l as [|x l IH]; simpl; [reflexivity | now rewrite IH]. Qed.

(** X13.  [list_users] cuts the user dictionary to its first [limit] users
    (to one user when [limit] is 0 or negative) before it sorts: the result
    is those users, each with the number of issues assigned to it, arranged
    by descending issue count; users further down the dictionary are left
    out whatever their count. *)
Theorem list_users_cut_then_sorted (c : reader.CachedData) (limit : Z) :
  let first_users :=
    firstn (Z.to_nat (Z.max 1 limit)) (py.values (reader.users c)) in
  Permutation (map (server.with_user_count c) first_users)
    (server.list_users c limit)
  /\ StronglySorted
       (fun x y => (server.user_issueCount y <= server.user_issueCount x)%nat)
       (server.list_users c limit)
  /\ (forall uc,
         In uc (server.list_users c limit) ->
         In (server.counted_user uc) first_users
         /\ server.user_issueCount uc
            = List.length
                (reader.get_issues_for_user
                   (reader.user_id (server.counted_user uc)) c)).
Proof.
  intros first_users. unfold server.list_users. cbv zeta.
  rewrite append_until_firstn, filter_true. simpl app.
  rewrite Z.sub_0_r, firstn_map. fold first_users.
  set (le := fun x y : server.UserCount =>
               - Z.of_nat (server.user_issueCount x)
               <=? - Z.of_nat (server.user_issueCount y)).
  split; [apply sorted_perm|]. split.
  - assert (Hs : StronglySorted (fun a b => le a b = true)
                   (py.sorted le (map (server.with_user_count c) first_users))).
    { apply sorted_sorted; unfold le.
      - intros x y H. apply Z.leb_gt in H. apply Z.leb_le. lia.
      - intros x y z H1 H2. apply Z.leb_le in H1, H2. apply Z.leb_le. lia. }
    induction Hs as [|x l Hs IH Hall]; constructor; [exact IH|].
    eapply Forall_impl; [|exact Hall].
    intros y Hy. unfold le in Hy. apply Z.leb_le in Hy. lia.
  - intros uc Huc.
    apply (Permutation_in _ (Permutation_sym (sorted_perm le _))) in Huc.
    apply in_map_iff in Huc as (u & <- & Hu). simpl.
    split; [exact Hu | apply count_issues_assigned].
Qed.

Lemma group_get_append (k k' : option string) (st : reader.State)
    (groups : list (option string * list reader.State)) :
  server.group_get k (server.group_append k' st groups)
  = if server.option_eqb k' k
    then (server.group_get k groups ++ [st])%list
    else server.group_get k groups.
Proof.
  unfold server.group_get.
  induction groups as [|[k1 l] groups IH]; simpl.
  - now destruct (server.option_eqb k' k).
  - destruct (option_eqb_spec k1 k') as [E1|E1]; simpl.
    + subst k1. now destruct (server.option_eqb k' k).
    + destruct (option_eqb_spec k1 k) as [E2|E2]; [|exact IH].
      subst k1. destruct (option_eqb_spec k' k); [congruence | reflexivity].
Qed.

Lemma group_get_fold (k : option string) (sts : list reader.State) :
  forall groups,
    server.group_get k
      (fold_left
         (fun groups st => server.group_append (reader.state_type st) st groups)
         sts groups)
    = (server.group_get k groups
       ++ filter (fun st => server.option_eqb (reader.state_type st) k) sts)%list.
Proof.
  induction sts as [|st sts IH]; intros groups; simpl.
  - now rewrite app_nil_r.
  - rewrite IH, group_get_append.
    destruct (server.option_eqb (reader.state_type st) k);
      [now rewrite <- app_assoc | reflexivity].
Qed.

(** X14.  [list_states] returns the workflow states whose type is one of
    backlog, unstarted, started, completed and canceled, the types in that
    order and the states of one type in the order of the state dictionary; a
    state with another type or none is left out, and the argument [team]
    changes nothing. *)
Theorem list_states_grouped_by_type (c : reader.CachedData)
    (team : option string) :
  server.list_states c team
  = flat_map
      (fun t =>
         filter
           (fun st => server.option_eqb (reader.state_type st) (Some t))
           (py.values (reader.states c)))
      ["backlog"; "unstarted"; "started"; "completed"; "canceled"]
  /\ (forall st,
         In st (server.list_states c team)
         <-> In st (py.values (reader.states c))
             /\ exists t,
                  In t ["backlog"; "unstarted"; "started"; "completed";
                        "canceled"]
                  /\ reader.state_type st = Some t).
Proof.
  assert (E : server.list_states c team
              = flat_map
                  (fun t =>
                     filter
                       (fun st =>
                          server.option_eqb (reader.state_type st) (Some t))
                       (py.values (reader.states c)))
                  server.type_order).
  { unfold server.list_states. cbv zeta. apply flat_map_ext. intros t.
    now rewrite group_get_fold. }
  split; [exact E|].
  intros st. rewrite E, in_flat_map. split.
  - intros (t & Ht & Hin). apply filter_In in Hin as [Hin Hty].
    split; [exact Hin|]. exists t. split; [exact Ht|].
    now destruct (option_eqb_spec (reader.state_type st) (Some t)).
  - intros (Hin & t & Ht & Hty). exists t. split; [exact Ht|].
    apply filter_In. split; [exact Hin|]. rewrite Hty.
    now destruct (option_eqb_spec (Some t) (Some t)).
Qed.

Lemma count_issues_of_team (c : reader.CachedData) (tid : string) :
  server.count_issues c reader.issue_teamId tid
  = List.length
      (filter
         (fun i => server.option_eqb (reader.issue_teamId i) (Some tid))
         (py.values (reader.issues c))).
Proof. reflexivity. Qed.

(** X15.  When every team has a key, [list_teams] returns every team of the
    dictionary once, each with the number of issues whose [teamId] is its
    id, arranged by ascending key. *)
Theorem list_teams_sorted_by_key (c : reader.CachedData) :
  (forall t, In t (py.values (reader.teams c)) -> reader.team_key t <> None) ->
  exists l,
    server.list_teams c = Some l
    /\ Permutation (map (server.with_team_count c) (py.values (reader.teams c)))
         l
    /\ StronglySorted
         (fun x y =>
            String.leb
              (reader._to_str (reader.team_key (server.counted_team x)))
              (reader._to_str (reader.team_key (server.counted_team y)))
            = true)
         l
    /\ (forall tc,
           In tc l ->
           server.team_issueCount tc
           = List.length
               (filter
                  (fun i =>
                     server.option_eqb (reader.issue_teamId i)
                       (Some (reader.team_id (server.counted_team tc))))
                  (py.values (reader.issues c)))).
Proof.
  intros Hkeys. unfold server.list_teams. cbv zeta.
  assert (Hex : existsb
                  (fun r =>
                     match reader.team_key (server.counted_team r) with
                     | Some _ => false
                     | None => true
                     end)
                  (map (server.with_team_count c) (py.values (reader.teams c)))
                = false).
  { apply not_true_is_false. intros H.
    apply existsb_exists in H as (r & Hr & Hk).
    apply in_map_iff in Hr as (t & <- & Ht). simpl in Hk.
    specialize (Hkeys t Ht). now destruct (reader.team_key t). }
  rewrite Hex, andb_false_r. eexists. split; [reflexivity|].
  split; [apply sorted_perm|]. split.
  - apply (sorted_sorted
             (fun x y =>
                String.leb
                  (reader._to_str (reader.team_key (server.counted_team x)))
                  (reader._to_str (reader.team_key (server.counted_team y))))).
    + intros x y H.
      destruct (String.leb_total
                  (reader._to_str (reader.team_key (server.counted_team x)))
                  (reader._to_str (reader.team_key (server.counted_team y))));
        congruence.
    + intros x y z. apply string_leb_trans.
  - intros tc Htc.
    apply (Permutation_in _ (Permutation_sym (sorted_perm _ _))) in Htc.
    apply in_map_iff in Htc as (t & <- & Ht). reflexivity.
Qed.

Lemma list_teams_sorted_by_key_witness :
  exists l,
    server.list_teams samples.cache = Some l
    /\ Permutation
         (map (server.with_team_count samples.cache)
            (py.values (reader.teams samples.cache))) l.
Proof.
  destruct (list_teams_sorted_by_key samples.cache) as (l & H1 & H2 & _).
  - intros t Ht. vm_compute in Ht.
    repeat destruct Ht as [Ht|Ht]; try contradiction; subst t; discriminate.
  - exists l. split; assumption.
Defined.

(** ** More of the store detector *)

Lemma assign_has_role (k k' : spec.role) (name n : string)
    (r : store_detector.DetectedStores) :
  spec.has_role k' (spec.assign k name r) n ->
  (k' = k /\ n = name) \/ spec.has_role k' r n.
Proof.
  destruct r as [i t u w c p].
  destruct k, k'; simpl; intros H; auto;
    try (injection H as <-; now left);
    apply in_app_or in H as [H|[<-|[]]]; auto.
Qed.

Lemma first_match_looks_like (r : store_detector.DetectedStores)
    (name : string) (val : store_detector.record) (k : spec.role) :
  spec.first_match r name val = Some k ->
  spec.looks_like k val = true /\ spec.accepts k r name = true.
Proof.
  intros H. apply find_some in H as [_ H]. now apply andb_true_iff in H.
Qed.

Lemma visit_has_role (r : store_detector.DetectedStores)
    (store : option string * store_detector.sample) (k : spec.role)
    (n : string) :
  spec.has_role k (store_detector.visit r store) n ->
  spec.has_role k r n
  \/ (fst store = Some n /\ spec.read_as [store] k n
      /\ spec.accepts k r n = true).
Proof.
  unfold store_detector.visit.
  destruct (store_detector.skipped (fst store)) eqn:Hs; [now left|].
  destruct store as [[name|] [| |[]]]; try (now left).
  simpl in Hs.
  destruct (classify_first_match r name d) as (_ & _ & [-> | (k0 & Hm & ->)]);
    [now left|].
  intros H. apply assign_has_role in H as [[-> ->]|H]; [|now left].
  right. apply first_match_looks_like in Hm as [Hl Ha].
  split; [reflexivity|]. split; [|exact Ha].
  exists d. split; [now left | now split].
Qed.

Lemma detect_has_role (db : store_detector.database) :
  forall (r : store_detector.DetectedStores) (k : spec.role) (n : string),
    spec.has_role k (fold_left store_detector.visit db r) n ->
    spec.has_role k r n \/ spec.read_as db k n.
Proof.
  induction db as [|store db IH]; intros r k n H; simpl in H; [now left|].
  apply IH in H as [H|(val & Hin & Hrest)].
  - apply visit_has_role in H as [H|(_ & (val & Hin & Hrest) & _)];
      [now left|].
    right. exists val. split; [|exact Hrest].
    destruct Hin as [Hin|[]]. now left.
  - right. exists val. split; [now right | exact Hrest].
Qed.

(** X16.  Every store that [detect_stores] reports for a role was read (its
    name is not [None], does not start with an underscore and does not
    contain [_partial]), its first record is an object, and that record
    satisfies the predicate of the role. *)
Theorem detected_store_satisfies_its_predicate (db : store_detector.database)
    (k : spec.role) (n : string) :
  spec.has_role k (store_detector.detect_stores db) n ->
  exists val,
    In (Some n, store_detector.FirstRecord (VDict val)) db
    /\ store_detector.skipped (Some n) = false
    /\ spec.looks_like k val = true.
Proof.
  intros H. apply detect_has_role in H as [H|H]; [|exact H].
  destruct k; simpl in H; try discriminate; contradiction.
Qed.

Lemma detected_store_satisfies_its_predicate_witness :
  exists val,
    In (Some "h2", store_detector.FirstRecord (VDict val)) samples.tables
    /\ store_detector.skipped (Some "h2") = false
    /\ spec.looks_like spec.TeamRole val = true.
Proof.
  apply (detected_store_satisfies_its_predicate samples.tables spec.TeamRole
           "h2").
  reflexivity.
Defined.

Lemma mem_false_not_in (n : string) (l : list string) :
  store_detector.mem n l = false -> ~ In n l.
Proof.
  unfold store_detector.mem. intros H Hin.
  assert (E : existsb (String.eqb n) l = true).
  { apply existsb_exists. exists n. split; [exact Hin | apply String.eqb_refl]. }
  congruence.
Qed.

Lemma nodup_snoc (n : string) (l : list string) :
  NoDup l -> ~ In n l -> NoDup (l ++ [n]).
Proof.
  intros Hl Hn. rewrite <- (rev_involutive (l ++ [n])). apply NoDup_rev.
  rewrite rev_app_distr. simpl.
  constructor; [now rewrite <- in_rev | now apply NoDup_rev].
Qed.

Lemma assign_listed_once (r : store_detector.DetectedStores) (k : spec.role)
    (name : string) :
  spec.names_listed_once r -> spec.accepts k r name = true ->
  spec.names_listed_once (spec.assign k name r).
Proof.
  destruct r as [i t u w c p].
  intros [(us & Hu & Hnu) (ws & Hw & Hnw)] Ha. simpl in Hu, Hw. subst u w.
  destruct k; simpl in *; unfold spec.names_listed_once; simpl;
    try (split; eauto).
  - eexists. split; [reflexivity|]. apply nodup_snoc; [exact Hnu|].
    apply mem_false_not_in. now apply negb_true_iff.
  - eexists. split; [reflexivity|]. apply nodup_snoc; [exact Hnw|].
    apply mem_false_not_in. now apply negb_true_iff.
Qed.

Lemma visit_listed_once (r : store_detector.DetectedStores)
    (store : option string * store_detector.sample) :
  spec.names_listed_once r -> spec.names_listed_once (store_detector.visit r store).
Proof.
  intros H. unfold store_detector.visit.
  destruct (store_detector.skipped (fst store)); [exact H|].
  destruct store as [[name|] [| |[]]]; try exact H.
  destruct (classify_first_match r name d) as (_ & _ & [-> | (k0 & Hm & ->)]);
    [exact H|].
  apply assign_listed_once; [exact H|].
  now apply first_match_looks_like in Hm.
Qed.

(** X17.  The user stores and the workflow-state stores that
    [detect_stores] reports are always lists, never [None], and no store
    name occurs twice in either, also when the database lists a name
    twice. *)
Theorem detected_lists_have_no_duplicates (db : store_detector.database) :
  (exists us,
      store_detector.users (store_detector.detect_stores db) = Some us
      /\ NoDup us)
  /\ (exists ws,
         store_detector.workflow_states (store_detector.detect_stores db)
         = Some ws
         /\ NoDup ws).
Proof.
  unfold store_detector.detect_stores.
  assert (H : forall r, spec.names_listed_once r ->
                        spec.names_listed_once (fold_left store_detector.visit db r)).
  { induction db as [|store db IH]; intros r Hr; simpl; [exact Hr|].
    now apply IH, visit_listed_once. }
  apply H. split; eexists; (split; [reflexivity | constructor]).
Qed.

Lemma visit_assigns (r : store_detector.DetectedStores)
    (store : option string * store_detector.sample) :
  store_detector.visit r store = r
  \/ exists name k,
       fst store = Some name
       /\ store_detector.visit r store = spec.assign k name r.
Proof.
  unfold store_detector.visit.
  destruct (store_detector.skipped (fst store)); [now left|].
  destruct store as [[name|] [| |[]]]; try (now left).
  destruct (classify_first_match r name d) as (_ & _ & [E | (k & _ & E)]);
    [now left|].
  right. exists name, k. now split.
Qed.

Lemma detect_one_role (db : store_detector.database) :
  forall r,
    (forall k1 k2 m, spec.has_role k1 r m -> spec.has_role k2 r m -> k1 = k2) ->
    (forall k1 m, spec.has_role k1 r m -> ~ In (Some m) (map fst db)) ->
    NoDup (map fst db) ->
    forall k1 k2 m,
      spec.has_role k1 (fold_left store_detector.visit db r) m ->
      spec.has_role k2 (fold_left store_detector.visit db r) m ->
      k1 = k2.
Proof.
  induction db as [|store db IH]; intros r Hone Hfresh Hnd; simpl;
    [exact Hone|].
  inversion Hnd as [|? ? Hn Hd]; subst.
  destruct (visit_assigns r store) as [E | (name & k0 & Ename & E)];
    rewrite E; apply IH; try exact Hd; try exact Hone.
  - intros j x Hx Hin. apply (Hfresh j x Hx). now right.
  - intros j1 j2 x H1 H2.
    apply assign_has_role in H1 as [[-> ->]|H1];
      apply assign_has_role in H2 as [[-> E2]|H2]; auto.
    + exfalso. apply (Hfresh j2 name H2). left. exact Ename.
    + subst x. exfalso. apply (Hfresh j1 name H1). left. exact Ename.
    + now apply (Hone j1 j2 x).
  - intros j x Hx. apply assign_has_role in Hx as [[-> ->]|Hx].
    + now rewrite <- Ename.
    + intros Hin. apply (Hfresh j x Hx). now right.
Qed.

(** X18.  When the database lists no store name twice, [detect_stores]
    gives a store at most one role. *)
Theorem detected_store_has_one_role (db : store_detector.database)
    (k k' : spec.role) (n : string) :
  NoDup (map fst db) ->
  spec.has_role k (store_detector.detect_stores db) n ->
  spec.has_role k' (store_detector.detect_stores db) n ->
  k = k'.
Proof.
  intros Hnd. unfold store_detector.detect_stores.
  assert (H0 : forall k0 n0,
             ~ spec.has_role k0
                 (store_detector.mkDetectedStores None None (Some [])
                    (Some []) None None) n0).
  { intros k0 n0 H. destruct k0; simpl in H; try discriminate; contradiction. }
  apply detect_one_role; [| |exact Hnd].
  - intros k1 k2 m Hk. now apply H0 in Hk.
  - intros k1 m Hk. now apply H0 in Hk.
Qed.

Lemma detected_store_has_one_role_witness :
  spec.UserRole = spec.UserRole.
Proof.
  apply (detected_store_has_one_role samples.tables spec.UserRole
           spec.UserRole "h3").
  - vm_compute. repeat constructor; simpl; intuition discriminate.
  - vm_compute. now left.
  - vm_compute. now left.
Defined.

Lemma upper_not_lower (a : ascii) :
  py.is_ascii_upper a = true -> py.is_ascii_lower a = false.
Proof.
  destruct a as [[] [] [] [] [] [] [] []]; vm_compute; intros H;
    first [reflexivity | discriminate H].
Qed.

Lemma all_upper_iff (s : string) :
  py.all_chars py.is_ascii_upper s = true
  <-> py.all_chars (fun a => py.is_ascii_upper a || py.is_ascii_lower a) s
      = true
      /\ py.any_char py.is_ascii_lower s = false.
Proof.
  induction s as [|a s IH]; simpl; [tauto|].
  rewrite !andb_true_iff, orb_false_iff, IH, orb_true_iff. split.
  - intros [Ha [H1 H2]]. rewrite (upper_not_lower a Ha). tauto.
  - intros [[[Ha|Ha] H1] [Hl H2]]; [tauto | congruence].
Qed.

Lemma all_upper_any_upper (s : string) :
  s <> "" -> py.all_chars py.is_ascii_upper s = true ->
  py.any_char py.is_ascii_upper s = true.
Proof.
  destruct s as [|a s]; [congruence|]. simpl. intros _ H.
  apply andb_true_iff in H as [-> _]. reflexivity.
Qed.

(** X19.  [_is_team_record] accepts every record that has a field [name]
    and a field [key] whose value is a string of 1 to 10 ASCII capital
    letters.  A record that it accepts has a field [name] and a field [key]
    whose value is a string that is not empty, and when that string is in
    ASCII it has at most 10 characters, all of them capital letters. *)
Theorem is_team_record_key_of_capitals (r : store_detector.record) :
  (py.dict_has "name" r = true
   /\ (exists key,
          py.dict_get "key" r = Some (VStr key)
          /\ key <> ""
          /\ py.all_chars py.is_ascii_upper key = true
          /\ (String.length key <= 10)%nat) ->
   store_detector._is_team_record r = true)
  /\ (store_detector._is_team_record r = true ->
      py.dict_has "name" r = true
      /\ exists key,
           py.dict_get "key" r = Some (VStr key)
           /\ key <> ""
           /\ (py.isascii key = true ->
               py.all_chars py.is_ascii_upper key = true
               /\ (String.length key <= 10)%nat)).
Proof.
  unfold store_detector._is_team_record, store_detector.has_fields,
    py.dict_has, py.isupper, py.isalpha.
  simpl forallb. split.
  - intros [Hname (key & Hkey & Hne & Hall & Hlen)]. rewrite Hkey.
    destruct (py.dict_get "name" r); [|discriminate]. simpl.
    apply all_upper_iff in Hall as Hboth. destruct Hboth as [H1 H2].
    rewrite (all_upper_any_upper key Hne Hall), H1, H2. simpl.
    apply String.eqb_neq in Hne. rewrite Hne. simpl.
    now apply Nat.leb_le.
  - destruct (py.dict_get "key" r) as [[| | | |key| |]|]; simpl;
      try discriminate;
      destruct (py.dict_get "name" r); simpl; try discriminate.
    rewrite !andb_true_iff, !negb_true_iff.
    intros [[[Hany Hlow] [Hne Hall]] Hlen].
    split; [reflexivity|]. exists key. split; [reflexivity|].
    split; [now apply String.eqb_neq|]. intros _.
    split; [now apply all_upper_iff | now apply Nat.leb_le].
Qed.

Lemma is_team_record_key_of_capitals_witness :
  store_detector._is_team_record samples.team_record = true.
Proof.
  refine (proj1 (is_team_record_key_of_capitals samples.team_record) _).
  split; [reflexivity|]. exists "ENG".
  repeat split; try reflexivity; [discriminate | apply Nat.leb_le; reflexivity].
Defined.

(** ** Timestamps *)

Lemma qlt_inject_Z (a b : Z) : server.qlt (inject_Z a) (inject_Z b) = (a <? b).
Proof.
  unfold server.qlt, Qle_bool. cbn [Qnum Qden inject_Z].
  rewrite !Z.mul_1_r.
  destruct (Z.leb_spec b a), (Z.ltb_spec a b); simpl; try reflexivity; lia.
Qed.

(** X20.  [_parse_datetime] takes a number above 10^12 for milliseconds: the
    millisecond form [1000 * s] of an instant [s] between 10^9 and 10^12
    seconds parses to the same value as [s] itself, while for an instant of
    at most 10^9 seconds (before September 2001) the millisecond form is
    taken for seconds and parses to [1000 * s]. *)
Theorem parse_datetime_milliseconds (fromisoformat : string -> option Q)
    (s : Z) :
  (10 ^ 9 < s <= 10 ^ 12 ->
   server._parse_datetime fromisoformat (VInt s) = Some (inject_Z s)
   /\ exists q,
        server._parse_datetime fromisoformat (VInt (1000 * s)) = Some q
        /\ (q == inject_Z s)%Q)
  /\ (s <= 10 ^ 9 ->
      server._parse_datetime fromisoformat (VInt (1000 * s))
      = Some (inject_Z (1000 * s))).
Proof.
  change 1000000000000%Q with (inject_Z 1000000000000).
  unfold server._parse_datetime.
  change (1000000000000%Q) with (inject_Z 1000000000000).
  rewrite !qlt_inject_Z. split.
  - intros Hs.
    destruct (Z.ltb_spec 1000000000000 s) as [H|H]; [lia|].
    split; [reflexivity|].
    destruct (Z.ltb_spec 1000000000000 (1000 * s)) as [H'|H']; [|lia].
    eexists. split; [reflexivity|].
    rewrite inject_Z_mult. change (inject_Z 1000) with 1000%Q. field.
  - intros Hs.
    destruct (Z.ltb_spec 1000000000000 (1000 * s)) as [H'|H']; [lia|].
    reflexivity.
Qed.

(** ** More of the loader *)

Lemma dict_get_set {V : Type} (k k' : string) (v : V) (d : list (string * V)) :
  py.dict_get k (py.dict_set k' v d)
  = if String.eqb k' k then Some v else py.dict_get k d.
Proof.
  induction d as [|[k1 v1] d IH]; simpl; [reflexivity|].
  destruct (String.eqb_spec k1 k') as [E1|E1]; simpl.
  - subst k1. now destruct (String.eqb k' k).
  - destruct (String.eqb_spec k1 k) as [E2|E2]; [|exact IH].
    subst k1. destruct (String.eqb_spec k' k); [congruence | reflexivity].
Qed.

Lemma find_app {A : Type} (p : A -> bool) (l1 l2 : list A) :
  find p (l1 ++ l2)
  = match find p l1 with Some x => Some x | None => find p l2 end.
Proof.
  induction l1 as [|a l1 IH]; simpl; [reflexivity|].
  now destruct (p a).
Qed.

Lemma fold_concat {A B : Type} (g : B -> A -> B) (ls : list (list A)) :
  forall b,
    fold_left (fun d vals => fold_left g vals d) ls b
    = fold_left g (List.concat ls) b.
Proof.
  induction ls as [|l ls IH]; intros b; simpl; [reflexivity|].
  now rewrite IH, fold_left_app.
Qed.

(** A dictionary filled by [d[id] = record]: the last record of an id is the
    one that stays *)
Lemma dict_get_last_wins {R V : Type} (key : R -> string) (build : R -> V)
    (k : string) (recs : list R) :
  forall d,
    py.dict_get k (fold_left (fun d r => py.dict_set (key r) (build r) d) recs d)
    = match find (fun r => String.eqb (key r) k) (rev recs) with
      | Some r => Some (build r)
      | None => py.dict_get k d
      end.
Proof.
  induction recs as [|r recs IH]; intros d; simpl; [reflexivity|].
  rewrite IH, find_app. destruct (find _ (rev recs)); [reflexivity|].
  simpl. rewrite dict_get_set. now destruct (String.eqb (key r) k).
Qed.

(** A dictionary filled only where the id is new: the first record of an id
    is the one that stays *)
Lemma dict_get_first_wins {R : Type} (key : R -> string)
    (load : list (string * R) -> R -> list (string * R)) (k : string)
    (recs : list R) :
  (forall d r,
      load d r = if py.dict_has (key r) d then d else py.dict_set (key r) r d) ->
  forall d,
    py.dict_get k (fold_left load recs d)
    = match py.dict_get k d with
      | Some r => Some r
      | None => find (fun r => String.eqb (key r) k) recs
      end.
Proof.
  intros Hload. induction recs as [|r recs IH]; intros d; simpl.
  - now destruct (py.dict_get k d).
  - rewrite IH, Hload. unfold py.dict_has.
    destruct (py.dict_get (key r) d) as [r0|] eqn:E.
    + destruct (py.dict_get k d) eqn:Ek; [reflexivity|].
      destruct (String.eqb_spec (key r) k); [congruence | reflexivity].
    + rewrite dict_get_set.
      destruct (String.eqb_spec (key r) k) as [Ek|Ek].
      * subst k. now rewrite E.
      * reflexivity.
Qed.

Section LoadedMaps.

Variable json_loads : string -> reader.Loaded.
Variable py_repr : nat -> pyval -> option string.
Variables join_cost room : nat.

Lemma reload_cache_users_states (db : reader.StoreRecords) (now : Q)
    (c : reader.CachedData) :
  reader._reload_cache json_loads py_repr join_cost room db now = Some c ->
  reader.users c
  = fold_left reader.load_user (List.concat (reader.user_records db)) []
  /\ reader.states c
     = fold_left reader.load_state (List.concat (reader.state_records db)) [].
Proof.
  unfold reader._reload_cache.
  destruct (reader.load_comments _ _ _ _) as [[cs by_issue]|]; [|discriminate].
  intros [= <-]. simpl. now rewrite !fold_concat.
Qed.

End LoadedMaps.

(** X21.  After a successful [_reload_cache], a team or an issue is the last
    record of its id in its store, a user or a workflow state is the first
    record of its id over all the stores of its kind, in the order in which
    they were read; an id absent from the records is absent from the
    dictionary. *)
Theorem loaded_dictionaries_lookup
    (json_loads : string -> reader.Loaded)
    (py_repr : nat -> pyval -> option string)
    (join_cost room : nat)
    (db : reader.StoreRecords) (now : Q) (c : reader.CachedData) :
  reader._reload_cache json_loads py_repr join_cost room db now = Some c ->
  forall k,
    py.dict_get k (reader.teams c)
    = find (fun t => String.eqb (reader.team_id t) k)
        (rev (reader.team_records db))
    /\ py.dict_get k (reader.users c)
       = find (fun u => String.eqb (reader.user_id u) k)
           (List.concat (reader.user_records db))
    /\ py.dict_get k (reader.states c)
       = find (fun st => String.eqb (reader.state_id st) k)
           (List.concat (reader.state_records db))
    /\ py.dict_get k (reader.issues c)
       = match find (fun val => String.eqb (reader.raw_id val) k)
                 (rev (reader.issue_records db)) with
         | Some val =>
             Some
               (reader.mkIssue k (reader.make_identifier (reader.teams c) val)
                  (reader.raw_title val) (reader.raw_number val)
                  (reader.raw_priority val) (reader.raw_teamId val)
                  (reader.raw_stateId val) (reader.raw_assigneeId val)
                  (reader.raw_projectId val) (reader.raw_labelIds val)
                  (reader.raw_createdAt val) (reader.raw_updatedAt val))
         | None => None
         end.
Proof.
  intros Hload k.
  pose proof (reload_cache_fields _ _ _ _ _ _ _ Hload) as (Ht & Hi & _).
  pose proof (reload_cache_users_states _ _ _ _ _ _ _ Hload) as (Hu & Hs).
  split; [|split; [|split]].
  - rewrite Ht.
    rewrite (dict_get_last_wins reader.team_id
               (fun val => reader.mkTeam (reader.team_id val)
                             (reader.team_key val) (reader.team_name val))).
    destruct (find _ _) as [[i ky nm]|]; reflexivity.
  - rewrite Hu.
    rewrite (dict_get_first_wins reader.user_id reader.load_user); [reflexivity|].
    intros d [i nm dn em]. reflexivity.
  - rewrite Hs.
    rewrite (dict_get_first_wins reader.state_id reader.load_state);
      [reflexivity|].
    intros d [i nm ty co]. reflexivity.
  - rewrite Hi.
    rewrite (dict_get_last_wins reader.raw_id
               (fun val =>
                  reader.mkIssue (reader.raw_id val)
                    (reader.make_identifier (reader.teams c) val)
                    (reader.raw_title val) (reader.raw_number val)
                    (reader.raw_priority val) (reader.raw_teamId val)
                    (reader.raw_stateId val) (reader.raw_assigneeId val)
                    (reader.raw_projectId val) (reader.raw_labelIds val)
                    (reader.raw_createdAt val) (reader.raw_updatedAt val))).
    destruct (find _ _) as [val|] eqn:E; [|reflexivity].
    apply find_some in E as [_ E]. apply String.eqb_eq in E.
    now rewrite E.
Qed.

Lemma loaded_dictionaries_lookup_witness :
  py.dict_get "t1" (reader.teams samples.cache)
  = find (fun t => String.eqb (reader.team_id t) "t1")
      (rev (reader.team_records samples.store)).
Proof.
  apply (loaded_dictionaries_lookup samples.not_json samples.no_repr
           samples.join_cost samples.room
           samples.store 1000 samples.cache).
  reflexivity.
Defined.

Section LoadedComments.

Variable json_loads : string -> reader.Loaded.
Variable py_repr : nat -> pyval -> option string.
Variables join_cost room : nat.

Lemma load_comment_indexed
    (acc acc' : list (string * reader.Comment) * list (string * list string))
    (val : reader.RawComment) :
  spec.comments_indexed (fst acc) (snd acc) ->
  reader.load_comment json_loads py_repr join_cost room acc val = Some acc' ->
  spec.comments_indexed (fst acc') (snd acc').
Proof.
  intros [H1 H2]. unfold reader.load_comment.
  destruct (reader.missing (reader.rawc_id val)
            || reader.missing (reader.rawc_issueId val));
    [intros [= <-]; now split|].
  destruct (reader.rawc_id val) as [cid|]; [|intros [= <-]; now split].
  destruct (reader.rawc_issueId val) as [iid|]; [|intros [= <-]; now split].
  destruct (reader._extract_comment_text _ _ _) as [body|]; [|discriminate].
  intros [= <-]. cbn [fst snd]. split.
  - intros iid' ids' cid'. rewrite dict_get_set. unfold py.dict_has.
    rewrite dict_get_set. intros Hget Hin.
    destruct (String.eqb cid cid') eqn:Ec; [reflexivity|].
    destruct (String.eqb iid iid') eqn:Ei.
    + injection Hget as <-. apply in_app_or in Hin as [Hin|[->|[]]].
      * apply String.eqb_eq in Ei. subst iid'.
        destruct (py.dict_get iid (snd acc)) as [ids|] eqn:Eg; [|destruct Hin].
        exact (H1 iid ids cid' Eg Hin).
      * now rewrite String.eqb_refl in Ec.
    + exact (H1 iid' ids' cid' Hget Hin).
  - intros k cm. rewrite dict_get_set.
    destruct (String.eqb_spec cid k) as [Ek|Ek].
    + intros [= <-]. simpl. split; [exact Ek|].
      rewrite dict_get_set, String.eqb_refl. eexists. split; [reflexivity|].
      apply in_or_app. right. now left.
    + intros Hget. destruct (H2 k cm Hget) as (Hid & ids0 & Hg0 & Hin0).
      split; [exact Hid|]. rewrite dict_get_set.
      destruct (String.eqb_spec iid (reader.comment_issueId cm)) as [Ei|Ei].
      * eexists. split; [reflexivity|]. rewrite Ei, Hg0.
        apply in_or_app. now left.
      * now exists ids0.
Qed.

Lemma load_comments_indexed (vals : list reader.RawComment) :
  forall acc acc',
    spec.comments_indexed (fst acc) (snd acc) ->
    reader.load_comments json_loads py_repr join_cost room acc vals
    = Some acc' ->
    spec.comments_indexed (fst acc') (snd acc').
Proof.
  induction vals as [|val vals IH]; intros acc acc' Hacc; simpl.
  - now intros [= <-].
  - destruct (reader.load_comment json_loads py_repr join_cost room acc val)
      as [acc1|] eqn:E;
      [|discriminate].
    apply IH. now apply (load_comment_indexed acc acc1 val).
Qed.

Lemma load_comment_raises
    (acc : list (string * reader.Comment) * list (string * list string))
    (val : reader.RawComment) :
  reader.load_comment json_loads py_repr join_cost room acc val = None
  <-> spec.comment_raises json_loads py_repr join_cost room val.
Proof.
  unfold reader.load_comment, spec.comment_raises.
  destruct (reader.rawc_id val) as [cid|]; simpl;
    [|split; [discriminate | intros [H _]; discriminate]].
  destruct (reader.rawc_issueId val) as [iid|]; simpl.
  - destruct (String.eqb cid ""); simpl;
      [split; [discriminate | intros [H _]; discriminate]|].
    destruct (String.eqb iid ""); simpl;
      [split; [discriminate | intros (_ & H & _); discriminate]|].
    destruct (reader._extract_comment_text _ _ _); split; auto;
      try discriminate.
    intros (_ & _ & H). discriminate.
  - rewrite orb_true_r.
    split; [discriminate | intros (_ & H & _); discriminate].
Qed.

Lemma load_comments_raises (vals : list reader.RawComment) :
  forall acc,
    reader.load_comments json_loads py_repr join_cost room acc vals = None
    <-> exists val,
          In val vals
          /\ spec.comment_raises json_loads py_repr join_cost room val.
Proof.
  induction vals as [|val vals IH]; intros acc; simpl.
  - split; [discriminate | intros (val & [] & _)].
  - destruct (reader.load_comment json_loads py_repr join_cost room acc val)
      as [acc1|] eqn:E.
    + rewrite IH. split.
      * intros (v & Hv & Hr). exists v. split; [now right | exact Hr].
      * intros (v & [<-|Hv] & Hr); [|now exists v].
        apply (load_comment_raises acc) in Hr. congruence.
    + split; [|reflexivity]. intros _. exists val. split; [now left|].
      now apply (load_comment_raises acc).
Qed.

Lemma load_comment_skips
    (acc : list (string * reader.Comment) * list (string * list string))
    (val : reader.RawComment) :
  reader.missing (reader.rawc_id val)
  || reader.missing (reader.rawc_issueId val) = true ->
  reader.load_comment json_loads py_repr join_cost room acc val = Some acc.
Proof.
  intros H. unfold reader.load_comment. now rewrite H.
Qed.

Lemma load_comments_skip (before after : list reader.RawComment)
    (val : reader.RawComment) :
  reader.missing (reader.rawc_id val)
  || reader.missing (reader.rawc_issueId val) = true ->
  forall acc,
    reader.load_comments json_loads py_repr join_cost room acc
      (before ++ val :: after)
    = reader.load_comments json_loads py_repr join_cost room acc
        (before ++ after).
Proof.
  intros H. induction before as [|v before IH]; intros acc; simpl.
  - now rewrite (load_comment_skips acc val H).
  - destruct (reader.load_comment json_loads py_repr join_cost room acc v);
      [apply IH | reflexivity].
Qed.

End LoadedComments.

(** X22.  After a successful [_reload_cache] the two dictionaries of
    comments agree: every comment id that [comments_by_issue] lists for an
    issue is the id of a stored comment, and every stored comment is stored
    under its own id and listed under its own issue. *)
Theorem loaded_comments_are_indexed
    (json_loads : string -> reader.Loaded)
    (py_repr : nat -> pyval -> option string)
    (join_cost room : nat)
    (db : reader.StoreRecords) (now : Q) (c : reader.CachedData) :
  reader._reload_cache json_loads py_repr join_cost room db now = Some c ->
  (forall iid ids cid,
      py.dict_get iid (reader.comments_by_issue c) = Some ids -> In cid ids ->
      py.dict_has cid (reader.comments c) = true)
  /\ (forall k cm,
         py.dict_get k (reader.comments c) = Some cm ->
         reader.comment_id cm = k
         /\ exists ids,
              py.dict_get (reader.comment_issueId cm)
                (reader.comments_by_issue c) = Some ids
              /\ In k ids).
Proof.
  unfold reader._reload_cache.
  destruct (reader.load_comments _ _ _ _) as [[cs by_issue]|] eqn:E;
    [|discriminate].
  intros [= <-]. simpl.
  apply (load_comments_indexed json_loads py_repr join_cost room
           (reader.comment_records db)
           ([], []) (cs, by_issue));
    [|exact E].
  split; simpl; intros; discriminate.
Qed.

Lemma loaded_comments_are_indexed_witness :
  py.dict_has "c2" (reader.comments samples.cache_with_comments) = true.
Proof.
  refine (proj1
            (loaded_comments_are_indexed samples.not_json samples.no_repr
               samples.join_cost samples.room
               samples.store_with_comments 1000 samples.cache_with_comments _)
            "a1" ["c1"; "c2"] "c2" _ _).
  - reflexivity.
  - reflexivity.
  - right. now left.
Defined.

(** X23.  A comment record with an id and an issue id whose body makes the
    extraction raise makes the whole of [_reload_cache] raise, so that
    [_ensure_cache] raises whenever it needs a reload; lists nested one
    inside the other beyond the recursion limit are such a body.  A record
    without an id or without an issue id is passed over before its body is
    read: the pass goes as if the record were not in the store. *)
Theorem reload_fails_on_a_bad_comment
    (json_loads : string -> reader.Loaded)
    (py_repr : nat -> pyval -> option string)
    (join_cost room : nat) (db : reader.StoreRecords) (now : Q) :
  (forall val,
      In val (reader.comment_records db) ->
      spec.comment_raises json_loads py_repr join_cost room val ->
      reader._reload_cache json_loads py_repr join_cost room db now = None
      /\ forall c,
           reader.reload_needed now c = true ->
           reader._ensure_cache
             (reader._reload_cache json_loads py_repr join_cost room db) now c
           = None)
  /\ (forall val n,
         In val (reader.comment_records db) ->
         reader.missing (reader.rawc_id val) = false ->
         reader.missing (reader.rawc_issueId val) = false ->
         reader.rawc_bodyData val = spec.nested n -> (room <= n)%nat ->
         reader._reload_cache json_loads py_repr join_cost room db now = None)
  /\ (forall before val after,
         reader.comment_records db = (before ++ val :: after)%list ->
         reader.missing (reader.rawc_id val)
         || reader.missing (reader.rawc_issueId val) = true ->
         reader._reload_cache json_loads py_repr join_cost room db now
         = reader._reload_cache json_loads py_repr join_cost room
             (reader.mkStoreRecords (reader.team_records db)
                (reader.user_records db) (reader.state_records db)
                (reader.issue_records db) (before ++ after)%list)
             now).
Proof.
  assert (H : forall val,
             In val (reader.comment_records db) ->
             spec.comment_raises json_loads py_repr join_cost room val ->
             reader._reload_cache json_loads py_repr join_cost room db now
             = None).
  { intros val Hin Hraise. unfold reader._reload_cache.
    rewrite (proj2 (load_comments_raises json_loads py_repr join_cost room
                      (reader.comment_records db) ([], [])));
      [reflexivity|].
    now exists val. }
  split; [|split].
  - intros val Hin Hraise. split; [now apply (H val)|].
    intros c Hc. unfold reader._ensure_cache. rewrite Hc. now apply (H val).
  - intros val n Hin Hid Hiid Hbody Hle. apply (H val Hin).
    split; [exact Hid|]. split; [exact Hiid|]. rewrite Hbody.
    unfold reader._extract_comment_text.
    destruct n; apply extract_nested_raises; exact Hle.
  - intros before val after Hdb Hmiss. unfold reader._reload_cache.
    cbn [reader.team_records reader.user_records reader.state_records
         reader.issue_records reader.comment_records].
    now rewrite Hdb, (load_comments_skip json_loads py_repr join_cost room
                        before after val Hmiss).
Qed.

Lemma reload_fails_on_a_bad_comment_witness :
  reader._reload_cache samples.not_json samples.no_repr samples.join_cost
    samples.room samples.store_with_bad_comment 1000
  = None.
Proof.
  refine (proj1
            (proj1
               (reload_fails_on_a_bad_comment samples.not_json samples.no_repr
                  samples.join_cost samples.room
                  samples.store_with_bad_comment 1000)
               (reader.mkRawComment (Some "c2") (Some "a1") None
                  samples.paragraph_with_number VNone VNone) _ _)).
  - right. now left.
  - split; [reflexivity|]. split; reflexivity.
Defined.
